(** * backend/main.py: room transcription agents and the transcript bus

    A shallow embedding of the FastAPI service of [backend/main.py]:
    the two process-wide dictionaries [transcript_queues] and
    [running_agents], the coroutines that mutate them ([room_task],
    [handle_audio_track], [event_generator]) and the endpoint
    [attach_transcriber].

    asyncio runs every coroutine on one thread and switches only at an
    [await] that really suspends, so a coroutine is embedded as a machine
    whose transitions are the code between two suspension points.  What the
    outside world decides (the LiveKit room, the speech-to-text stream, the
    HTTP client, the clocks) is the input of a transition. *)

From Stdlib Require Import ZArith QArith Ascii String.
From stdpp Require Import gmap strings list fin_maps.

(** ** Python values *)

(** A Python float: what [json.loads] or [loop.time()] can return.  A finite
    float is the dyadic number [m * 2^e]. *)
Inductive pyfloat :=
  | FNan
  | FInf (negative : bool)
  | FFin (m e : Z).

(** The values [json.loads] produces, which are also the values a request
    body holds. *)
#[warnings="-register-all"]
Inductive pyval :=
  | PNone
  | PBool (b : bool)
  | PInt (z : Z)
  | PFloat (f : pyfloat)
  | PStr (s : string)
  | PList (l : list pyval)
  | PDict (d : gmap string pyval).

(** The exceptions the module can meet.  [CancelledError], [KeyboardInterrupt]
    and [SystemExit] derive from [BaseException] only. *)
Inductive exn :=
  | TypeError
  | ValueError
  | IndexError
  | KeyError
  | JSONDecodeError
  | RecursionError
  | RuntimeError
  | ConnectError
  | CancelledError
  | KeyboardInterrupt
  | SystemExit.

(** [isinstance(e, Exception)], what [except Exception] catches. *)
Definition is_Exception (e : exn) : bool :=
  match e with
  | CancelledError | KeyboardInterrupt | SystemExit => false
  | _ => true
  end.

Inductive result (A : Type) :=
  | Return (a : A)
  | Raise (e : exn).
Arguments Return {A} a.
Arguments Raise {A} e.

#[export] Instance result_ret : MRet result := fun A a => Return a.
#[export] Instance result_bind : MBind result := fun A B k r =>
  match r with
  | Return a => k a
  | Raise e => Raise e
  end.

(** Truth value of a string: [bool(s)]. *)
Definition str_truthy (s : string) : bool :=
  match s with
  | EmptyString => false
  | String _ _ => true
  end.

(** Truth value of an object: [bool(v)], as [not v] and [if v] test it. *)
Definition truthy (v : pyval) : bool :=
  match v with
  | PNone => false
  | PBool b => b
  | PInt z => negb (z =? 0)%Z
  | PFloat (FFin m _) => negb (m =? 0)%Z
  | PFloat _ => true
  | PStr s => str_truthy s
  | PList l => match l with [] => false | _ => true end
  | PDict d => negb (bool_decide (d = ∅))
  end.

(** [a in s] for two strings: [a] occurs in [s]. *)
Definition str_contains (a s : string) : bool :=
  match String.index 0 a s with
  | Some _ => true
  | None => false
  end.

(** [key in v] for a string [key]. *)
Definition py_contains (key : string) (v : pyval) : result bool :=
  match v with
  | PDict d => Return (bool_decide (is_Some (d !! key)))
  | PList l =>
      Return (existsb (fun x => match x with
                                | PStr s => String.eqb s key
                                | _ => false
                                end) l)
  | PStr s => Return (str_contains key s)
  | PNone | PBool _ | PInt _ | PFloat _ => Raise TypeError
  end.

(** [v[key]] for a string [key]. *)
Definition py_getitem (v : pyval) (key : string) : result pyval :=
  match v with
  | PDict d =>
      match d !! key with
      | Some x => Return x
      | None => Raise KeyError
      end
  | _ => Raise TypeError
  end.

(** ** Collaborator objects *)

(** [rtc.TrackKind]. *)
Inductive TrackKind := KIND_UNKNOWN | KIND_AUDIO | KIND_VIDEO.

#[export] Instance TrackKind_eq_dec : EqDecision TrackKind.
Proof. solve_decision. Defined.

Record Track := { sid : string; kind : TrackKind }.

(** [rtc.TrackPublication]: [track] is [None] until the track is
    subscribed. *)
Record TrackPublication := { track : option Track }.

(** [rtc.RemoteParticipant].  The SDK gives [name] and [metadata] as
    strings, empty when the participant has none. *)
Record RemoteParticipant := {
  identity : string;
  name : string;
  metadata : string;
  track_publications : list TrackPublication;
}.

(** [rtc.ConnectionState]. *)
Inductive ConnectionState :=
  | CONN_DISCONNECTED
  | CONN_CONNECTED
  | CONN_RECONNECTING.

#[export] Instance ConnectionState_eq_dec : EqDecision ConnectionState.
Proof. solve_decision. Defined.

(** [agents.stt.SpeechEventType]. *)
Inductive SpeechEventType :=
  | START_OF_SPEECH
  | INTERIM_TRANSCRIPT
  | PREFLIGHT_TRANSCRIPT
  | FINAL_TRANSCRIPT
  | RECOGNITION_USAGE
  | END_OF_SPEECH.

#[export] Instance SpeechEventType_eq_dec : EqDecision SpeechEventType.
Proof. solve_decision. Defined.

Record SpeechData := { text : string }.

Record SpeechEvent := {
  type : SpeechEventType;
  alternatives : list SpeechData;
}.

(** ** Clocks *)

(** A naive [datetime.datetime], as [datetime.datetime.now()] returns it. *)
Record datetime := {
  year : nat; month : nat; day : nat;
  hour : nat; minute : nat; second : nat; microsecond : nat;
}.

Definition digit (n : nat) : ascii := ascii_of_nat (48 + n mod 10).

(** [n] in decimal on [width] digits, padded with zeros: ["%0<width>d"]
    for an [n] below [10^width], which the fields of a [datetime] are. *)
Fixpoint zero_pad (width n : nat) : string :=
  match width with
  | O => ""
  | S w => zero_pad w (n / 10) +:+ String (digit n) ""
  end.

(** [datetime.isoformat()]: [YYYY-MM-DDTHH:MM:SS], followed by [.ffffff]
    when the microsecond is not zero. *)
Definition isoformat (d : datetime) : string :=
  zero_pad 4 (year d) +:+ "-" +:+ zero_pad 2 (month d) +:+ "-" +:+
  zero_pad 2 (day d) +:+ "T" +:+ zero_pad 2 (hour d) +:+ ":" +:+
  zero_pad 2 (minute d) +:+ ":" +:+ zero_pad 2 (second d) +:+
  (if microsecond d is O then "" else "." +:+ zero_pad 6 (microsecond d)).

(** What one turn of the loop over a speech-to-text stream takes from
    outside: the event the stream yields, the reading of the wall clock,
    and the [name] and [metadata] the participant object has by then (the
    SDK replaces them in place when the participant changes them). *)
Record Turn := {
  turn_event : SpeechEvent;
  turn_now : datetime;
  turn_name : string;
  turn_metadata : string;
}.

(** The participant object a track task holds, as a turn reads it. *)
Definition seen (participant : RemoteParticipant) (turn : Turn)
    : RemoteParticipant :=
  {| identity := identity participant;
     name := turn_name turn;
     metadata := turn_metadata turn;
     track_publications := track_publications participant |}.

(** ** Transcript messages *)

(** The dictionary built for each transcript: its five keys. *)
Record msg := {
  roomId : string;
  timestamp : pyval;
  participantIdentity : string;
  participantName : pyval;
  msg_text : string;
}.

(** ** The standard library's JSON codec

    [json.loads] and [json.dumps] are not code of this module: the
    development holds for every decoder and encoder. *)
Class Json := {
  json_loads : string -> result pyval;
  json_dumps : msg -> string;
}.

#[export] Instance result_fmap : FMap result := fun A B f r =>
  match r with
  | Return a => Return (f a)
  | Raise e => Raise e
  end.

(** ** Identity resolution *)

Section with_json.
Context `{!Json}.

(** Lines 234-241 of [handle_audio_track] (and 110-118 of
    [TranscriberAgent.transcribe_track], the same statements): the
    participant's [name], or its [identity] when the name is empty, replaced
    by the [displayName] of the metadata when that can be read.  The bare
    [except:] swallows whatever decoding and indexing raise. *)
Definition resolve_name (participant : RemoteParticipant) : pyval :=
  let name0 :=
    PStr (if str_truthy (name participant) then name participant
          else identity participant) in
  if str_truthy (metadata participant) then
    match
      md ← json_loads (metadata participant);
      has ← py_contains "displayName" md;
      if has : bool then py_getitem md "displayName" else Return name0
    with
    | Return v => v
    | Raise _ => name0
    end
  else name0.

End with_json.

(** ** Objects of the process *)

(** An [asyncio.Queue]: its capacity ([0] means unbounded) and the items
    waiting in it, oldest first. *)
Record Queue := {
  maxsize : Z;
  items : list msg;
}.

(** [asyncio.Queue()]: the only way the module makes a queue. *)
Definition Queue_new : Queue := {| maxsize := 0; items := [] |}.

(** [Queue.full()]. *)
Definition full (q : Queue) : bool :=
  if (maxsize q <=? 0)%Z then false
  else (maxsize q <=? Z.of_nat (length (items q)))%Z.

(** [await q.put(m)]: [None] when the queue is full and the caller has to
    wait for a consumer. *)
Definition put (m : msg) (q : Queue) : option Queue :=
  if full q then None
  else Some {| maxsize := maxsize q; items := items q ++ [m] |}.

(** What the module asks of an [rtc.Room], in call order. *)
Inductive RoomCall :=
  | CallConnect
  | CallDisconnect
  | SpawnDisconnect.

#[export] Instance RoomCall_eq_dec : EqDecision RoomCall.
Proof. solve_decision. Defined.

(** An [rtc.Room] as the module sees it: the two attributes it reads, the
    handlers it has registered with [room.on], and the calls it has made. *)
Record Room := {
  connection_state : ConnectionState;
  remote_participants : gmap string RemoteParticipant;
  on_track_subscribed : bool;
  on_participant_disconnected : bool;
  calls : list RoomCall;
}.

(** [rtc.Room()]. *)
Definition Room_new : Room := {|
  connection_state := CONN_DISCONNECTED;
  remote_participants := ∅;
  on_track_subscribed := false;
  on_participant_disconnected := false;
  calls := [];
|}.

(** Where a [room_task] coroutine is suspended. *)
Inductive RoomPc :=
  | Scheduled
  | AwaitConnect
  | KeepAlive
  | AwaitDisconnect (pending : option exn)
  | Finished (raised : option exn).

Record RoomTask := {
  rt_room_id : string;
  rt_pc : RoomPc;
  rt_room : Room;
}.

(** Where a [handle_audio_track] coroutine is suspended. *)
Inductive TrackPc :=
  | Draining
  | AwaitPut
  | TrackDone (raised : option exn).

Record TrackTask := {
  tt_room_id : string;
  tt_participant : RemoteParticipant;
  tt_track : Track;
  tt_pc : TrackPc;
}.

(** Where an [event_generator] is suspended; [q] is its local queue. *)
Inductive GenPc :=
  | GenCreated
  | GenAwaitDisconnected (q : nat)
  | GenAwaitItem (q : nat)
  | GenYielded (q : nat)
  | GenClosed (raised : option exn).

Record Generator := {
  g_roomId : string;
  g_pc : GenPc;
}.

(** The two module-level dictionaries and the objects they refer to.  A
    queue or a task is a reference ([nat]) into its store, so that the
    generator and the dictionary share one queue. *)
Record State := {
  transcript_queues : gmap string (list nat);
  running_agents : gmap string nat;
  queue_objs : gmap nat Queue;
  room_tasks : gmap nat RoomTask;
  track_tasks : gmap nat TrackTask;
  streams : gmap nat Generator;
}.

Definition init : State := {|
  transcript_queues := ∅; running_agents := ∅; queue_objs := ∅;
  room_tasks := ∅; track_tasks := ∅; streams := ∅;
|}.

Definition set_transcript_queues (f : gmap string (list nat) -> gmap string (list nat))
    (st : State) : State :=
  {| transcript_queues := f (transcript_queues st);
     running_agents := running_agents st; queue_objs := queue_objs st;
     room_tasks := room_tasks st; track_tasks := track_tasks st;
     streams := streams st |}.

Definition set_running_agents (f : gmap string nat -> gmap string nat)
    (st : State) : State :=
  {| transcript_queues := transcript_queues st;
     running_agents := f (running_agents st); queue_objs := queue_objs st;
     room_tasks := room_tasks st; track_tasks := track_tasks st;
     streams := streams st |}.

Definition set_queue_objs (f : gmap nat Queue -> gmap nat Queue)
    (st : State) : State :=
  {| transcript_queues := transcript_queues st;
     running_agents := running_agents st; queue_objs := f (queue_objs st);
     room_tasks := room_tasks st; track_tasks := track_tasks st;
     streams := streams st |}.

Definition set_room_tasks (f : gmap nat RoomTask -> gmap nat RoomTask)
    (st : State) : State :=
  {| transcript_queues := transcript_queues st;
     running_agents := running_agents st; queue_objs := queue_objs st;
     room_tasks := f (room_tasks st); track_tasks := track_tasks st;
     streams := streams st |}.

Definition set_track_tasks (f : gmap nat TrackTask -> gmap nat TrackTask)
    (st : State) : State :=
  {| transcript_queues := transcript_queues st;
     running_agents := running_agents st; queue_objs := queue_objs st;
     room_tasks := room_tasks st; track_tasks := f (track_tasks st);
     streams := streams st |}.

Definition set_streams (f : gmap nat Generator -> gmap nat Generator)
    (st : State) : State :=
  {| transcript_queues := transcript_queues st;
     running_agents := running_agents st; queue_objs := queue_objs st;
     room_tasks := room_tasks st; track_tasks := track_tasks st;
     streams := f (streams st) |}.

(** ** The transcript bus *)

(** The loop [for q in transcript_queues[room_id]: await q.put(message)]
    over the queue store.  It stops at the first full queue, where the
    coroutine would wait: the second component names that queue.  A
    reference without an object does not occur (see [bus_inv]); the loop
    passes it. *)
Fixpoint put_all (message : msg) (l : list nat) (objs : gmap nat Queue)
    : gmap nat Queue * option nat :=
  match l with
  | [] => (objs, None)
  | q :: l' =>
      match objs !! q with
      | Some Q =>
          match put message Q with
          | Some Q' => put_all message l' (<[q := Q']> objs)
          | None => (objs, Some q)
          end
      | None => put_all message l' objs
      end
  end.

(** Lines 258-260 of [handle_audio_track], which are also the body of
    [TranscriberAgent.broadcast_transcript] (lines 132-134). *)
Definition broadcast_transcript (room_id : string) (message : msg) (st : State)
    : State * option nat :=
  match transcript_queues st !! room_id with
  | Some l =>
      let '(objs, waiting) := put_all message l (queue_objs st) in
      (set_queue_objs (fun _ => objs) st, waiting)
  | None => (st, None)
  end.

(** Lines 277-280 of [event_generator]: a new queue, appended to the list
    of its room, which is created when the room has none. *)
Definition event_generator_subscribe (roomId : string) (st : State) : State * nat :=
  let q := fresh (dom (queue_objs st)) in
  let st := set_queue_objs <[q := Queue_new]> st in
  let st :=
    if decide (is_Some (transcript_queues st !! roomId)) then st
    else set_transcript_queues <[roomId := []]> st in
  (set_transcript_queues (alter (fun l => l ++ [q]) roomId) st, q).

(** [l.remove(q)]: drops the first occurrence, [ValueError] without one. *)
Fixpoint list_remove (q : nat) (l : list nat) : result (list nat) :=
  match l with
  | [] => Raise ValueError
  | x :: l' =>
      if decide (x = q) then Return l'
      else (fun r => x :: r) <$> list_remove q l'
  end.

(** Lines 295-298, the [finally] block of [event_generator]. *)
Definition event_generator_finally (roomId : string) (q : nat) (st : State)
    : result State :=
  match transcript_queues st !! roomId with
  | Some l =>
      l' ← list_remove q l;
      Return (match l' with
              | [] => set_transcript_queues (delete roomId) st
              | _ => set_transcript_queues <[roomId := l']> st
              end)
  | None => Return st
  end.

(** ** Transcribing one track

    [handle_audio_track] starts [feed_audio], which only pushes the frames
    of the track into the speech-to-text stream, and then loops over the
    events the stream yields.  The events are inputs here. *)

(** What one turn of [async for event in stream] does. *)
Inductive DrainStep :=
  | Skip
  | Published (message : msg) (st : State) (waiting : option nat)
  | Failed (e : exn).

(** How the drain loop of a track leaves a list of events. *)
Inductive DrainEnd :=
  | StreamEnded
  | DrainRaised (e : exn)
  | DrainWaiting (q : nat).

Section with_json.
Context `{!Json}.

(** Lines 230-260, the body of the loop of [handle_audio_track]; [now] is
    what [datetime.datetime.now()] returns in this turn. *)
Definition handle_audio_track_body (participant : RemoteParticipant)
    (room_id : string) (now : datetime) (event : SpeechEvent) (st : State)
    : DrainStep :=
  if decide (type event = FINAL_TRANSCRIPT) then
    match alternatives event with
    | [] => Failed IndexError
    | alt :: _ =>
        if str_truthy (text alt) then
          let message := {|
            roomId := room_id;
            timestamp := PStr (isoformat now);
            participantIdentity := identity participant;
            participantName := resolve_name participant;
            msg_text := text alt |} in
          let '(st', waiting) := broadcast_transcript room_id message st in
          Published message st' waiting
        else Skip
    end
  else Skip.

(** Lines 229-260: the loop over the events the stream yields, each with
    what its turn reads from the clock and from the participant object.
    The result lists the messages handed to the broadcast, in order. *)
Fixpoint handle_audio_track_drain (participant : RemoteParticipant)
    (room_id : string) (turns : list Turn) (st : State)
    : State * list msg * DrainEnd :=
  match turns with
  | [] => (st, [], StreamEnded)
  | turn :: rest =>
      match handle_audio_track_body (seen participant turn) room_id
              (turn_now turn) (turn_event turn) st with
      | Skip => handle_audio_track_drain participant room_id rest st
      | Published message st' None =>
          let '(st'', sent, e) :=
            handle_audio_track_drain participant room_id rest st' in
          (st'', message :: sent, e)
      | Published message st' (Some q) => (st', [message], DrainWaiting q)
      | Failed e => (st, [], DrainRaised e)
      end
  end.

End with_json.

Module TranscriberAgent.
Section with_json.
Context `{!Json}.

(** Lines 103-129, the body of the loop of
    [TranscriberAgent.transcribe_track]; [loop_time] is what
    [asyncio.get_event_loop().time()] returns in this turn. *)
Definition transcribe_track_body (self_room_id : string)
    (participant : RemoteParticipant) (loop_time : pyfloat)
    (event : SpeechEvent) (st : State) : DrainStep :=
  if decide (type event = FINAL_TRANSCRIPT) then
    match alternatives event with
    | [] => Failed IndexError
    | alt :: _ =>
        if negb (str_truthy (text alt)) then Skip
        else
          let message := {|
            roomId := self_room_id;
            timestamp := PFloat loop_time;
            participantIdentity := identity participant;
            participantName := resolve_name participant;
            msg_text := text alt |} in
          let '(st', waiting) := broadcast_transcript self_room_id message st in
          Published message st' waiting
    end
  else Skip.

End with_json.
End TranscriberAgent.

(** ** Room agents *)

(** What resumes a suspended [room_task]: the event loop runs it for the
    first time, [room.connect] returns (with the participants the room then
    holds, and with the exception [get_stt_plugin] raises when it does),
    [asyncio.sleep(1)] returns, the [room.disconnect()] of line 209
    returns, or an exception is thrown into the coroutine: the awaited call
    raises, or the task is cancelled, which can also happen before its
    first run. *)
Inductive RoomInput :=
  | Run
  | ConnectReturned (participants : gmap string RemoteParticipant)
      (stt_raises : option exn)
  | SleepReturned
  | Thrown (e : exn)
  | DisconnectReturned.

(** What the LiveKit SDK reports about a room while its task sleeps. *)
Inductive RoomEvent :=
  | ParticipantConnected (participant : RemoteParticipant)
  | TrackSubscribed (track : Track) (participant : RemoteParticipant)
  | ParticipantDisconnected (identity : string)
  | ConnectionStateChanged (s : ConnectionState).

Definition set_rt_pc (pc : RoomPc) (T : RoomTask) : RoomTask :=
  {| rt_room_id := rt_room_id T; rt_pc := pc; rt_room := rt_room T |}.

Definition set_rt_room (f : Room -> Room) (T : RoomTask) : RoomTask :=
  {| rt_room_id := rt_room_id T; rt_pc := rt_pc T; rt_room := f (rt_room T) |}.

Definition add_call (c : RoomCall) (r : Room) : Room :=
  {| connection_state := connection_state r;
     remote_participants := remote_participants r;
     on_track_subscribed := on_track_subscribed r;
     on_participant_disconnected := on_participant_disconnected r;
     calls := calls r ++ [c] |}.

Definition set_connection_state (s : ConnectionState) (r : Room) : Room :=
  {| connection_state := s;
     remote_participants := remote_participants r;
     on_track_subscribed := on_track_subscribed r;
     on_participant_disconnected := on_participant_disconnected r;
     calls := calls r |}.

Definition set_remote_participants
    (f : gmap string RemoteParticipant -> gmap string RemoteParticipant)
    (r : Room) : Room :=
  {| connection_state := connection_state r;
     remote_participants := f (remote_participants r);
     on_track_subscribed := on_track_subscribed r;
     on_participant_disconnected := on_participant_disconnected r;
     calls := calls r |}.

(** The two [@room.on(...)] registrations of lines 185 and 196. *)
Definition register_handlers (r : Room) : Room :=
  {| connection_state := connection_state r;
     remote_participants := remote_participants r;
     on_track_subscribed := true;
     on_participant_disconnected := true;
     calls := calls r |}.

(** [asyncio.create_task(handle_audio_track(track, participant, stt,
    room_id))]. *)
Definition spawn_track (room_id : string) (tp : Track * RemoteParticipant)
    (st : State) : State :=
  let k := fresh (dom (track_tasks st)) in
  set_track_tasks <[k := {| tt_room_id := room_id; tt_participant := tp.2;
                            tt_track := tp.1; tt_pc := Draining |}]> st.

(** The audio tracks lines 191-193 find: every publication of every
    participant that has a track of kind audio. *)
Definition existing_audio_tracks (ps : gmap string RemoteParticipant)
    : list (Track * RemoteParticipant) :=
  p ← (map_to_list ps).*2;
  pub ← track_publications p;
  match track pub with
  | Some tr => if decide (kind tr = KIND_AUDIO) then [(tr, p)] else []
  | None => []
  end.

(** Lines 208-209: control reaches [finally] and calls
    [room.disconnect()]; [pending] is the exception no handler caught. *)
Definition enter_finally (pending : option exn) (T : RoomTask) : RoomTask :=
  set_rt_pc (AwaitDisconnect pending) (set_rt_room (add_call CallDisconnect) T).

(** Lines 206-207: [except Exception] logs and falls through to [finally];
    any other exception goes through [finally] and on to the caller. *)
Definition room_task_raise (e : exn) (T : RoomTask) : RoomTask :=
  enter_finally (if is_Exception e then None else Some e) T.

(** Lines 203-204: the test of the [while], then one more sleep or the way
    out through [finally]. *)
Definition keep_alive (T : RoomTask) : RoomTask :=
  if decide (connection_state (rt_room T) = CONN_CONNECTED)
  then set_rt_pc KeepAlive T
  else enter_finally None T.

(** Lines 210-211, run when [room.disconnect()] has returned. *)
Definition room_task_cleanup (room_id : string) (st : State) : State :=
  if decide (is_Some (running_agents st !! room_id))
  then set_running_agents (delete room_id) st
  else st.

(** [room_task] (lines 177-211) from one suspension point to the next. *)
Definition room_task_step (t : nat) (i : RoomInput) (st : State) : State :=
  match room_tasks st !! t with
  | None => st
  | Some T =>
      let room_id := rt_room_id T in
      match rt_pc T, i with
      | Scheduled, Run =>
          set_room_tasks
            <[t := set_rt_pc AwaitConnect (set_rt_room (add_call CallConnect) T)]> st
      | AwaitConnect, ConnectReturned ps stt_raises =>
          let T := set_rt_room (fun r => set_connection_state CONN_CONNECTED
                     (set_remote_participants (fun _ => ps) r)) T in
          match stt_raises with
          | Some e => set_room_tasks <[t := room_task_raise e T]> st
          | None =>
              let T := set_rt_room register_handlers T in
              let st := foldl (fun st tp => spawn_track room_id tp st) st
                          (existing_audio_tracks ps) in
              set_room_tasks <[t := keep_alive T]> st
          end
      | AwaitConnect, Thrown e
      | KeepAlive, Thrown e =>
          set_room_tasks <[t := room_task_raise e T]> st
      | KeepAlive, SleepReturned =>
          set_room_tasks <[t := keep_alive T]> st
      | AwaitDisconnect pending, DisconnectReturned =>
          let T := set_rt_room (set_connection_state CONN_DISCONNECTED) T in
          room_task_cleanup room_id
            (set_room_tasks <[t := set_rt_pc (Finished pending) T]> st)
      | AwaitDisconnect _, Thrown e =>
          (* the await of line 209 raises inside [finally]: lines 210-211
             are not reached *)
          set_room_tasks <[t := set_rt_pc (Finished (Some e)) T]> st
      | Scheduled, Thrown e =>
          (* thrown into a coroutine that has not started: its body,
             [try] and [finally] included, never runs *)
          set_room_tasks <[t := set_rt_pc (Finished (Some e)) T]> st
      | _, _ => st
      end
  end.

(** The SDK updates the room, then calls the handlers registered for the
    event: [on_track_subscribed] (lines 186-188) and
    [on_participant_disconnected] (lines 197-200). *)
Definition room_event_step (t : nat) (ev : RoomEvent) (st : State) : State :=
  match room_tasks st !! t with
  | None => st
  | Some T =>
      match ev with
      | ParticipantConnected p =>
          set_room_tasks
            <[t := set_rt_room (set_remote_participants <[identity p := p]>) T]> st
      | TrackSubscribed tr p =>
          if on_track_subscribed (rt_room T) then
            if decide (kind tr = KIND_AUDIO)
            then spawn_track (rt_room_id T) (tr, p) st
            else st
          else st
      | ParticipantDisconnected idn =>
          let T := set_rt_room (set_remote_participants (delete idn)) T in
          let T :=
            if on_participant_disconnected (rt_room T) then
              if decide (size (remote_participants (rt_room T)) = 0)
              then set_rt_room (add_call SpawnDisconnect) T
              else T
            else T in
          set_room_tasks <[t := T]> st
      | ConnectionStateChanged s =>
          set_room_tasks <[t := set_rt_room (set_connection_state s) T]> st
      end
  end.

(** ** The agent registry *)

(** What FastAPI sends back for a call of [attach_transcriber]. *)
Inductive Response :=
  | JSONResponse (status : string)
  | HTTPException (status_code : Z) (detail : string)
  | ServerError (e : exn).

(** [run_agent_for_room] (lines 159-215): a room, a token, the task, and
    its entry in [running_agents].  The task does not run before the
    caller next suspends.  The API key and secret are taken to be
    configured, so that the token is issued. *)
Definition run_agent_for_room (room_id : string) (st : State) : State * nat :=
  let task := fresh (dom (room_tasks st)) in
  let st := set_room_tasks
              <[task := {| rt_room_id := room_id; rt_pc := Scheduled;
                           rt_room := Room_new |}]> st in
  (set_running_agents <[room_id := task]> st, task).

(** [attach_transcriber] (lines 263-272).  A [roomId] that is not a string
    raises [TypeError]: in the membership test when it cannot be hashed,
    otherwise in the concatenation of line 171. *)
Definition attach_transcriber (body : gmap string pyval) (st : State)
    : State * Response :=
  let room_id := default PNone (body !! "roomId") in
  if negb (truthy room_id) then (st, HTTPException 400 "roomId required")
  else
    match room_id with
    | PStr r =>
        if decide (is_Some (running_agents st !! r))
        then (st, JSONResponse "already_running")
        else ((run_agent_for_room r st).1, JSONResponse "started")
    | PList _ | PDict _ => (st, ServerError TypeError)
    | _ => (st, ServerError TypeError)
    end.

(** ** The subscription endpoint *)

(** What happens to an [event_generator]: the consumer asks for the next
    chunk ([__anext__]), [request.is_disconnected()] answers, the event
    loop looks at the wait on the queue [waited] seconds after it began,
    the consumer closes the generator ([aclose]), or an exception is thrown
    into the generator at the [await] where it is suspended (the awaited
    call raises, or the task that drives the response is cancelled). *)
Inductive GenInput :=
  | Next
  | IsDisconnected (b : bool)
  | WaitOver (waited : Q)
  | Close
  | GenThrown (e : exn).

(** What the consumer gets back: the generator is suspended at an
    [await], it yields a chunk, [__anext__] raises [StopAsyncIteration],
    [aclose] returns, or an exception comes out. *)
Inductive GenOutput :=
  | Suspended
  | Yield (chunk : string)
  | StopAsyncIteration
  | Closed
  | GenRaised (e : exn).

Definition newline : string := String "010"%char "".

(** The [timeout] of line 289, in seconds. *)
Definition keepalive_timeout : Q := 15.

(** Line 293. *)
Definition keepalive_chunk : string := ": keepalive" +:+ newline +:+ newline.

Definition set_g_pc (pc : GenPc) (G : Generator) : Generator :=
  {| g_roomId := g_roomId G; g_pc := pc |}.

Section with_json.
Context `{!Json}.

(** Line 290. *)
Definition data_chunk (data : msg) : string :=
  "data: " +:+ json_dumps data +:+ newline +:+ newline.

(** The generator leaves its [try], with the exception [pending] when
    one is on its way out: the [finally] block runs and the generator is
    closed.  An exception of the block itself replaces the pending one. *)
Definition gen_leave (g : nat) (G : Generator) (q : nat)
    (pending : option exn) (out : GenOutput) (st : State)
    : State * GenOutput :=
  match event_generator_finally (g_roomId G) q st with
  | Return st =>
      (set_streams <[g := set_g_pc (GenClosed pending) G]> st, out)
  | Raise e =>
      (set_streams <[g := set_g_pc (GenClosed (Some e)) G]> st, GenRaised e)
  end.

(** [event_generator] (lines 276-298) from one suspension point to the
    next.

    [asyncio.wait_for(q.get(), timeout=15.0)] gives the oldest item of the
    queue as soon as there is one; with the queue still empty it raises
    [TimeoutError], caught at line 291, once [keepalive_timeout] seconds
    have passed, and keeps waiting before that.

    The break of line 285 and an exception thrown in at an [await] leave
    through the [finally] block.  So does [aclose] at a [yield].  A
    generator closed before its first [__anext__] has not entered its
    body.  While the generator is suspended at an [await] it is running:
    [__anext__] and [aclose] are refused with [RuntimeError] and nothing
    changes.  On a generator that is over, [__anext__] raises
    [StopAsyncIteration] and [aclose] returns. *)
Definition gen_step (g : nat) (i : GenInput) (st : State) : State * GenOutput :=
  match streams st !! g with
  | None => (st, Suspended)
  | Some G =>
      match g_pc G, i with
      | GenCreated, Next =>
          let '(st, q) := event_generator_subscribe (g_roomId G) st in
          (set_streams <[g := set_g_pc (GenAwaitDisconnected q) G]> st, Suspended)
      | GenCreated, Close =>
          (set_streams <[g := set_g_pc (GenClosed None) G]> st, Closed)
      | GenAwaitDisconnected q, IsDisconnected true =>
          gen_leave g G q None StopAsyncIteration st
      | GenAwaitDisconnected q, IsDisconnected false =>
          (set_streams <[g := set_g_pc (GenAwaitItem q) G]> st, Suspended)
      | GenAwaitItem q, WaitOver waited =>
          match items <$> queue_objs st !! q with
          | Some (data :: rest) =>
              (set_streams <[g := set_g_pc (GenYielded q) G]>
                 (set_queue_objs
                    (alter (fun Q => {| maxsize := maxsize Q; items := rest |}) q) st),
               Yield (data_chunk data))
          | _ =>
              if Qle_bool keepalive_timeout waited
              then (set_streams <[g := set_g_pc (GenYielded q) G]> st,
                    Yield keepalive_chunk)
              else (st, Suspended)
          end
      | GenYielded q, Next =>
          (set_streams <[g := set_g_pc (GenAwaitDisconnected q) G]> st, Suspended)
      | GenYielded q, Close =>
          gen_leave g G q None Closed st
      | GenAwaitDisconnected q, GenThrown e
      | GenAwaitItem q, GenThrown e =>
          gen_leave g G q (Some e) (GenRaised e) st
      | GenAwaitDisconnected _, Next
      | GenAwaitItem _, Next
      | GenAwaitDisconnected _, Close
      | GenAwaitItem _, Close => (st, GenRaised RuntimeError)
      | GenClosed _, Next => (st, StopAsyncIteration)
      | GenClosed _, Close => (st, Closed)
      | _, _ => (st, Suspended)
      end
  end.

(** [transcript_stream] (lines 275-300): the generator object handed to
    [StreamingResponse]; its body has not started. *)
Definition transcript_stream (roomId : string) (st : State) : State * nat :=
  let g := fresh (dom (streams st)) in
  (set_streams <[g := {| g_roomId := roomId; g_pc := GenCreated |}]> st, g).

(** ** The process *)

(** Everything that can make the process move. *)
Inductive Input :=
  | PostAttachTranscriber (body : gmap string pyval)
  | GetTranscriptStream (roomId : string)
  | RoomTaskIn (t : nat) (i : RoomInput)
  | RoomEventIn (t : nat) (ev : RoomEvent)
  | SttEventIn (k : nat) (turn : Turn)
  | SttEndIn (k : nat) (raised : option exn)
  | GenIn (g : nat) (i : GenInput).

Inductive Output :=
  | OutNone
  | OutResponse (r : Response)
  | OutStream (g : nat)
  | OutGen (g : nat) (o : GenOutput)
  | OutPublished (message : msg).

Definition set_tt_pc (pc : TrackPc) (K : TrackTask) : TrackTask :=
  {| tt_room_id := tt_room_id K; tt_participant := tt_participant K;
     tt_track := tt_track K; tt_pc := pc |}.

(** One turn of the drain loop of the track task [k]. *)
Definition track_task_step (k : nat) (turn : Turn) (st : State)
    : State * Output :=
  match track_tasks st !! k with
  | Some K =>
      match tt_pc K with
      | Draining =>
          match handle_audio_track_body (seen (tt_participant K) turn)
                  (tt_room_id K) (turn_now turn) (turn_event turn) st with
          | Skip => (st, OutNone)
          | Published message st None => (st, OutPublished message)
          | Published message st (Some _) =>
              (set_track_tasks <[k := set_tt_pc AwaitPut K]> st,
               OutPublished message)
          | Failed e =>
              (set_track_tasks <[k := set_tt_pc (TrackDone (Some e)) K]> st,
               OutNone)
          end
      | _ => (st, OutNone)
      end
  | None => (st, OutNone)
  end.

(** The stream of the track task [k] ends, or raises. *)
Definition track_task_end (k : nat) (raised : option exn) (st : State) : State :=
  match track_tasks st !! k with
  | Some K =>
      match tt_pc K with
      | Draining => set_track_tasks <[k := set_tt_pc (TrackDone raised) K]> st
      | _ => st
      end
  | None => st
  end.

Definition step (i : Input) (st : State) : State * Output :=
  match i with
  | PostAttachTranscriber body =>
      let '(st, r) := attach_transcriber body st in (st, OutResponse r)
  | GetTranscriptStream roomId =>
      let '(st, g) := transcript_stream roomId st in (st, OutStream g)
  | RoomTaskIn t i => (room_task_step t i st, OutNone)
  | RoomEventIn t ev => (room_event_step t ev st, OutNone)
  | SttEventIn k turn => track_task_step k turn st
  | SttEndIn k raised => (track_task_end k raised st, OutNone)
  | GenIn g i => let '(st, o) := gen_step g i st in (st, OutGen g o)
  end.

(** The process after a list of inputs, with what it put out. *)
Fixpoint run (inputs : list Input) (st : State) : State * list Output :=
  match inputs with
  | [] => (st, [])
  | i :: rest =>
      let '(st, o) := step i st in
      let '(st, os) := run rest st in
      (st, o :: os)
  end.

(** The states the process can be in. *)
Definition reachable (st : State) : Prop :=
  exists inputs, (run inputs init).1 = st.

End with_json.

(** ** Properties: definitions *)

(** The queue an [event_generator] holds once its body has started. *)
Definition gen_queue (pc : GenPc) : option nat :=
  match pc with
  | GenAwaitDisconnected q | GenAwaitItem q | GenYielded q => Some q
  | GenCreated | GenClosed _ => None
  end.

(** A room task is live until its coroutine has returned. *)
Definition live (T : RoomTask) : bool :=
  match rt_pc T with
  | Finished _ => false
  | _ => true
  end.

(** The ways a generator whose body runs leaves it: the client is found
    disconnected (line 285), the consumer closes the generator at a
    [yield], or an exception is thrown in at an [await]. *)
Definition leaves (pc : GenPc) (i : GenInput) : bool :=
  match pc, i with
  | GenAwaitDisconnected _, IsDisconnected true
  | GenYielded _, Close
  | GenAwaitDisconnected _, GenThrown _
  | GenAwaitItem _, GenThrown _ => true
  | _, _ => false
  end.

(** The exception the generator leaves with, and what the consumer gets. *)
Definition thrown (i : GenInput) : option exn :=
  match i with
  | GenThrown e => Some e
  | _ => None
  end.

Definition left_with (i : GenInput) : GenOutput :=
  match i with
  | GenThrown e => GenRaised e
  | Close => Closed
  | _ => StopAsyncIteration
  end.

(** The bus: every queue is unbounded, a room's list is never empty and
    names no queue twice, and the queues listed are exactly the queues of
    the generators whose body is running, one queue per generator. *)
Record bus_ok (tq : gmap string (list nat)) (objs : gmap nat Queue)
    (gens : gmap nat Generator) : Prop := {
  bus_unbounded : forall q Q, objs !! q = Some Q -> maxsize Q = 0%Z;
  bus_lists : forall r l, tq !! r = Some l -> l ≠ [] /\ NoDup l;
  bus_owner : forall r l q, tq !! r = Some l -> q ∈ l ->
    exists g G, gens !! g = Some G /\ g_roomId G = r /\
                gen_queue (g_pc G) = Some q;
  bus_listed : forall g G q, gens !! g = Some G ->
    gen_queue (g_pc G) = Some q ->
    is_Some (objs !! q) /\
    exists l, tq !! g_roomId G = Some l /\ q ∈ l;
  bus_own_queue : forall g1 g2 G1 G2 q,
    gens !! g1 = Some G1 -> gens !! g2 = Some G2 ->
    gen_queue (g_pc G1) = Some q -> gen_queue (g_pc G2) = Some q -> g1 = g2;
}.

Definition bus_inv (st : State) : Prop :=
  bus_ok (transcript_queues st) (queue_objs st) (streams st).

(** What the calls made on the room of a task say about where the task
    is: while it runs, [room.disconnect()] has been called exactly when
    control has reached [finally], and before the connection is up the
    room has no handler and has only been asked to connect. *)
Definition task_ok (T : RoomTask) : Prop :=
  match rt_pc T with
  | Scheduled | AwaitConnect =>
      on_participant_disconnected (rt_room T) = false /\
      forall c, c ∈ calls (rt_room T) -> c = CallConnect
  | KeepAlive => CallDisconnect ∉ calls (rt_room T)
  | AwaitDisconnect _ => CallDisconnect ∈ calls (rt_room T)
  | Finished _ => True
  end.

(** The registry: every live room task is registered under its room,
    every entry names a task of its room, live or not, and every task is
    where its calls say. *)
Record registry_ok (agents : gmap string nat) (tasks : gmap nat RoomTask)
    : Prop := {
  reg_live : forall t T, tasks !! t = Some T -> live T = true ->
    agents !! rt_room_id T = Some t;
  reg_entry : forall r t, agents !! r = Some t ->
    exists T, tasks !! t = Some T /\ rt_room_id T = r;
  reg_task : forall t T, tasks !! t = Some T -> task_ok T;
}.

Definition registry_inv (st : State) : Prop :=
  registry_ok (running_agents st) (room_tasks st).

(** The entry of the room [r] names the task [t], which is over. *)
Definition stale (r : string) (t : nat) (st : State) : Prop :=
  running_agents st !! r = Some t /\
  exists T, room_tasks st !! t = Some T /\ rt_room_id T = r /\ live T = false.

(** How many times a room was asked to disconnect because it was empty
    (line 200). *)
Definition drains (T : RoomTask) : nat :=
  length (filter (fun c => c = SpawnDisconnect) (calls (rt_room T))).

(** An input that tells the task [t] neither that a participant left, nor
    that its connection is no longer up, nor that an awaited call failed. *)
Definition quiet (t : nat) (i : Input) : Prop :=
  match i with
  | RoomEventIn t' (ParticipantDisconnected _) => t' ≠ t
  | RoomEventIn t' (ConnectionStateChanged s) => t' ≠ t \/ s = CONN_CONNECTED
  | RoomTaskIn t' (Thrown _) => t' ≠ t
  | _ => True
  end.

(** The inputs of one full turn of the loop of the generator [g] for a
    client that stays connected; the wait on the queue is looked at after
    [waited] seconds. *)
Definition pull (g : nat) (waited : Q) : list Input :=
  [GenIn g Next; GenIn g (IsDisconnected false); GenIn g (WaitOver waited)].

(** A final transcript that has a text, which is not empty. *)
Definition nonempty_final (event : SpeechEvent) : bool :=
  bool_decide (type event = FINAL_TRANSCRIPT) &&
  match alternatives event with
  | alt :: _ => str_truthy (text alt)
  | [] => false
  end.

(** A final transcript without any alternative: it has no text. *)
Definition textless_final (event : SpeechEvent) : bool :=
  bool_decide (type event = FINAL_TRANSCRIPT) &&
  match alternatives event with
  | [] => true
  | _ => false
  end.

(** The turns the drain loop gets through: all of them up to and
    including the first final transcript without a text, if there is
    one. *)
Fixpoint consumed (turns : list Turn) : list Turn :=
  match turns with
  | [] => []
  | turn :: rest =>
      if textless_final (turn_event turn) then [turn]
      else turn :: consumed rest
  end.

Section with_json.
Context `{!Json}.

(** Identity resolution in the words of its contract: the [displayName]
    field of the metadata when the metadata is there and decodes to a
    record that has the field, else the display name when there is one,
    else the identity. *)
Definition metadata_displayName (participant : RemoteParticipant) : option pyval :=
  if decide (metadata participant = "") then None
  else match json_loads (metadata participant) with
       | Return (PDict d) => d !! "displayName"
       | _ => None
       end.

Definition resolve_spec (participant : RemoteParticipant) : pyval :=
  match metadata_displayName participant with
  | Some v => v
  | None =>
      if decide (name participant = "") then PStr (identity participant)
      else PStr (name participant)
  end.

(** The transcript message of a turn whose event has a text: the name
    is resolved from what the participant object holds in that turn. *)
Definition transcript_of (participant : RemoteParticipant) (room_id : string)
    (turn : Turn) : option msg :=
  match alternatives (turn_event turn) with
  | alt :: _ =>
      Some {| roomId := room_id;
              timestamp := PStr (isoformat (turn_now turn));
              participantIdentity := identity participant;
              participantName := resolve_spec (seen participant turn);
              msg_text := text alt |}
  | [] => None
  end.

(** The messages the drain loop publishes for a list of turns: those of
    the final transcripts with a non-empty text among the turns it gets
    through, in order. *)
Definition published_of (participant : RemoteParticipant) (room_id : string)
    (turns : list Turn) : list msg :=
  omap (fun turn => if nonempty_final (turn_event turn)
                    then transcript_of participant room_id turn else None)
       (consumed turns).

End with_json.

(** *** Predicates of the proofs *)

Definition same_bus (st st' : State) : Prop :=
  transcript_queues st' = transcript_queues st /\
  queue_objs st' = queue_objs st /\ streams st' = streams st.

Definition same_registry (st st' : State) : Prop :=
  running_agents st' = running_agents st /\ room_tasks st' = room_tasks st.

(** What a quiet stretch preserves: the task sleeps in its loop, its room
    is connected, and no empty-room drain was started. *)
Definition sleeping (t : nat) (st : State) : Prop :=
  exists T, room_tasks st !! t = Some T /\ rt_pc T = KeepAlive /\
            connection_state (rt_room T) = CONN_CONNECTED /\
            drains T = 0 /\ CallDisconnect ∉ calls (rt_room T).

(** The generator [g] serves the room and, if its body has started, its
    queue is empty. *)
Definition silent (g : nat) (room : string) (st : State) : Prop :=
  exists G, streams st !! g = Some G /\ g_roomId G = room /\
    forall q, gen_queue (g_pc G) = Some q ->
      exists Q, queue_objs st !! q = Some Q /\ items Q = [].

(** The generator [g] serves the room, is suspended at [pc], and has
    nothing in its queue. *)
Definition at_pc (g : nat) (room : string) (pc : GenPc) (st : State) : Prop :=
  exists G, streams st !! g = Some G /\ g_roomId G = room /\ g_pc G = pc /\
    forall q, gen_queue pc = Some q ->
      exists Q, queue_objs st !! q = Some Q /\ items Q = [].

(** The generator is about to take a turn of its loop. *)
Definition ready (g : nat) (room : string) (st : State) : Prop :=
  at_pc g room GenCreated st \/ exists q, at_pc g room (GenYielded q) st.

(** *** Sample data *)

Definition dquote : string := String "034"%char "".

(** The text [{"displayName":"Ann"}]. *)
Definition ann_metadata : string :=
  "{" +:+ dquote +:+ "displayName" +:+ dquote +:+ ":" +:+
  dquote +:+ "Ann" +:+ dquote +:+ "}".

(** A decoder that knows one document and rejects the rest, and an encoder
    that keeps the text of a message. *)
Definition table_json : Json := {|
  json_loads s :=
    if decide (s = ann_metadata)
    then Return (PDict {[ "displayName" := PStr "Ann" ]})
    else Raise JSONDecodeError;
  json_dumps m := msg_text m;
|}.

Definition ann : RemoteParticipant :=
  {| identity := "u1"; name := ""; metadata := ann_metadata;
     track_publications := [] |}.

Definition bob : RemoteParticipant :=
  {| identity := "u2"; name := "Bob"; metadata := "{not json";
     track_publications := [] |}.

Definition anonymous : RemoteParticipant :=
  {| identity := "u3"; name := ""; metadata := ""; track_publications := [] |}.

Definition final (s : string) : SpeechEvent :=
  {| type := FINAL_TRANSCRIPT; alternatives := [{| text := s |}] |}.

Definition interim (s : string) : SpeechEvent :=
  {| type := INTERIM_TRANSCRIPT; alternatives := [{| text := s |}] |}.

Definition noon : datetime :=
  {| year := 2024; month := 5; day := 17; hour := 12; minute := 0;
     second := 9; microsecond := 0 |}.

Definition r1_body : gmap string pyval := {[ "roomId" := PStr "r1" ]}.

Definition hello : msg :=
  {| roomId := "r1"; timestamp := PStr "2024-05-17T12:00:09";
     participantIdentity := "u1"; participantName := PStr "Ann";
     msg_text := "hello" |}.

(** A turn in which the participant object holds what [p] holds. *)
Definition heard (p : RemoteParticipant) (event : SpeechEvent)
    (now : datetime) : Turn :=
  {| turn_event := event; turn_now := now;
     turn_name := name p; turn_metadata := metadata p |}.

Definition sample_events : list Turn :=
  [heard ann (interim "hel") noon; heard ann (final "hello") noon;
   heard ann (final "") noon].

(** One viewer, then two, on the room [r1]. *)
Definition one_viewer : State :=
  (@run table_json [GetTranscriptStream "r1"; GenIn 0 Next] init).1.

Definition two_viewers : State :=
  (@run table_json [GetTranscriptStream "r1"; GenIn 0 Next;
                    GetTranscriptStream "r1"; GenIn 1 Next] init).1.

(** A room task for [r1] that is connecting, one whose connection
    failed, and one that was then cancelled at line 209. *)
Definition attached : State :=
  (@run table_json [PostAttachTranscriber r1_body; RoomTaskIn 0 Run] init).1.

Definition failed : State :=
  (@run table_json [PostAttachTranscriber r1_body; RoomTaskIn 0 Run;
                    RoomTaskIn 0 (Thrown ConnectError)] init).1.

Definition stale_entry : State :=
  (@run table_json [PostAttachTranscriber r1_body; RoomTaskIn 0 Run;
                    RoomTaskIn 0 (Thrown ConnectError);
                    RoomTaskIn 0 (Thrown CancelledError)] init).1.

Definition connecting : RoomTask :=
  {| rt_room_id := "r1"; rt_pc := AwaitConnect;
     rt_room := add_call CallConnect Room_new |}.

Definition quiet_inputs : list Input :=
  [RoomTaskIn 0 SleepReturned; RoomEventIn 0 (ParticipantConnected ann);
   GetTranscriptStream "r1"; RoomTaskIn 0 SleepReturned].

(** A participant with an audio track, a video track and a publication
    that is not subscribed yet. *)
Definition carol : RemoteParticipant :=
  {| identity := "u4"; name := "Carol"; metadata := "";
     track_publications :=
       [ {| track := Some {| sid := "TR_A"; kind := KIND_AUDIO |} |};
         {| track := Some {| sid := "TR_V"; kind := KIND_VIDEO |} |};
         {| track := None |} ] |}.

Definition goodbye : msg :=
  {| roomId := "r1"; timestamp := PStr "2024-05-17T12:00:09";
     participantIdentity := "u1"; participantName := PStr "Ann";
     msg_text := "goodbye" |}.

(** A final event that carries no alternative. *)
Definition no_text : SpeechEvent :=
  {| type := FINAL_TRANSCRIPT; alternatives := [] |}.

(** A viewer of [r1] between two turns of its loop. *)
Definition between_turns : State :=
  (@run table_json [GetTranscriptStream "r1"; GenIn 0 Next;
                    GenIn 0 (IsDisconnected false); GenIn 0 (WaitOver 15)]
     init).1.

(** The agent of [r1] in its keep-alive loop, with [ann] in the room. *)
Definition in_room : State :=
  (@run table_json [PostAttachTranscriber r1_body; RoomTaskIn 0 Run;
                    RoomTaskIn 0 (ConnectReturned {[ "u1" := ann ]} None)]
     init).1.

(** A track of [ann] is transcribed while a viewer waits: [hello] is in
    the viewer's queue. *)
Definition published : State :=
  (@run table_json
     [PostAttachTranscriber r1_body; RoomTaskIn 0 Run;
      RoomTaskIn 0 (ConnectReturned ∅ None);
      RoomEventIn 0 (ParticipantConnected ann);
      RoomEventIn 0 (TrackSubscribed {| sid := "TR_1"; kind := KIND_AUDIO |} ann);
      GetTranscriptStream "r1"; GenIn 0 Next; GenIn 0 (IsDisconnected false);
      SttEventIn 0 (heard ann (final "hello") noon)] init).1.

(** *** Predicates of the further properties *)

(** The generator [g] serves the room, is suspended at [pc], and its
    queue [q] holds the messages [ms], oldest first. *)
Definition at_pc_items (g : nat) (room : string) (pc : GenPc) (q : nat)
    (ms : list msg) (st : State) : Prop :=
  exists G Q, streams st !! g = Some G /\ g_roomId G = room /\ g_pc G = pc /\
    gen_queue pc = Some q /\ queue_objs st !! q = Some Q /\ items Q = ms.

(** Every message waiting for a viewer is a message of the viewer's room
    and has a text. *)
Definition mail_inv (st : State) : Prop :=
  forall g G q Q m,
    streams st !! g = Some G -> gen_queue (g_pc G) = Some q ->
    queue_objs st !! q = Some Q -> m ∈ items Q ->
    roomId m = g_roomId G /\ msg_text m ≠ "".

(** The messages [ms] broadcast to a room one after the other. *)
Definition broadcast_all (room_id : string) (ms : list msg) (st : State) : State :=
  foldl (fun st message => (broadcast_transcript room_id message st).1) st ms.

(** What a viewer gets for the messages [ms], one turn of the loop each. *)
Definition turns_of (g : nat) (chunks : list string) : list Output :=
  chunk ← chunks;
  [OutGen g Suspended; OutGen g Suspended; OutGen g (Yield chunk)].

(** The calls made on the room of the task [t], if there is such a task. *)
Definition calls_of (t : nat) (st : State) : option (list RoomCall) :=
  calls ∘ rt_room <$> room_tasks st !! t.

(** Every transcription task works on an audio track, for a room whose
    task has registered its handlers. *)
Definition tracks_inv (st : State) : Prop :=
  forall k K, track_tasks st !! k = Some K ->
    kind (tt_track K) = KIND_AUDIO /\
    exists t T, room_tasks st !! t = Some T /\
                rt_room_id T = tt_room_id K /\
                on_track_subscribed (rt_room T) = true.

(** ** Properties: proofs *)

Section with_json.
Context `{!Json}.

(** *** Identity resolution *)

Lemma str_truthy_spec s : str_truthy s = true <-> s ≠ "".
Proof. destruct s; simpl; split; congruence. Qed.

Lemma str_truthy_false s : str_truthy s = false <-> s = "".
Proof. destruct s; simpl; split; congruence. Qed.

Lemma resolve_name_resolve_spec (participant : RemoteParticipant) :
  resolve_name participant = resolve_spec participant.
Proof.
  unfold resolve_name, resolve_spec, metadata_displayName.
  destruct (str_truthy (metadata participant)) eqn:Hmd.
  - apply str_truthy_spec in Hmd.
    destruct (decide (metadata participant = "")) as [|_]; [done|].
    assert (Hname : PStr (if str_truthy (name participant)
                          then name participant else identity participant)
                    = if decide (name participant = "")
                      then PStr (identity participant)
                      else PStr (name participant)).
    { destruct (name participant); reflexivity. }
    destruct (json_loads (metadata participant)) as [md|e]; simpl; [|done].
    destruct md as [| | | | s | l | d]; simpl; try done.
    + destruct (str_contains _ _); done.
    + destruct (existsb _ _); done.
    + destruct (d !! "displayName") as [v|] eqn:Hd.
      * rewrite bool_decide_eq_true_2 by eauto.
        reflexivity.
      * rewrite bool_decide_eq_false_2 by (intros [? ?]; congruence). done.
  - apply str_truthy_false in Hmd.
    destruct (decide (metadata participant = "")) as [_|]; [|done].
    destruct (name participant); reflexivity.
Qed.

(** C4.  The resolved display name is the [displayName] field of the
    metadata when the metadata is present and decodes to a record with
    that field, else the display-name hint when there is one, else the
    identity; metadata that does not decode counts as absent.  Resolution
    is a total function of the participant: it raises nothing and touches
    no state. *)
Theorem resolve_name_priority (participant : RemoteParticipant) :
  resolve_name participant = resolve_spec participant /\
  (forall e, json_loads (metadata participant) = Raise e ->
     resolve_name participant =
       PStr (if decide (name participant = "") then identity participant
             else name participant)).
Proof.
  split; [apply resolve_name_resolve_spec|].
  intros e He. rewrite resolve_name_resolve_spec.
  unfold resolve_spec, metadata_displayName. rewrite He.
  repeat case_decide; done.
Qed.

End with_json.

Example resolve_ann : @resolve_name table_json ann = PStr "Ann".
Proof. reflexivity. Qed.

Example resolve_bob : @resolve_name table_json bob = PStr "Bob".
Proof. reflexivity. Qed.

Example resolve_anonymous : @resolve_name table_json anonymous = PStr "u3".
Proof. reflexivity. Qed.

(** *** The wall clock *)

(** The layout of [isoformat]: date and time on fixed columns around a
    [T], six more digits after a dot when there are microseconds. *)
Lemma isoformat_layout (d : datetime) :
  String.get 4 (isoformat d) = Some "-"%char /\
  String.get 7 (isoformat d) = Some "-"%char /\
  String.get 10 (isoformat d) = Some "T"%char /\
  String.get 13 (isoformat d) = Some ":"%char /\
  String.get 16 (isoformat d) = Some ":"%char /\
  String.length (isoformat d) = (if microsecond d is O then 19 else 26) /\
  (microsecond d ≠ 0 -> String.get 19 (isoformat d) = Some "."%char).
Proof.
  unfold isoformat. destruct (microsecond d); split_and!; try reflexivity; done.
Qed.

Example isoformat_noon : isoformat noon = "2024-05-17T12:00:09".
Proof. reflexivity. Qed.

Example isoformat_microseconds :
  isoformat {| year := 2024; month := 12; day := 1; hour := 23; minute := 59;
               second := 0; microsecond := 1500 |}
  = "2024-12-01T23:59:00.001500".
Proof. reflexivity. Qed.

(** *** The transcript bus *)

Lemma list_remove_elem (q : nat) (l : list nat) :
  q ∈ l ->
  exists l1 l2, l = l1 ++ q :: l2 /\ (q ∉ l1) /\
                list_remove q l = Return (l1 ++ l2).
Proof.
  induction l as [|x l IH]; intros Hin.
  - by apply elem_of_nil in Hin.
  - simpl. destruct (decide (x = q)) as [->|Hne].
    + exists [], l. split_and!; [done | apply not_elem_of_nil | done].
    + apply elem_of_cons in Hin as [?|Hin]; [congruence|].
      destruct (IH Hin) as (l1 & l2 & -> & Hl1 & ->).
      exists (x :: l1), l2. split_and!; [done | | done].
      rewrite not_elem_of_cons. auto.
Qed.

Lemma list_remove_not_elem (q : nat) (l : list nat) :
  q ∉ l -> list_remove q l = Raise ValueError.
Proof.
  induction l as [|x l IH]; intros Hin; [done|].
  apply not_elem_of_cons in Hin as [Hne Hin]. simpl.
  destruct (decide (x = q)); [congruence|]. by rewrite IH.
Qed.

(** **** The bus invariant, operation by operation *)

Lemma bus_ok_init : bus_ok ∅ ∅ ∅.
Proof. split; intros *; rewrite ?lookup_empty; done. Qed.

Lemma bus_ok_new_gen tq objs gens g r :
  bus_ok tq objs gens -> gens !! g = None ->
  bus_ok tq objs (<[g := {| g_roomId := r; g_pc := GenCreated |}]> gens).
Proof.
  intros [Hu Hl Ho Hg Hq] Hfresh. split; [done | done | | | ].
  - intros r' l q Hr Hin. destruct (Ho r' l q Hr Hin) as (g' & G' & HG' & ? & ?).
    exists g', G'. split_and!; [|done|done].
    rewrite lookup_insert_ne; [done | congruence].
  - intros g' G' q. rewrite lookup_insert. case_decide; [|by eauto].
    intros [= <-]. done.
  - intros g1 g2 G1 G2 q. rewrite !lookup_insert.
    repeat case_decide; try (intros [= <-]; done); try (intros _ [= <-]; done).
    eauto.
Qed.

Lemma bus_ok_objs tq objs objs' gens :
  bus_ok tq objs gens ->
  (forall q, is_Some (objs !! q) -> is_Some (objs' !! q)) ->
  (forall q Q, objs' !! q = Some Q -> maxsize Q = 0%Z) ->
  bus_ok tq objs' gens.
Proof.
  intros [Hu Hl Ho Hg Hq] Hdom Hmax. split; [done | done | done | | done].
  intros g G q HG Hgq. destruct (Hg g G q HG Hgq) as [? ?]. split; auto.
Qed.

Lemma bus_ok_repc tq objs gens g G G' :
  bus_ok tq objs gens -> gens !! g = Some G ->
  g_roomId G' = g_roomId G -> gen_queue (g_pc G') = gen_queue (g_pc G) ->
  bus_ok tq objs (<[g := G']> gens).
Proof.
  intros [Hu Hl Ho Hg Hq] HG Hr Hpc. split; [done | done | | | ].
  - intros r' l q Hl' Hin.
    destruct (Ho r' l q Hl' Hin) as (g' & G1 & HG1 & ? & ?).
    destruct (decide (g' = g)) as [->|Hne].
    + exists g, G'. rewrite lookup_insert_eq. simplify_eq. by rewrite Hr, Hpc.
    + exists g', G1. by rewrite lookup_insert_ne.
  - intros g' G1 q. rewrite lookup_insert. case_decide; [|by eauto].
    intros [= <-]. rewrite Hr, Hpc. eauto.
  - intros g1 g2 G1 G2 q. rewrite !lookup_insert.
    repeat case_decide; subst; try done.
    + intros [= <-] HG2. rewrite Hpc. eauto.
    + intros HG1 [= <-] ?. rewrite Hpc. eauto.
    + eauto.
Qed.

(** The dictionary after lines 278-280, in one update. *)
Lemma subscribe_transcript_queues (roomId : string) (q : nat)
    (tq : gmap string (list nat)) :
  alter (fun l => l ++ [q]) roomId
    (if decide (is_Some (tq !! roomId)) then tq else <[roomId := []]> tq)
  = <[roomId := default [] (tq !! roomId) ++ [q]]> tq.
Proof.
  apply map_eq. intros r. destruct (decide (r = roomId)) as [->|Hne].
  - rewrite lookup_insert_eq. case_decide as Hs.
    + destruct Hs as [l Hl]. rewrite lookup_alter_eq, Hl. done.
    + rewrite lookup_alter_eq, lookup_insert_eq.
      destruct (tq !! roomId); [exfalso; eauto | done].
  - rewrite lookup_insert_ne by done. rewrite lookup_alter_ne by done.
    case_decide; [done|]. by rewrite lookup_insert_ne.
Qed.

Lemma bus_ok_fresh tq objs gens :
  bus_ok tq objs gens ->
  let q := fresh (dom objs) in
  objs !! q = None /\
  (forall r l, tq !! r = Some l -> q ∉ l) /\
  (forall g G, gens !! g = Some G -> gen_queue (g_pc G) ≠ Some q).
Proof.
  intros [Hu Hl Ho Hg Hq] q.
  assert (Hfresh : objs !! q = None).
  { apply not_elem_of_dom. apply is_fresh. }
  assert (Hgen : forall g G, gens !! g = Some G -> gen_queue (g_pc G) ≠ Some q).
  { intros g G HG Hgq. destruct (Hg g G q HG Hgq) as [[Q HQ] _]. congruence. }
  split_and!; [done | | done].
  intros r l Hr Hin. destruct (Ho r l q Hr Hin) as (g & G & HG & _ & Hgq).
  by apply (Hgen g G).
Qed.

Lemma bus_ok_subscribe tq objs gens g G :
  bus_ok tq objs gens -> gens !! g = Some G -> g_pc G = GenCreated ->
  let q := fresh (dom objs) in
  bus_ok (<[g_roomId G := default [] (tq !! g_roomId G) ++ [q]]> tq)
         (<[q := Queue_new]> objs)
         (<[g := set_g_pc (GenAwaitDisconnected q) G]> gens).
Proof.
  intros Hok HG Hpc q.
  destruct (bus_ok_fresh _ _ _ Hok) as (Hfresh & Hnotin & Hnogen).
  fold q in Hfresh, Hnotin, Hnogen.
  destruct Hok as [Hu Hl Ho Hg Hq]. split.
  - intros q' Q. rewrite lookup_insert. case_decide; [by intros [= <-]|eauto].
  - intros r l. rewrite lookup_insert. case_decide as Hr; [|by eauto].
    intros [= <-]. split; [by destruct (default _ _)|].
    apply NoDup_app. split_and!.
    + destruct (tq !! g_roomId G) as [l|] eqn:E; simpl; [|constructor].
      by apply (Hl _ _ E).
    + intros x Hx ->%list_elem_of_singleton.
      destruct (tq !! g_roomId G) as [l|] eqn:E; simpl in Hx.
      * by apply (Hnotin _ _ E).
      * by apply elem_of_nil in Hx.
    + apply NoDup_singleton.
  - intros r l q'. rewrite lookup_insert. case_decide as Hr.
    + intros [= <-]. rewrite elem_of_app, list_elem_of_singleton.
      intros [Hin| ->].
      * destruct (tq !! g_roomId G) as [l|] eqn:E; simpl in Hin;
          [|by apply elem_of_nil in Hin].
        destruct (Ho _ _ _ E Hin) as (g' & G' & HG' & HrG' & Hgq).
        destruct (decide (g' = g)) as [->|Hne].
        { simplify_eq. rewrite Hpc in Hgq. done. }
        exists g', G'. rewrite lookup_insert_ne by done.
        split_and!; [done | congruence | done].
      * exists g, (set_g_pc (GenAwaitDisconnected q) G).
        by rewrite lookup_insert_eq.
    + intros Hl' Hin.
      destruct (Ho _ _ _ Hl' Hin) as (g' & G' & HG' & HrG' & Hgq).
      destruct (decide (g' = g)) as [->|Hne].
      { by simplify_eq. }
      exists g', G'. by rewrite lookup_insert_ne.
  - intros g' G' q'. rewrite lookup_insert. case_decide as Hgg.
    + intros [= <-]. simpl. intros [= <-]. rewrite !lookup_insert_eq.
      split; [eauto|]. eexists. split; [done|].
      rewrite elem_of_app, list_elem_of_singleton. auto.
    + intros HG' Hgq. destruct (Hg _ _ _ HG' Hgq) as [Hs (l & Hl' & Hin)].
      split.
      * rewrite lookup_insert_ne; [done|]. intros <-. by apply (Hnogen g' G').
      * rewrite lookup_insert. case_decide as Hr; [|eauto].
        eexists. split; [done|]. rewrite Hr, Hl'. simpl.
        rewrite elem_of_app. auto.
  - intros g1 g2 G1 G2 q'. rewrite !lookup_insert.
    repeat case_decide; subst; try done.
    + intros [= <-] HG2. simpl. intros [= <-] Hgq. by destruct (Hnogen g2 G2).
    + intros HG1 [= <-] Hgq. simpl. intros [= <-]. by destruct (Hnogen g1 G1).
    + eauto.
Qed.

Lemma lookup_pruned (r r' : string) (l : list nat) (tq : gmap string (list nat)) :
  (if decide (l = []) then delete r tq else <[r := l]> tq) !! r'
  = if decide (r = r') then (if decide (l = []) then None else Some l)
    else tq !! r'.
Proof.
  destruct (decide (l = [])); destruct (decide (r = r')) as [->|];
    by rewrite ?lookup_delete_eq, ?lookup_delete_ne, ?lookup_insert_eq,
               ?lookup_insert_ne by done.
Qed.

Lemma bus_ok_leave tq objs gens g G q e :
  bus_ok tq objs gens -> gens !! g = Some G -> gen_queue (g_pc G) = Some q ->
  exists l1 l2,
    tq !! g_roomId G = Some (l1 ++ q :: l2) /\ (q ∉ l1 ++ l2) /\
    list_remove q (l1 ++ q :: l2) = Return (l1 ++ l2) /\
    bus_ok (if decide (l1 ++ l2 = []) then delete (g_roomId G) tq
            else <[g_roomId G := l1 ++ l2]> tq)
           objs (<[g := set_g_pc (GenClosed e) G]> gens).
Proof.
  intros [Hu Hl Ho Hg Hq] HG Hgq.
  destruct (Hg g G q HG Hgq) as [_ (l & Hroom & Hin)].
  destruct (list_remove_elem q l Hin) as (l1 & l2 & -> & Hl1 & Hrm).
  destruct (Hl _ _ Hroom) as [_ Hnd].
  assert (Hout : q ∉ l1 ++ l2).
  { apply NoDup_app in Hnd as (_ & _ & Hnd2).
    apply NoDup_cons in Hnd2 as [Hl2 _].
    rewrite elem_of_app. intros [?|?]; auto. }
  assert (Hsub : forall x, x ∈ l1 ++ l2 -> x ∈ l1 ++ q :: l2).
  { intros x. rewrite !elem_of_app, elem_of_cons. tauto. }
  assert (Hnd' : NoDup (l1 ++ l2)).
  { apply NoDup_app in Hnd as (Hn1 & Hdisj & Hnd2).
    apply NoDup_cons in Hnd2 as [_ Hn2]. apply NoDup_app. split_and!; [done| |done].
    intros x Hx1 Hx2. apply (Hdisj x Hx1). apply elem_of_cons. auto. }
  exists l1, l2. split_and!; [done | done | done |]. split.
  - done.
  - intros r l. rewrite lookup_pruned. case_decide as Hr; [|by eauto].
    case_decide; [done|]. by intros [= <-].
  - intros r l q'. rewrite lookup_pruned. case_decide as Hr.
    + case_decide; [done|]. intros [= <-] Hin'.
      destruct (Ho _ _ _ Hroom (Hsub _ Hin')) as (g' & G' & HG' & HrG' & Hgq').
      destruct (decide (g' = g)) as [->|Hne].
      { simplify_eq. }
      exists g', G'. rewrite lookup_insert_ne by done.
      split_and!; [done | congruence | done].
    + intros Hl' Hin'.
      destruct (Ho _ _ _ Hl' Hin') as (g' & G' & HG' & HrG' & Hgq').
      destruct (decide (g' = g)) as [->|Hne].
      { by simplify_eq. }
      exists g', G'. by rewrite lookup_insert_ne.
  - intros g' G' q'. rewrite lookup_insert. case_decide as Hgg.
    + by intros [= <-].
    + intros HG' Hgq'.
      destruct (Hg _ _ _ HG' Hgq') as [Hs (l & Hl' & Hin')].
      split; [done|]. rewrite lookup_pruned. case_decide as Hr; [|eauto].
      assert (l = l1 ++ q :: l2) as -> by congruence.
      assert (Hqq : q' ≠ q).
      { intros ->. apply Hgg. symmetry. by apply (Hq g' g G' G q). }
      assert (Hin2 : q' ∈ l1 ++ l2).
      { revert Hin'. rewrite !elem_of_app, elem_of_cons. tauto. }
      case_decide as Hnil.
      * rewrite Hnil in Hin2. by apply elem_of_nil in Hin2.
      * eauto.
  - intros g1 g2 G1 G2 q'. rewrite !lookup_insert.
    repeat case_decide; subst; try done.
    + by intros [= <-].
    + by intros ? [= <-].
    + eauto.
Qed.

(** With unbounded queues the broadcast loop never waits, and it appends
    the message to exactly the queues of the list. *)
Lemma put_all_spec (message : msg) (l : list nat) (objs : gmap nat Queue) :
  (forall q Q, objs !! q = Some Q -> maxsize Q = 0%Z) -> NoDup l ->
  (put_all message l objs).2 = None /\
  forall q, (put_all message l objs).1 !! q =
    if decide (q ∈ l)
    then (fun Q => {| maxsize := maxsize Q; items := items Q ++ [message] |})
           <$> objs !! q
    else objs !! q.
Proof.
  revert objs. induction l as [|q0 l IH]; intros objs Hu Hnd.
  - split; [done|]. intros q. rewrite decide_False; [done | apply not_elem_of_nil].
  - apply NoDup_cons in Hnd as [Hq0 Hnd]. simpl.
    destruct (objs !! q0) as [Q|] eqn:HQ.
    + unfold put, full. rewrite (Hu _ _ HQ). simpl.
      set (Q' := {| maxsize := 0; items := items Q ++ [message] |}).
      destruct (IH (<[q0 := Q']> objs)) as [Hw Hlk]; [|done|].
      { intros q Q1. rewrite lookup_insert. case_decide; [by intros [= <-]|eauto]. }
      split; [done|]. intros q. rewrite Hlk.
      destruct (decide (q = q0)) as [->|Hne].
      * rewrite decide_False by done. rewrite decide_True by apply list_elem_of_here.
        rewrite lookup_insert_eq, HQ. simpl. unfold Q'. by rewrite (Hu _ _ HQ).
      * rewrite lookup_insert_ne by done.
        destruct (decide (q ∈ l)) as [Hin|Hin].
        -- rewrite decide_True; [done | by apply list_elem_of_further].
        -- rewrite decide_False; [done|]. rewrite elem_of_cons. tauto.
    + destruct (IH objs Hu Hnd) as [Hw Hlk]. split; [done|].
      intros q. rewrite Hlk. destruct (decide (q = q0)) as [->|Hne].
      * rewrite decide_False by done. rewrite decide_True by apply list_elem_of_here.
        by rewrite HQ.
      * destruct (decide (q ∈ l)) as [Hin|Hin].
        -- rewrite decide_True; [done | by apply list_elem_of_further].
        -- rewrite decide_False; [done|]. rewrite elem_of_cons. tauto.
Qed.

Lemma broadcast_transcript_spec (room_id : string) (message : msg) (st : State) :
  bus_inv st ->
  exists objs,
    broadcast_transcript room_id message st
      = (set_queue_objs (fun _ => objs) st, None) /\
    (forall q, objs !! q =
       if decide (q ∈ default [] (transcript_queues st !! room_id))
       then (fun Q => {| maxsize := maxsize Q; items := items Q ++ [message] |})
              <$> queue_objs st !! q
       else queue_objs st !! q) /\
    (transcript_queues st !! room_id = None -> objs = queue_objs st).
Proof.
  intros [Hu Hl Ho Hg Hq]. unfold broadcast_transcript.
  destruct (transcript_queues st !! room_id) as [l|] eqn:Hroom; simpl.
  - destruct (Hl _ _ Hroom) as [_ Hnd].
    destruct (put_all_spec message l (queue_objs st) Hu Hnd) as [Hw Hlk].
    destruct (put_all message l (queue_objs st)) as [objs w]. simpl in *.
    subst w. exists objs. split_and!; [done | done | done].
  - exists (queue_objs st). split_and!; [by destruct st | done | done].
Qed.

Lemma broadcast_transcript_bus_inv (room_id : string) (message : msg) (st : State) :
  bus_inv st -> bus_inv (broadcast_transcript room_id message st).1.
Proof.
  intros Hinv.
  destruct (broadcast_transcript_spec room_id message st Hinv)
    as (objs & -> & Hlk & _). simpl.
  apply (bus_ok_objs _ (queue_objs st)); [done | |].
  - intros q [Q HQ]. rewrite Hlk, HQ. by case_decide.
  - intros q Q. rewrite Hlk. destruct Hinv as [Hu _ _ _ _].
    case_decide; [|by eauto].
    destruct (queue_objs st !! q) as [Q0|] eqn:HQ0; [|done].
    intros [= <-]. simpl. eauto.
Qed.

(** **** What each coroutine leaves alone *)

Lemma spawn_tracks_frame (room_id : string) (l : list (Track * RemoteParticipant))
    (st : State) :
  let st' := foldl (fun st tp => spawn_track room_id tp st) st l in
  same_bus st st' /\ same_registry st st'.
Proof.
  revert st. induction l as [|tp l IH]; intros st; simpl; [done|].
  destruct (IH (spawn_track room_id tp st)) as [(? & ? & ?) (? & ?)].
  by repeat split.
Qed.

Lemma room_task_step_same_bus t i st : same_bus st (room_task_step t i st).
Proof.
  unfold room_task_step. destruct (room_tasks st !! t) as [T|]; [|done].
  destruct (rt_pc T), i; try done.
  - destruct stt_raises; [done|]. simpl.
    pose proof (spawn_tracks_frame (rt_room_id T)
                  (existing_audio_tracks participants) st) as [Hb _].
    exact Hb.
  - unfold room_task_cleanup. by case_decide.
Qed.

Lemma room_event_step_same_bus t ev st : same_bus st (room_event_step t ev st).
Proof.
  unfold room_event_step. destruct (room_tasks st !! t) as [T|]; [|done].
  destruct ev; try done. destruct (on_track_subscribed _); [|done].
  by case_decide.
Qed.

Lemma attach_transcriber_same_bus body st :
  same_bus st (attach_transcriber body st).1.
Proof.
  unfold attach_transcriber. destruct (negb _); [done|].
  destruct (default PNone _); try done. by case_decide.
Qed.

Lemma track_task_end_frame k raised st :
  same_bus st (track_task_end k raised st) /\
  same_registry st (track_task_end k raised st).
Proof.
  unfold track_task_end. destruct (track_tasks st !! k) as [K|]; [|done].
  by destruct (tt_pc K).
Qed.

Lemma broadcast_transcript_same_registry room_id message st :
  same_registry st (broadcast_transcript room_id message st).1.
Proof.
  unfold broadcast_transcript. destruct (transcript_queues st !! room_id); [|done].
  by destruct (put_all _ _ _).
Qed.

Section with_json.
Context `{!Json}.

(** Lines 277-280 in one update of each dictionary. *)
Lemma event_generator_subscribe_spec (roomId : string) (st : State) :
  let q := fresh (dom (queue_objs st)) in
  event_generator_subscribe roomId st =
    (set_transcript_queues
       (fun tq => <[roomId := default [] (tq !! roomId) ++ [q]]> tq)
       (set_queue_objs <[q := Queue_new]> st), q).
Proof.
  intros q. unfold event_generator_subscribe. fold q. f_equal.
  destruct st as [tq ag objs rts tts gens].
  unfold set_transcript_queues. simpl.
  rewrite <- (subscribe_transcript_queues roomId q tq).
  by case_decide.
Qed.

Lemma event_generator_finally_spec (g : nat) (G : Generator) (q : nat)
    (e : option exn) (st : State) :
  bus_inv st -> streams st !! g = Some G -> gen_queue (g_pc G) = Some q ->
  exists l1 l2,
    transcript_queues st !! g_roomId G = Some (l1 ++ q :: l2) /\
    event_generator_finally (g_roomId G) q st =
      Return (set_transcript_queues
                (if decide (l1 ++ l2 = []) then delete (g_roomId G)
                 else <[g_roomId G := l1 ++ l2]>) st) /\
    bus_ok (if decide (l1 ++ l2 = []) then delete (g_roomId G) (transcript_queues st)
            else <[g_roomId G := l1 ++ l2]> (transcript_queues st))
           (queue_objs st) (<[g := set_g_pc (GenClosed e) G]> (streams st)).
Proof.
  intros Hinv HG Hgq.
  destruct (bus_ok_leave _ _ _ g G q e Hinv HG Hgq)
    as (l1 & l2 & Hroom & Hout & Hrm & Hok).
  exists l1, l2. split_and!; [done | | done].
  unfold event_generator_finally. rewrite Hroom, Hrm. simpl.
  destruct (l1 ++ l2) eqn:E.
  - by rewrite decide_True.
  - by rewrite decide_False.
Qed.

Lemma gen_leave_bus_inv g G q pending out st :
  bus_inv st -> streams st !! g = Some G -> gen_queue (g_pc G) = Some q ->
  bus_inv (gen_leave g G q pending out st).1 /\
  (gen_leave g G q pending out st).2 = out.
Proof.
  intros Hinv HG Hgq.
  destruct (event_generator_finally_spec g G q pending st Hinv HG Hgq)
    as (l1 & l2 & _ & Hfin & Hok).
  unfold gen_leave. rewrite Hfin. split; [|done].
  unfold bus_inv. simpl. by case_decide.
Qed.

Lemma gen_step_bus_inv g i st : bus_inv st -> bus_inv (gen_step g i st).1.
Proof.
  intros Hinv. unfold gen_step.
  destruct (streams st !! g) as [G|] eqn:HG; [|done].
  destruct (g_pc G) eqn:Hpc; destruct i as [| [|] | waited | | e]; try done;
    try (apply gen_leave_bus_inv; [done | done | by rewrite Hpc]);
    try (apply (bus_ok_repc _ _ _ g G); [done | done | done | by rewrite Hpc]).
  - rewrite event_generator_subscribe_spec. unfold bus_inv. simpl.
    by apply bus_ok_subscribe.
  - assert (Hwait :
      bus_inv (if Qle_bool keepalive_timeout waited
               then (set_streams <[g := set_g_pc (GenYielded q) G]> st,
                     Yield keepalive_chunk)
               else (st, Suspended)).1).
    { destruct (Qle_bool _ _); [|done].
      apply (bus_ok_repc _ _ _ g G); [done | done | done | by rewrite Hpc]. }
    destruct (queue_objs st !! q) as [Q|] eqn:HQ; simpl; [|done].
    + destruct (items Q) as [|data rest] eqn:HI; [done|].
      * unfold bus_inv. simpl.
        apply (bus_ok_repc _ _ _ g G); [ | done | done | by rewrite Hpc].
        apply (bus_ok_objs _ (queue_objs st)); [done | |].
        -- intros q' [Q' HQ']. rewrite lookup_alter. case_decide; [|by eauto].
           subst. rewrite HQ'. simpl. eauto.
        -- intros q' Q'. rewrite lookup_alter. destruct Hinv as [Hu _ _ _ _].
           case_decide; [|by eauto]. subst. rewrite HQ. simpl.
           intros [= <-]. simpl. eauto.
Qed.

Lemma gen_step_same_registry g i st : same_registry st (gen_step g i st).1.
Proof.
  unfold gen_step. destruct (streams st !! g) as [G|]; [|done].
  assert (Hleave : forall q pending out,
            same_registry st (gen_leave g G q pending out st).1).
  { intros q pending out. unfold gen_leave, event_generator_finally.
    destruct (transcript_queues st !! g_roomId G) as [l|]; [|done].
    destruct (list_remove q l) as [[|]|]; done. }
  destruct (g_pc G); destruct i as [| [|] | waited | | e]; try done.
  - unfold event_generator_subscribe. simpl. by case_decide.
  - destruct (items <$> queue_objs st !! q) as [[|]|]; try done;
      by destruct (Qle_bool _ _).
Qed.

Lemma track_task_step_bus_inv k turn st :
  bus_inv st -> bus_inv (track_task_step k turn st).1.
Proof.
  intros Hinv. unfold track_task_step.
  destruct (track_tasks st !! k) as [K|]; [|done].
  destruct (tt_pc K); try done. unfold handle_audio_track_body.
  case_decide; [|done].
  destruct (alternatives (turn_event turn)) as [|alt ?]; [done|].
  destruct (str_truthy (text alt)); [|done].
  match goal with
  | |- context [broadcast_transcript ?r ?m st] =>
      pose proof (broadcast_transcript_bus_inv r m st Hinv) as Hb;
      destruct (broadcast_transcript r m st) as [st' [w|]]
  end; done.
Qed.

Lemma track_task_step_same_registry k turn st :
  same_registry st (track_task_step k turn st).1.
Proof.
  unfold track_task_step. destruct (track_tasks st !! k) as [K|]; [|done].
  destruct (tt_pc K); try done. unfold handle_audio_track_body.
  case_decide; [|done].
  destruct (alternatives (turn_event turn)) as [|alt ?]; [done|].
  destruct (str_truthy (text alt)); [|done].
  match goal with
  | |- context [broadcast_transcript ?r ?m st] =>
      pose proof (broadcast_transcript_same_registry r m st) as Hb;
      destruct (broadcast_transcript r m st) as [st' [w|]]
  end; done.
Qed.

(** The bus invariant holds along every step. *)
Lemma step_bus_inv i st : bus_inv st -> bus_inv (step i st).1.
Proof.
  intros Hinv. destruct i as [body|roomId|t i|t ev|k turn|k raised|g i]; simpl.
  - pose proof (attach_transcriber_same_bus body st) as (E1 & E2 & E3).
    destruct (attach_transcriber body st) as [st' r]. simpl in *.
    unfold bus_inv. by rewrite E1, E2, E3.
  - unfold bus_inv. simpl. apply bus_ok_new_gen; [done|].
    apply not_elem_of_dom. apply is_fresh.
  - pose proof (room_task_step_same_bus t i st) as (E1 & E2 & E3).
    unfold bus_inv. by rewrite E1, E2, E3.
  - pose proof (room_event_step_same_bus t ev st) as (E1 & E2 & E3).
    unfold bus_inv. by rewrite E1, E2, E3.
  - by apply track_task_step_bus_inv.
  - pose proof (track_task_end_frame k raised st) as [(E1 & E2 & E3) _].
    unfold bus_inv. by rewrite E1, E2, E3.
  - pose proof (gen_step_bus_inv g i st Hinv).
    by destruct (gen_step g i st).
Qed.

(** **** The registry invariant, operation by operation *)

Lemma registry_ok_init : registry_ok ∅ ∅.
Proof. split; intros *; rewrite ?lookup_empty; done. Qed.

Lemma registry_ok_update agents tasks t T T' :
  registry_ok agents tasks -> tasks !! t = Some T ->
  rt_room_id T' = rt_room_id T -> (live T' = true -> live T = true) ->
  task_ok T' ->
  registry_ok agents (<[t := T']> tasks).
Proof.
  intros [Hlive Hentry Htask] HT Hroom Hl Hok. split.
  - intros t' T1. rewrite lookup_insert. case_decide as Ht; [|by eauto].
    subst t'. intros [= <-] Hl'. rewrite Hroom. eauto.
  - intros r t' Hr. destruct (Hentry r t' Hr) as (T1 & HT1 & Hr1).
    destruct (decide (t' = t)) as [->|Hne].
    + exists T'. rewrite lookup_insert_eq. simplify_eq. by rewrite Hroom.
    + exists T1. by rewrite lookup_insert_ne.
  - intros t' T1. rewrite lookup_insert. case_decide; [|by apply Htask].
    by intros [= <-].
Qed.

(** A task that ends without reaching line 211 leaves the registry as it
    is: its entry stays. *)
Lemma registry_ok_die agents tasks t T T' :
  registry_ok agents tasks -> tasks !! t = Some T ->
  rt_room_id T' = rt_room_id T -> live T' = false ->
  registry_ok agents (<[t := T']> tasks).
Proof.
  intros Hok HT Hroom Hl.
  apply (registry_ok_update _ _ t T); [done | done | done | congruence |].
  unfold task_ok. unfold live in Hl. by destruct (rt_pc T').
Qed.

Lemma registry_ok_finish agents tasks t T T' :
  registry_ok agents tasks -> tasks !! t = Some T -> live T = true ->
  rt_room_id T' = rt_room_id T -> live T' = false -> task_ok T' ->
  registry_ok (delete (rt_room_id T) agents) (<[t := T']> tasks).
Proof.
  intros [Hlive Hentry Htask] HT Hl Hroom Hl' Hok.
  pose proof (Hlive t T HT Hl) as Hreg. split.
  - intros t' T1. rewrite lookup_insert. case_decide as Ht.
    + intros [= <-]. congruence.
    + intros HT1 Hl1. pose proof (Hlive t' T1 HT1 Hl1) as Hreg1.
      rewrite lookup_delete_ne; [done|]. intros E. rewrite E in Hreg. congruence.
  - intros r t'. rewrite lookup_delete. case_decide as Hr; [done|].
    intros Hr'. destruct (Hentry r t' Hr') as (T1 & HT1 & Hr1).
    exists T1. rewrite lookup_insert_ne; [done|]. intros <-.
    simplify_eq; congruence.
  - intros t' T1. rewrite lookup_insert. case_decide; [|by apply Htask].
    by intros [= <-].
Qed.

Lemma run_agent_for_room_registry_inv r st :
  registry_inv st -> running_agents st !! r = None ->
  registry_inv (run_agent_for_room r st).1.
Proof.
  intros [Hlive Hentry Htask] Hfree. unfold registry_inv. simpl.
  set (t := fresh (dom (room_tasks st))).
  assert (Hfresh : room_tasks st !! t = None).
  { apply not_elem_of_dom. apply is_fresh. }
  split.
  - intros t' T1. rewrite lookup_insert. case_decide as Ht.
    + intros [= <-]. simpl. subst. by rewrite lookup_insert_eq.
    + intros HT1 Hl1. pose proof (Hlive t' T1 HT1 Hl1) as Hreg1.
      rewrite lookup_insert_ne; [done|]. intros E. rewrite E in Hfree. congruence.
  - intros r' t'. rewrite lookup_insert. case_decide as Hr.
    + intros [= <-]. eexists. rewrite lookup_insert_eq. done.
    + intros Hr'. destruct (Hentry r' t' Hr') as (T1 & HT1 & Hr1).
      exists T1. rewrite lookup_insert_ne; [done|]. intros <-. congruence.
  - intros t' T1. rewrite lookup_insert. case_decide; [|by apply Htask].
    intros [= <-]. split; [done|]. intros c Hc. by apply elem_of_nil in Hc.
Qed.

Lemma attach_transcriber_registry_inv body st :
  registry_inv st -> registry_inv (attach_transcriber body st).1.
Proof.
  intros Hinv. unfold attach_transcriber. destruct (negb _); [done|].
  destruct (default PNone _) as [| | | | r | |]; try done.
  case_decide as Hr; [done|]. apply run_agent_for_room_registry_inv; [done|].
  destruct (running_agents st !! r) eqn:E; [exfalso; eauto | done].
Qed.

Lemma room_task_raise_registry_ok agents tasks t T T0 e :
  registry_ok agents tasks -> tasks !! t = Some T -> live T = true ->
  rt_room_id T0 = rt_room_id T ->
  registry_ok agents (<[t := room_task_raise e T0]> tasks).
Proof.
  intros Hok HT Hl Hr.
  apply (registry_ok_update _ _ t T); [done | done | done | by rewrite Hl |].
  unfold task_ok. simpl. rewrite elem_of_app, list_elem_of_singleton. auto.
Qed.

Lemma keep_alive_registry_ok agents tasks t T T0 :
  registry_ok agents tasks -> tasks !! t = Some T -> live T = true ->
  rt_room_id T0 = rt_room_id T -> CallDisconnect ∉ calls (rt_room T0) ->
  registry_ok agents (<[t := keep_alive T0]> tasks).
Proof.
  intros Hok HT Hl Hr Hnd. unfold keep_alive.
  apply (registry_ok_update _ _ t T); [done | done | | |];
    case_decide; unfold task_ok; simpl; try done; try by rewrite Hl.
  rewrite elem_of_app, list_elem_of_singleton. auto.
Qed.

Lemma room_task_step_registry_inv t i st :
  registry_inv st -> registry_inv (room_task_step t i st).
Proof.
  intros Hinv. unfold room_task_step.
  destruct (room_tasks st !! t) as [T|] eqn:HT; [|done].
  assert (Hl : live T = match rt_pc T with Finished _ => false | _ => true end)
    by reflexivity.
  pose proof (reg_task _ _ Hinv t T HT) as Hok. unfold task_ok in Hok.
  destruct (rt_pc T) eqn:E, i; try done; unfold registry_inv; simpl.
  - apply (registry_ok_update _ _ t T); [done | done | done | |].
    + unfold live. simpl. by rewrite E.
    + unfold task_ok. simpl. destruct Hok as [Hon Hc]. split; [done|].
      intros c. rewrite elem_of_app, list_elem_of_singleton. intros [?|?]; auto.
  - by apply (registry_ok_die _ _ t T).
  - destruct stt_raises as [e|].
    + apply (room_task_raise_registry_ok _ _ t T); done.
    + pose proof (spawn_tracks_frame (rt_room_id T)
                    (existing_audio_tracks participants) st) as [_ [E1 E2]].
      simpl in E1, E2. unfold set_room_tasks. simpl. rewrite E1, E2.
      apply (keep_alive_registry_ok _ _ t T); [done | done | done | done |].
      simpl. destruct Hok as [_ Hc]. intros Hin. by specialize (Hc _ Hin).
  - apply (room_task_raise_registry_ok _ _ t T); done.
  - by apply (keep_alive_registry_ok _ _ t T).
  - apply (room_task_raise_registry_ok _ _ t T); done.
  - by apply (registry_ok_die _ _ t T).
  - unfold room_task_cleanup. simpl.
    assert (Hreg : running_agents st !! rt_room_id T = Some t).
    { destruct Hinv as [Hlive _ _]. by apply Hlive. }
    rewrite decide_True by eauto. simpl.
    by apply (registry_ok_finish _ _ t T).
Qed.

Lemma room_event_step_registry_inv t ev st :
  registry_inv st -> registry_inv (room_event_step t ev st).
Proof.
  intros Hinv. unfold room_event_step.
  destruct (room_tasks st !! t) as [T|] eqn:HT; [|done].
  pose proof (reg_task _ _ Hinv t T HT) as Hok.
  destruct ev as [p|tr p|idn|s]; unfold registry_inv; simpl.
  - by apply (registry_ok_update _ _ t T).
  - destruct (on_track_subscribed _); [|done]. by case_decide.
  - destruct (on_participant_disconnected (rt_room T)) eqn:Hon.
    + case_decide.
      * apply (registry_ok_update _ _ t T); [done | done | done | done |].
        unfold task_ok in *. simpl.
        destruct (rt_pc T); rewrite ?elem_of_app, ?list_elem_of_singleton;
          try tauto; try (destruct Hok; congruence).
        intros [?|?]; done.
      * by apply (registry_ok_update _ _ t T).
    + by apply (registry_ok_update _ _ t T).
  - by apply (registry_ok_update _ _ t T).
Qed.

Lemma step_registry_inv i st : registry_inv st -> registry_inv (step i st).1.
Proof.
  intros Hinv. destruct i as [body|roomId|t i|t ev|k turn|k raised|g i]; simpl.
  - pose proof (attach_transcriber_registry_inv body st Hinv).
    by destruct (attach_transcriber body st).
  - done.
  - by apply room_task_step_registry_inv.
  - by apply room_event_step_registry_inv.
  - pose proof (track_task_step_same_registry k turn st) as [E1 E2].
    unfold registry_inv. by rewrite E1, E2.
  - pose proof (track_task_end_frame k raised st) as [_ [E1 E2]].
    unfold registry_inv. by rewrite E1, E2.
  - pose proof (gen_step_same_registry g i st) as [E1 E2].
    destruct (gen_step g i st) as [st' o]. simpl in *.
    unfold registry_inv. by rewrite E1, E2.
Qed.

Lemma run_cons i rest st :
  run (i :: rest) st =
    ((run rest (step i st).1).1, (step i st).2 :: (run rest (step i st).1).2).
Proof.
  simpl. destruct (step i st) as [st1 o]. simpl.
  by destruct (run rest st1).
Qed.

Lemma run_inv inputs st :
  bus_inv st /\ registry_inv st ->
  bus_inv (run inputs st).1 /\ registry_inv (run inputs st).1.
Proof.
  revert st. induction inputs as [|i rest IH]; intros st [Hb Hr]; [done|].
  rewrite run_cons. simpl. apply IH. split.
  - by apply step_bus_inv.
  - by apply step_registry_inv.
Qed.

(** Both invariants hold in every state the process can be in. *)
Lemma reachable_inv st : reachable st -> bus_inv st /\ registry_inv st.
Proof.
  intros [inputs <-]. apply run_inv. split.
  - apply bus_ok_init.
  - apply registry_ok_init.
Qed.

Lemma reachable_step i st : reachable st -> reachable (step i st).1.
Proof.
  intros [inputs <-]. exists (inputs ++ [i]).
  generalize init. induction inputs as [|j rest IH]; intros st0.
  - simpl. by destruct (step i st0).
  - rewrite <- app_comm_cons, !run_cons. simpl. apply IH.
Qed.

(** *** The claims about the bus *)

(** C2.  In every state the process can be in, broadcasting a message to a
    room appends it to the queue of every subscriber listed for that room
    and to no other queue, and none of the [put]s has to wait: every queue
    is unbounded.  When the room has no list the state is unchanged: the
    message is dropped, and a queue subscribed afterwards starts empty. *)
Theorem broadcast_transcript_delivers (room_id : string) (message : msg)
    (st : State) :
  reachable st ->
  exists objs,
    broadcast_transcript room_id message st
      = (set_queue_objs (fun _ => objs) st, None) /\
    (forall q, q ∈ default [] (transcript_queues st !! room_id) ->
       exists Q, queue_objs st !! q = Some Q /\ maxsize Q = 0%Z /\
         objs !! q = Some {| maxsize := 0; items := items Q ++ [message] |}) /\
    (forall q, q ∉ default [] (transcript_queues st !! room_id) ->
       objs !! q = queue_objs st !! q) /\
    (transcript_queues st !! room_id = None ->
       broadcast_transcript room_id message st = (st, None) /\
       forall st' q, event_generator_subscribe room_id st = (st', q) ->
         queue_objs st' !! q = Some Queue_new /\
         transcript_queues st' !! room_id = Some [q]).
Proof.
  intros Hreach. destruct (reachable_inv st Hreach) as [Hbus _].
  destruct (broadcast_transcript_spec room_id message st Hbus)
    as (objs & Hb & Hlk & Hnone).
  exists objs. split_and!; [done | | |].
  - intros q Hin. rewrite Hlk, decide_True by done.
    destruct (transcript_queues st !! room_id) as [l|] eqn:Hroom;
      [|by apply elem_of_nil in Hin].
    destruct (bus_owner _ _ _ Hbus room_id l q Hroom Hin)
      as (g & G & HG & _ & Hgq).
    destruct (bus_listed _ _ _ Hbus g G q HG Hgq) as [[Q HQ] _].
    exists Q. rewrite HQ. simpl.
    by rewrite (bus_unbounded _ _ _ Hbus q Q HQ).
  - intros q Hin. by rewrite Hlk, decide_False.
  - intros Hroom. split.
    + unfold broadcast_transcript. by rewrite Hroom.
    + intros st' q. rewrite event_generator_subscribe_spec.
      intros [= <- <-]. simpl. rewrite !lookup_insert_eq. by rewrite Hroom.
Qed.

(** *** The claims about transcription *)

Lemma handle_audio_track_body_spec (participant : RemoteParticipant)
    (room_id : string) (turn : Turn) (st : State) :
  bus_inv st ->
  handle_audio_track_body (seen participant turn) room_id (turn_now turn)
    (turn_event turn) st =
    if textless_final (turn_event turn) then Failed IndexError
    else if nonempty_final (turn_event turn) then
      match transcript_of participant room_id turn with
      | Some message =>
          Published message (broadcast_transcript room_id message st).1 None
      | None => Skip
      end
    else Skip.
Proof.
  intros Hbus.
  unfold handle_audio_track_body, textless_final, nonempty_final, transcript_of.
  case_decide as Hty.
  - rewrite bool_decide_eq_true_2 by done. simpl.
    destruct (alternatives (turn_event turn)) as [|alt rest]; [done|].
    destruct (str_truthy (text alt)); [|done].
    rewrite resolve_name_resolve_spec.
    match goal with
    | |- context [broadcast_transcript ?r ?m st] =>
        destruct (broadcast_transcript_spec r m st Hbus) as (objs & -> & _)
    end.
    done.
  - by rewrite bool_decide_eq_false_2.
Qed.

(** Broadcasting a list of messages to a room appends them, in order, to
    every queue listed for the room and touches nothing else. *)
Lemma broadcast_all_spec (room_id : string) (ms : list msg) (st : State) :
  bus_inv st ->
  bus_inv (broadcast_all room_id ms st) /\
  same_registry st (broadcast_all room_id ms st) /\
  transcript_queues (broadcast_all room_id ms st) = transcript_queues st /\
  streams (broadcast_all room_id ms st) = streams st /\
  track_tasks (broadcast_all room_id ms st) = track_tasks st /\
  forall q, queue_objs (broadcast_all room_id ms st) !! q =
    if decide (q ∈ default [] (transcript_queues st !! room_id))
    then (fun Q => {| maxsize := maxsize Q; items := items Q ++ ms |})
           <$> queue_objs st !! q
    else queue_objs st !! q.
Proof.
  revert st. induction ms as [|m ms IH]; intros st Hbus.
  - simpl. split_and!; try done. intros q. case_decide; [|done].
    destruct (queue_objs st !! q) as [[mx its]|]; [|done].
    simpl. by rewrite app_nil_r.
  - simpl. fold (broadcast_all room_id ms).
    pose proof (broadcast_transcript_bus_inv room_id m st Hbus) as Hbus'.
    destruct (broadcast_transcript_spec room_id m st Hbus)
      as (objs & E & Hlk & _).
    rewrite E in *. simpl in *.
    destruct (IH _ Hbus') as (Hb & Hr & Ht & Hs & Hk & Ho).
    split_and!; try done. intros q. rewrite Ho. simpl. rewrite Hlk.
    case_decide; [|done].
    destruct (queue_objs st !! q) as [Q|]; [|done]. simpl.
    by rewrite <- app_assoc.
Qed.

(** The drain loop in one equation: the state it leaves is the state after
    the broadcast of the messages it publishes, and it ends with the
    stream, or at the first final event that has no alternative. *)
Lemma handle_audio_track_drain_spec (participant : RemoteParticipant)
    (room_id : string) (turns : list Turn) (st : State) :
  bus_inv st ->
  handle_audio_track_drain participant room_id turns st =
    (broadcast_all room_id (published_of participant room_id turns) st,
     published_of participant room_id turns,
     if forallb (fun turn => negb (textless_final (turn_event turn))) turns
     then StreamEnded else DrainRaised IndexError).
Proof.
  revert st. induction turns as [|turn rest IH]; intros st Hbus; [done|].
  cbn [handle_audio_track_drain].
  rewrite (handle_audio_track_body_spec _ _ _ _ Hbus).
  unfold published_of. cbn [consumed forallb].
  destruct (textless_final (turn_event turn)) eqn:Htl.
  - assert (nonempty_final (turn_event turn) = false) as Hnf.
    { unfold textless_final, nonempty_final in *.
      destruct (alternatives (turn_event turn));
        [by rewrite andb_false_r | by rewrite andb_false_r in Htl]. }
    simpl. by rewrite Hnf.
  - cbn [negb andb omap list_omap]. fold (published_of participant room_id rest).
    destruct (nonempty_final (turn_event turn)) eqn:Hnf.
    + assert (exists message,
                transcript_of participant room_id turn = Some message)
        as (message & Etr).
      { unfold transcript_of, nonempty_final in *.
        destruct (alternatives (turn_event turn)); [|by eauto].
        by rewrite andb_false_r in Hnf. }
      rewrite Etr.
      pose proof (broadcast_transcript_bus_inv room_id message st Hbus) as Hbus'.
      by rewrite (IH _ Hbus').
    + by rewrite (IH _ Hbus).
Qed.

(** C3, as the code has it.  The loop works through the turns up to the
    first final event that carries no alternative, where line 231 raises
    [IndexError] and the loop ends; without such an event it works through
    them all and ends with the stream.  Of the events it works through,
    exactly the final transcripts with a non-empty text are published, in
    order, each with the name resolved in its own turn: they are the
    messages handed to the bus, the state left is the state after their
    broadcast, and every queue listed for the room holds them behind what
    it held, while no other queue changes.  An interim event or a final
    event with an empty text is passed over without an error. *)
Theorem handle_audio_track_drain_publishes (participant : RemoteParticipant)
    (room_id : string) (turns : list Turn) (st : State) :
  reachable st ->
  handle_audio_track_drain participant room_id turns st =
    (broadcast_all room_id (published_of participant room_id turns) st,
     published_of participant room_id turns,
     if forallb (fun turn => negb (textless_final (turn_event turn))) turns
     then StreamEnded else DrainRaised IndexError) /\
  (forall q,
     queue_objs (handle_audio_track_drain participant room_id turns st).1.1 !! q
     = if decide (q ∈ default [] (transcript_queues st !! room_id))
       then (fun Q => {| maxsize := maxsize Q;
                         items := items Q ++
                                  published_of participant room_id turns |})
              <$> queue_objs st !! q
       else queue_objs st !! q) /\
  (forall message,
     message ∈ published_of participant room_id turns <->
     exists turn, turn ∈ consumed turns /\
       nonempty_final (turn_event turn) = true /\
       transcript_of participant room_id turn = Some message) /\
  (Forall (fun turn => textless_final (turn_event turn) = false) turns ->
     consumed turns = turns).
Proof.
  intros Hreach. destruct (reachable_inv st Hreach) as [Hbus _].
  rewrite (handle_audio_track_drain_spec _ _ _ _ Hbus).
  split_and!; [done | | |].
  - cbn [fst snd].
    by destruct (broadcast_all_spec room_id
                   (published_of participant room_id turns) st Hbus)
      as (_ & _ & _ & _ & _ & Ho).
  - intros message. unfold published_of. rewrite list_elem_of_omap.
    split.
    + intros (turn & Hin & Hm).
      destruct (nonempty_final (turn_event turn)) eqn:Hnf; [|done].
      by exists turn.
    + intros (turn & Hin & Hnf & Hm). exists turn. by rewrite Hnf.
  - induction 1 as [|turn rest Htl _ IH]; [done|].
    simpl. by rewrite Htl, IH.
Qed.

(** Across the other coroutines: one turn of the loop of a track task puts
    out a message exactly for a final event with a non-empty text. *)
Lemma track_task_step_publishes (k : nat) (K : TrackTask) (turn : Turn)
    (st : State) :
  reachable st -> track_tasks st !! k = Some K -> tt_pc K = Draining ->
  (track_task_step k turn st).2 =
    if nonempty_final (turn_event turn) then
      match transcript_of (tt_participant K) (tt_room_id K) turn with
      | Some message => OutPublished message
      | None => OutNone
      end
    else OutNone.
Proof.
  intros Hreach HK Hpc. destruct (reachable_inv st Hreach) as [Hbus _].
  unfold track_task_step. rewrite HK, Hpc.
  rewrite (handle_audio_track_body_spec _ _ _ _ Hbus).
  destruct (textless_final (turn_event turn)) eqn:Htl.
  - unfold textless_final, nonempty_final in *.
    destruct (alternatives (turn_event turn));
      [|by rewrite andb_false_r in Htl].
    by rewrite andb_false_r.
  - destruct (nonempty_final (turn_event turn)); [|done].
    by destruct (transcript_of _ _ _).
Qed.

(** Every message of [handle_audio_track] carries the wall-clock time of
    its turn in ISO 8601 format. *)
Lemma handle_audio_track_body_timestamp (participant : RemoteParticipant)
    (room_id : string) (now : datetime) (event : SpeechEvent) (st st' : State)
    (message : msg) (waiting : option nat) :
  handle_audio_track_body participant room_id now event st
    = Published message st' waiting ->
  timestamp message = PStr (isoformat now).
Proof.
  unfold handle_audio_track_body. case_decide; [|done].
  destruct (alternatives event) as [|alt ?]; [done|].
  destruct (str_truthy (text alt)); [|done].
  destruct (broadcast_transcript _ _ _). by intros [= <- _ _].
Qed.

(** The same for [TranscriberAgent.transcribe_track]: its messages carry
    the reading of the event loop's clock, a number. *)
Lemma transcribe_track_body_timestamp (room_id : string)
    (participant : RemoteParticipant) (loop_time : pyfloat)
    (event : SpeechEvent) (st st' : State) (message : msg)
    (waiting : option nat) :
  TranscriberAgent.transcribe_track_body room_id participant loop_time event st
    = Published message st' waiting ->
  timestamp message = PFloat loop_time.
Proof.
  unfold TranscriberAgent.transcribe_track_body. case_decide; [|done].
  destruct (alternatives event) as [|alt ?]; [done|].
  destruct (str_truthy (text alt)); [|done]. simpl.
  destruct (broadcast_transcript _ _ _). by intros [= <- _ _].
Qed.

(** *** The claims about the registry *)



(** C7.  A request whose body has no [roomId] is answered at once by the
    client error 400 with the detail [roomId required]; the state of the
    process is unchanged: no room task, no registry entry. *)
Theorem attach_transcriber_roomId_required (body : gmap string pyval)
    (st : State) :
  body !! "roomId" = None ->
  attach_transcriber body st = (st, HTTPException 400 "roomId required").
Proof. intros Hbody. unfold attach_transcriber. by rewrite Hbody. Qed.

(** The ways a step of a room task can end it: [room.disconnect()]
    returns at line 209 and lines 210-211 delete the entry of the room; or
    an exception is thrown at that [await], or into the task before its
    first run, and the registry is left as it is. *)
Lemma room_task_step_finishes (t : nat) (i : RoomInput) (st : State)
    (T T' : RoomTask) :
  room_tasks st !! t = Some T -> live T = true ->
  room_tasks (room_task_step t i st) !! t = Some T' -> live T' = false ->
  rt_room_id T' = rt_room_id T /\
  calls (rt_room T') = calls (rt_room T) /\
  ((exists pending,
      i = DisconnectReturned /\ rt_pc T = AwaitDisconnect pending /\
      rt_pc T' = Finished pending /\
      running_agents (room_task_step t i st)
        = delete (rt_room_id T) (running_agents st)) \/
   (exists e,
      i = Thrown e /\
      (rt_pc T = Scheduled \/ exists pending, rt_pc T = AwaitDisconnect pending) /\
      rt_pc T' = Finished (Some e) /\
      running_agents (room_task_step t i st) = running_agents st)).
Proof.
  intros HT Hl. unfold room_task_step. rewrite HT.
  assert (Hka : forall T0, live (keep_alive T0) = true).
  { intros T0. unfold keep_alive. by case_decide. }
  destruct (rt_pc T) eqn:Hpc, i; simpl;
    try (rewrite HT; intros [= <-]; congruence);
    try (rewrite lookup_insert_eq; intros [= <-]; simpl; try done;
         rewrite ?Hka; done).
  - rewrite lookup_insert_eq. intros [= <-] _. simpl.
    split_and!; [done | done |]. right. exists e. eauto.
  - destruct stt_raises as [e|]; simpl.
    + rewrite lookup_insert_eq. by intros [= <-].
    + rewrite lookup_insert_eq. intros [= <-]. by rewrite Hka.
  - rewrite lookup_insert_eq. intros [= <-] _. simpl.
    split_and!; [done | done |]. right. exists e.
    split_and!; [done | right; by eexists | done | done].
  - unfold room_task_cleanup. case_decide as Hreg; simpl; rewrite lookup_insert_eq;
      intros [= <-] _; simpl; (split_and!; [done | done |]); left;
      exists pending; split_and!; try done.
    symmetry. apply delete_id.
    destruct (running_agents st !! rt_room_id T) eqn:E; [exfalso; eauto|done].
Qed.

(** X12.  An exception thrown into a room task that is connecting or sleeping
    takes it to [finally]; when [room.disconnect()] returns the task is
    over, the entry of its room is gone, and the exception is passed on
    exactly when [except Exception] did not catch it. *)
Lemma room_task_thrown_then_cleanup (st : State) (t : nat) (T : RoomTask)
    (e : exn) :
  room_tasks st !! t = Some T ->
  rt_pc T = AwaitConnect \/ rt_pc T = KeepAlive ->
  let st' := room_task_step t DisconnectReturned
               (room_task_step t (Thrown e) st) in
  running_agents st' !! rt_room_id T = None /\
  exists T', room_tasks st' !! t = Some T' /\
    rt_pc T' = Finished (if is_Exception e then None else Some e) /\
    calls (rt_room T') = calls (rt_room T) ++ [CallDisconnect].
Proof.
  intros HT Hpc.
  assert (E : room_task_step t (Thrown e) st
              = set_room_tasks <[t := room_task_raise e T]> st).
  { unfold room_task_step. rewrite HT. by destruct Hpc as [-> | ->]. }
  simpl. rewrite E. unfold room_task_step. simpl.
  rewrite lookup_insert_eq. simpl. unfold room_task_cleanup. simpl.
  case_decide as Hreg; simpl; rewrite insert_insert_eq, lookup_insert_eq.
  - split; [apply lookup_delete_eq|]. by eexists.
  - split; [|by eexists].
    destruct (running_agents st !! rt_room_id T) eqn:Er; [exfalso; eauto|done].
Qed.

(** A step leaves a room task that is over where it is, or is a step of
    that very task. *)
Lemma step_live_other (i : Input) (st : State) (t : nat) (T T' : RoomTask) :
  room_tasks st !! t = Some T -> live T = true ->
  room_tasks (step i st).1 !! t = Some T' -> live T' = false ->
  exists i', i = RoomTaskIn t i'.
Proof.
  intros HT Hl HT' Hdead.
  destruct i as [body|room|t0 i|t0 ev|k turn|k raised|g i]; simpl in *.
  - exfalso. unfold attach_transcriber in *.
    destruct (negb _); [simpl in *; congruence|].
    destruct (default PNone _); simpl in *; try congruence.
    case_decide; simpl in *; [congruence|].
    rewrite lookup_insert_ne in HT'; [congruence|].
    intros <-. pose proof (is_fresh (dom (room_tasks st))) as Hf.
    apply not_elem_of_dom in Hf. congruence.
  - congruence.
  - destruct (decide (t0 = t)) as [->|Hne]; [by eauto|].
    exfalso. revert HT'. unfold room_task_step.
    destruct (room_tasks st !! t0) as [T0|]; [|congruence].
    destruct (rt_pc T0), i; simpl; rewrite ?lookup_insert_ne by done;
      try congruence.
    + destruct stt_raises; simpl; rewrite ?lookup_insert_ne by done;
        [congruence|].
      pose proof (spawn_tracks_frame (rt_room_id T0)
                    (existing_audio_tracks participants) st) as [_ [_ E]].
      simpl in E. rewrite E. congruence.
    + unfold room_task_cleanup. case_decide; simpl;
        rewrite lookup_insert_ne by done; congruence.
  - exfalso. revert HT'. unfold room_event_step.
    destruct (room_tasks st !! t0) as [T0|] eqn:HT0; [|congruence].
    destruct (decide (t0 = t)) as [->|Hne].
    + assert (T0 = T) as -> by congruence.
      assert (Hkeep : forall f, live (set_rt_room f T) = true) by done.
      destruct ev; simpl; rewrite ?lookup_insert_eq;
        try (intros [= <-]; by rewrite Hkeep in Hdead).
      * destruct (on_track_subscribed _); [case_decide|]; simpl; congruence.
      * intros [= <-]. revert Hdead.
        destruct (on_participant_disconnected _); [case_decide|];
          unfold live in *; simpl; congruence.
    + destruct ev; simpl; rewrite ?lookup_insert_ne by done; try congruence.
      destruct (on_track_subscribed _); [case_decide|]; simpl; congruence.
  - exfalso. pose proof (track_task_step_same_registry k turn st) as [_ E].
    rewrite E in HT'. congruence.
  - exfalso. pose proof (track_task_end_frame k raised st) as [_ [_ E]].
    rewrite E in HT'. congruence.
  - exfalso. pose proof (gen_step_same_registry g i st) as [_ E].
    destruct (gen_step g i st). simpl in *. rewrite E in HT'. congruence.
Qed.

(** C6, as the code has it.  In every state the process can be in, a
    room task ends in one of three ways.  When [room.disconnect()] returns
    at line 209, whatever brought the task to [finally], the task has
    called [room.disconnect()] and lines 210-211 delete the entry of its
    room.  When an exception is thrown at that [await] (the call raises,
    or the task is cancelled there), the task ends with that exception and
    the registry is left as it is: the entry of the room stays, naming a
    task that is over.  The same holds when the task is cancelled before
    its first run, and then [room.disconnect()] was never called. *)
Theorem room_task_exit_paths (st : State) (i : Input) (t : nat)
    (T T' : RoomTask) :
  reachable st ->
  room_tasks st !! t = Some T -> live T = true ->
  room_tasks (step i st).1 !! t = Some T' -> live T' = false ->
  rt_room_id T' = rt_room_id T /\
  running_agents st !! rt_room_id T = Some t /\
  ((exists pending,
      i = RoomTaskIn t DisconnectReturned /\
      rt_pc T = AwaitDisconnect pending /\ rt_pc T' = Finished pending /\
      CallDisconnect ∈ calls (rt_room T') /\
      running_agents (step i st).1 !! rt_room_id T = None) \/
   (exists pending e,
      i = RoomTaskIn t (Thrown e) /\
      rt_pc T = AwaitDisconnect pending /\ rt_pc T' = Finished (Some e) /\
      CallDisconnect ∈ calls (rt_room T') /\
      running_agents (step i st).1 !! rt_room_id T = Some t) \/
   (exists e,
      i = RoomTaskIn t (Thrown e) /\
      rt_pc T = Scheduled /\ rt_pc T' = Finished (Some e) /\
      (CallDisconnect ∉ calls (rt_room T')) /\
      running_agents (step i st).1 !! rt_room_id T = Some t)).
Proof.
  intros Hreach HT Hl HT' Hdead.
  destruct (reachable_inv _ Hreach) as [_ Hreg].
  pose proof (reg_live _ _ Hreg t T HT Hl) as Hentry.
  pose proof (reg_task _ _ Hreg t T HT) as Hok. unfold task_ok in Hok.
  destruct (step_live_other i st t T T' HT Hl HT' Hdead) as [i' ->].
  simpl in *.
  destruct (room_task_step_finishes t i' st T T' HT Hl HT' Hdead)
    as (Hroom & Hcalls & [(pending & -> & Hpc & Hpc' & Hag)
                          | (e & -> & Hpc & Hpc' & Hag)]).
  - split_and!; [done | done |]. left. exists pending.
    rewrite Hpc in Hok. rewrite Hcalls, Hag.
    split_and!; [done | done | done | done | apply lookup_delete_eq].
  - split_and!; [done | done |]. rewrite Hag, Hcalls.
    destruct Hpc as [Hpc | [pending Hpc]]; rewrite Hpc in Hok.
    + right. right. exists e. split_and!; [done | done | done | | done].
      destruct Hok as [_ Hc]. intros Hin. by specialize (Hc _ Hin).
    + right. left. exists pending, e. by split_and!.
Qed.

(** An entry that names a task that is over stays where it is: the task
    takes no step, no other task of the room is live to delete the entry,
    and no attach for the room starts one. *)
Lemma step_stale (i : Input) (st : State) (r : string) (t : nat) :
  registry_inv st -> stale r t st -> stale r t (step i st).1.
Proof.
  intros Hreg (Hentry & T & HT & Hroom & Hdead). unfold stale.
  assert (Hsame : forall st', same_registry st st' -> stale r t st').
  { intros st' [E1 E2]. unfold stale. rewrite E1, E2. eauto. }
  destruct i as [body|room|t0 i|t0 ev|k turn|k raised|g i]; simpl.
  - unfold attach_transcriber. destruct (negb _); [by eauto|].
    destruct (default PNone _) as [| | | | r0 | |]; try by eauto.
    case_decide as Hr0; [by eauto|]. simpl.
    assert (r0 ≠ r) by (intros ->; apply Hr0; eauto).
    rewrite lookup_insert_ne by done. split; [done|]. exists T.
    rewrite lookup_insert_ne; [done|]. intros <-.
    pose proof (is_fresh (dom (room_tasks st))) as Hf.
    apply not_elem_of_dom in Hf. congruence.
  - by eauto.
  - unfold room_task_step. destruct (room_tasks st !! t0) as [T0|] eqn:HT0;
      [|by eauto].
    destruct (decide (t0 = t)) as [->|Hne].
    { assert (T0 = T) as -> by congruence.
      destruct (rt_pc T) eqn:Hpc;
        try (unfold live in Hdead; rewrite Hpc in Hdead; done).
      destruct i; (split; [done|]); by exists T. }
    assert (Hkeep : forall T1 st1,
              running_agents st1 = running_agents st ->
              room_tasks st1 = room_tasks st ->
              running_agents (set_room_tasks <[t0 := T1]> st1) !! r = Some t /\
              exists T2, room_tasks (set_room_tasks <[t0 := T1]> st1) !! t
                         = Some T2 /\ rt_room_id T2 = r /\ live T2 = false).
    { intros T1 st1 E1 E2. simpl. rewrite E1, E2. split; [done|].
      exists T. by rewrite lookup_insert_ne. }
    destruct (rt_pc T0) eqn:Hpc0, i; try (by eauto); try (by apply Hkeep).
    + destruct stt_raises; [by apply Hkeep|].
      pose proof (spawn_tracks_frame (rt_room_id T0)
                    (existing_audio_tracks participants) st) as [_ [E1 E2]].
      by apply Hkeep.
    + unfold room_task_cleanup. simpl.
      assert (Hl0 : live T0 = true) by (unfold live; by rewrite Hpc0).
      pose proof (reg_live _ _ Hreg t0 T0 HT0 Hl0) as Hentry0.
      assert (rt_room_id T0 ≠ r) by (intros E; rewrite E in Hentry0; congruence).
      case_decide; simpl; rewrite ?lookup_delete_ne by done;
        (split; [done|]); exists T; by rewrite lookup_insert_ne.
  - unfold room_event_step. destruct (room_tasks st !! t0) as [T0|] eqn:HT0;
      [|by eauto].
    assert (Hkeep : forall f,
              running_agents (set_room_tasks <[t0 := set_rt_room f T0]> st) !! r
                = Some t /\
              exists T2, room_tasks (set_room_tasks <[t0 := set_rt_room f T0]> st)
                           !! t = Some T2 /\ rt_room_id T2 = r /\ live T2 = false).
    { intros f. simpl. split; [done|].
      destruct (decide (t0 = t)) as [->|Hne].
      - assert (T0 = T) as -> by congruence.
        eexists. rewrite lookup_insert_eq. by split_and!.
      - exists T. by rewrite lookup_insert_ne. }
    destruct ev as [p|tr p|idn|s]; try (by apply Hkeep).
    + destruct (on_track_subscribed _); [case_decide|]; by eauto.
    + simpl. split; [done|].
      destruct (decide (t0 = t)) as [->|Hne]; [|exists T; by rewrite lookup_insert_ne].
      assert (T0 = T) as -> by congruence.
      eexists. rewrite lookup_insert_eq. split; [done|].
      destruct (on_participant_disconnected _); [case_decide|]; done.
  - apply Hsame. apply track_task_step_same_registry.
  - apply Hsame. by destruct (track_task_end_frame k raised st) as [_ ?].
  - pose proof (gen_step_same_registry g i st) as E.
    destruct (gen_step g i st). by apply Hsame.
Qed.

Lemma run_stale (inputs : list Input) (st : State) (r : string) (t : nat) :
  registry_inv st -> stale r t st -> stale r t (run inputs st).1.
Proof.
  revert st. induction inputs as [|i rest IH]; intros st Hreg Hs; [done|].
  rewrite run_cons. simpl. apply IH.
  - by apply step_registry_inv.
  - by apply step_stale.
Qed.

(** C1, as the code has it.  [attach_transcriber] tests whether the
    registry has an entry for the room, not whether the task it names is
    live.  An entry left behind by a room task that ended without reaching
    line 211 stays for ever: after any inputs of the process the entry is
    still there, no room task of that room is live, and an attach for the
    room still answers [already_running] and starts nothing. *)
Theorem attach_transcriber_stale_entry (st : State) (t : nat) (T : RoomTask)
    (body : gmap string pyval) (inputs : list Input) :
  reachable st ->
  room_tasks st !! t = Some T -> live T = false ->
  running_agents st !! rt_room_id T = Some t ->
  body !! "roomId" = Some (PStr (rt_room_id T)) -> rt_room_id T ≠ "" ->
  running_agents (run inputs st).1 !! rt_room_id T = Some t /\
  (forall t' T', room_tasks (run inputs st).1 !! t' = Some T' ->
                 rt_room_id T' = rt_room_id T -> live T' = false) /\
  attach_transcriber body (run inputs st).1
    = ((run inputs st).1, JSONResponse "already_running").
Proof.
  intros Hreach HT Hdead Hentry Hbody Hne.
  destruct (reachable_inv st Hreach) as [Hbus Hreg].
  destruct (run_inv inputs st (conj Hbus Hreg)) as [_ Hreg'].
  destruct (run_stale inputs st (rt_room_id T) t Hreg)
    as (Hentry' & T1 & HT1 & Hroom1 & Hdead1).
  { split; [done|]. by exists T. }
  split_and!; [done | |].
  - intros t' T' HT' Hroom'.
    destruct (live T') eqn:Hl'; [|done].
    pose proof (reg_live _ _ Hreg' t' T' HT' Hl') as E.
    rewrite Hroom', Hentry' in E. congruence.
  - unfold attach_transcriber. rewrite Hbody. simpl.
    assert (Htruthy : str_truthy (rt_room_id T) = true) by by apply str_truthy_spec.
    rewrite Htruthy. simpl. rewrite decide_True by eauto. done.
Qed.

(** *** The claim about the empty-room drain *)

Lemma room_task_step_other (t t' : nat) (i : RoomInput) (st : State) :
  t' ≠ t -> room_tasks (room_task_step t' i st) !! t = room_tasks st !! t.
Proof.
  intros Hne. unfold room_task_step.
  destruct (room_tasks st !! t') as [T0|]; [|done].
  destruct (rt_pc T0), i; simpl; rewrite ?lookup_insert_ne by done; try done.
  - destruct stt_raises; simpl; rewrite ?lookup_insert_ne by done; [done|].
    pose proof (spawn_tracks_frame (rt_room_id T0)
                  (existing_audio_tracks participants) st) as [_ [_ E]].
    simpl in E. by rewrite E.
  - unfold room_task_cleanup. case_decide; simpl;
      by rewrite lookup_insert_ne by done.
Qed.

Lemma room_event_step_other (t t' : nat) (ev : RoomEvent) (st : State) :
  t' ≠ t -> room_tasks (room_event_step t' ev st) !! t = room_tasks st !! t.
Proof.
  intros Hne. unfold room_event_step.
  destruct (room_tasks st !! t') as [T0|]; [|done].
  destruct ev; simpl; rewrite ?lookup_insert_ne by done; try done.
  destruct (on_track_subscribed _); [case_decide|]; done.
Qed.

(** A step other than the delivery of [participant_disconnected] to the
    room of task [t] leaves the calls of that room's empty-room drain as
    they were. *)
Lemma step_drains (i : Input) (st : State) (t : nat) (T0 T1 : RoomTask) :
  room_tasks st !! t = Some T0 -> room_tasks (step i st).1 !! t = Some T1 ->
  drains T1 ≠ drains T0 ->
  exists idn, i = RoomEventIn t (ParticipantDisconnected idn).
Proof.
  intros HT0 HT1 Hd.
  destruct i as [body|roomId|t0 i|t0 ev|k turn|k raised|g i]; simpl in *.
  - exfalso. unfold attach_transcriber in *.
    destruct (negb _); [simpl in *; congruence|].
    destruct (default PNone _); simpl in *; try congruence.
    case_decide; simpl in *; [congruence|].
    rewrite lookup_insert_ne in HT1; [congruence|].
    intros <-. pose proof (is_fresh (dom (room_tasks st))) as Hf.
    apply not_elem_of_dom in Hf. congruence.
  - congruence.
  - exfalso. destruct (decide (t0 = t)) as [->|Hne];
      [|rewrite room_task_step_other in HT1 by done; congruence].
    revert HT1. unfold room_task_step. rewrite HT0.
    assert (Hka : forall T, drains (keep_alive T) = drains T
                            \/ calls (rt_room (keep_alive T))
                               = calls (rt_room T) ++ [CallDisconnect]).
    { intros T. unfold keep_alive. case_decide; [by left | by right]. }
    assert (Happ : forall T c, c ≠ SpawnDisconnect ->
              calls (rt_room T1) = calls (rt_room T) ++ [c] ->
              drains T1 = drains T).
    { intros T c Hc E. unfold drains. rewrite E, filter_app, length_app. simpl.
      rewrite filter_cons_False by congruence. simpl. lia. }
    destruct (rt_pc T0), i; simpl; rewrite ?lookup_insert_eq;
      try (intros [= <-]; done); try congruence.
    + intros [= <-]. apply Hd. by apply (Happ T0 CallConnect).
    + destruct stt_raises; simpl.
      * rewrite lookup_insert_eq. intros [= <-]. apply Hd.
        by apply (Happ T0 CallDisconnect).
      * rewrite lookup_insert_eq. intros [= <-].
        match goal with
        | _ : context [keep_alive ?T] |- _ => destruct (Hka T) as [E|E]
        end; [by rewrite E in Hd|].
        apply Hd. eapply Happ; [|exact E]; done.
    + intros [= <-]. apply Hd. by apply (Happ T0 CallDisconnect).
    + intros [= <-]. destruct (Hka T0) as [E|E]; [by rewrite E in Hd|].
      apply Hd. eapply Happ; [|exact E]; done.
    + intros [= <-]. apply Hd. by apply (Happ T0 CallDisconnect).
    + unfold room_task_cleanup. case_decide; simpl; rewrite lookup_insert_eq;
        by intros [= <-].
  - destruct (decide (t0 = t)) as [->|Hne];
      [|rewrite room_event_step_other in HT1 by done; congruence].
    destruct ev as [p|tr p|idn|s]; [exfalso|exfalso|by eauto|exfalso];
      revert HT1; unfold room_event_step; rewrite HT0; simpl;
      rewrite ?lookup_insert_eq; try (by intros [= <-]).
    destruct (on_track_subscribed _); [case_decide|]; simpl; congruence.
  - exfalso. pose proof (track_task_step_same_registry k turn st) as [_ E].
    rewrite E in HT1. congruence.
  - exfalso. pose proof (track_task_end_frame k raised st) as [_ [_ E]].
    rewrite E in HT1. congruence.
  - exfalso. pose proof (gen_step_same_registry g i st) as [_ E].
    destruct (gen_step g i st). simpl in *. rewrite E in HT1. congruence.
Qed.

Lemma step_sleeping (i : Input) (st : State) (t : nat) :
  quiet t i -> sleeping t st -> sleeping t (step i st).1.
Proof.
  intros Hq (T & HT & Hpc & Hconn & Hdr & Hnd). unfold sleeping.
  destruct i as [body|roomId|t0 i|t0 ev|k turn|k raised|g i]; simpl in *.
  - exists T. split; [|done]. unfold attach_transcriber.
    destruct (negb _); [done|]. destruct (default PNone _); try done.
    case_decide; [done|]. simpl. rewrite lookup_insert_ne; [done|].
    intros <-. pose proof (is_fresh (dom (room_tasks st))) as Hf.
    apply not_elem_of_dom in Hf. congruence.
  - by exists T.
  - destruct (decide (t0 = t)) as [->|Hne];
      [|exists T; by rewrite room_task_step_other].
    unfold room_task_step. rewrite HT, Hpc.
    destruct i; try (by exists T).
    unfold keep_alive. rewrite decide_True by done. simpl.
    eexists. rewrite lookup_insert_eq. done.
  - destruct (decide (t0 = t)) as [->|Hne];
      [|exists T; by rewrite room_event_step_other].
    unfold room_event_step. rewrite HT.
    destruct ev as [p|tr p|idn|s]; simpl.
    + eexists. rewrite lookup_insert_eq. done.
    + exists T. split; [|done].
      destruct (on_track_subscribed _); [case_decide|]; done.
    + done.
    + destruct Hq as [? | ->]; [done|]. eexists. rewrite lookup_insert_eq. done.
  - exists T. split; [|done].
    pose proof (track_task_step_same_registry k turn st) as [_ E].
    by rewrite E.
  - exists T. split; [|done].
    pose proof (track_task_end_frame k raised st) as [_ [_ E]]. by rewrite E.
  - exists T. split; [|done].
    pose proof (gen_step_same_registry g i st) as [_ E].
    destruct (gen_step g i st). simpl in *. by rewrite E.
Qed.

Lemma run_sleeping (inputs : list Input) (st : State) (t : nat) :
  Forall (quiet t) inputs -> sleeping t st -> sleeping t (run inputs st).1.
Proof.
  revert st. induction inputs as [|i rest IH]; intros st Hall Hs; [done|].
  apply Forall_cons in Hall as [Hq Hall]. rewrite run_cons. simpl.
  apply IH; [done|]. by apply step_sleeping.
Qed.

Lemma drains_zero (T : RoomTask) :
  drains T = 0 <-> SpawnDisconnect ∉ calls (rt_room T).
Proof.
  unfold drains. induction (calls (rt_room T)) as [|c l IH].
  - split; [intros _; apply not_elem_of_nil | done].
  - rewrite not_elem_of_cons. destruct (decide (c = SpawnDisconnect)) as [->|Hc].
    + rewrite filter_cons_True by done. simpl. split; [lia | tauto].
    + rewrite filter_cons_False by done. rewrite IH. split; [auto | tauto].
Qed.

(** C9.  Only the delivery of [participant_disconnected] starts the
    empty-room drain.  So a room task that connects to a room without
    remote participants and is never told that a participant left starts
    no drain: as long as its connection stays up and no awaited call
    fails, it stays in its keep-alive loop and never calls
    [room.disconnect()], whatever else happens in the process. *)
Theorem keep_alive_without_departures (st : State) (t : nat) (T : RoomTask)
    (inputs : list Input) :
  reachable st -> room_tasks st !! t = Some T -> rt_pc T = AwaitConnect ->
  Forall (quiet t) inputs ->
  (forall i st0 T0 T1,
     room_tasks st0 !! t = Some T0 -> room_tasks (step i st0).1 !! t = Some T1 ->
     drains T1 ≠ drains T0 ->
     exists idn, i = RoomEventIn t (ParticipantDisconnected idn)) /\
  exists T',
    room_tasks (run (RoomTaskIn t (ConnectReturned ∅ None) :: inputs) st).1 !! t
      = Some T' /\
    rt_pc T' = KeepAlive /\
    (SpawnDisconnect ∉ calls (rt_room T')) /\
    (CallDisconnect ∉ calls (rt_room T')).
Proof.
  intros Hreach HT Hpc Hall. split.
  { intros i st0 T0 T1. apply step_drains. }
  destruct (reachable_inv st Hreach) as [_ Hreg].
  pose proof (reg_task _ _ Hreg t T HT) as Hok. unfold task_ok in Hok.
  rewrite Hpc in Hok. destruct Hok as [_ Hcalls].
  assert (Hstart : sleeping t (step (RoomTaskIn t (ConnectReturned ∅ None)) st).1).
  { simpl. unfold room_task_step. rewrite HT, Hpc. simpl.
    unfold existing_audio_tracks. rewrite map_to_list_empty. simpl.
    unfold keep_alive. simpl. unfold sleeping. simpl.
    eexists. rewrite lookup_insert_eq. split_and!; [done | done | done | |].
    - apply drains_zero. simpl. intros Hin. by specialize (Hcalls _ Hin).
    - simpl. intros Hin. by specialize (Hcalls _ Hin). }
  rewrite run_cons. simpl fst.
  destruct (run_sleeping inputs _ t Hall Hstart)
    as (T' & HT' & Hpc' & _ & Hdr & Hnd).
  exists T'. split_and!; [done | done | by apply drains_zero | done].
Qed.

(** *** The claim about the subscription endpoint *)

Lemma silent_same_bus g room st st' :
  same_bus st st' -> silent g room st -> silent g room st'.
Proof. intros (_ & E2 & E3). unfold silent. by rewrite E2, E3. Qed.

Lemma event_generator_finally_frame room q st st' :
  event_generator_finally room q st = Return st' ->
  queue_objs st' = queue_objs st /\ streams st' = streams st.
Proof.
  unfold event_generator_finally.
  destruct (transcript_queues st !! room) as [l|]; [|by intros [= <-]].
  destruct (list_remove q l) as [[|]|]; simpl; by intros [= <-].
Qed.

Lemma gen_leave_frame g G q pending out st :
  queue_objs (gen_leave g G q pending out st).1 = queue_objs st /\
  exists e, streams (gen_leave g G q pending out st).1
            = <[g := set_g_pc (GenClosed e) G]> (streams st).
Proof.
  unfold gen_leave.
  destruct (event_generator_finally (g_roomId G) q st) as [st'|e] eqn:E; simpl.
  - destruct (event_generator_finally_frame _ _ _ _ E) as [-> ->]. eauto.
  - eauto.
Qed.

(** The test of the timeout of line 289, read as an inequality. *)
Lemma keepalive_timeout_reached (waited : Q) :
  Qle_bool keepalive_timeout waited = true <-> (15 <= waited)%Q.
Proof. apply Qle_bool_iff. Qed.

Lemma keepalive_timeout_early (waited : Q) :
  Qle_bool keepalive_timeout waited = false <-> (waited < 15)%Q.
Proof.
  split.
  - intros E. apply Qnot_le_lt. intros Hle.
    apply keepalive_timeout_reached in Hle. congruence.
  - intros Hlt. destruct (Qle_bool keepalive_timeout waited) eqn:E; [|done].
    apply keepalive_timeout_reached in E. by apply Qlt_not_le in Hlt.
Qed.

Lemma gen_step_other (g g' : nat) (i : GenInput) (st : State) (G : Generator) :
  bus_inv st -> g' ≠ g -> streams st !! g = Some G ->
  streams (gen_step g' i st).1 !! g = Some G /\
  forall q, gen_queue (g_pc G) = Some q ->
    queue_objs (gen_step g' i st).1 !! q = queue_objs st !! q.
Proof.
  intros Hbus Hne HG. unfold gen_step.
  destruct (streams st !! g') as [G'|] eqn:HG'; [|done].
  assert (Hleave : forall q' pending out,
            streams (gen_leave g' G' q' pending out st).1 !! g = Some G /\
            forall q, gen_queue (g_pc G) = Some q ->
              queue_objs (gen_leave g' G' q' pending out st).1 !! q
                = queue_objs st !! q).
  { intros q' pending out.
    destruct (gen_leave_frame g' G' q' pending out st) as [-> [e ->]].
    by rewrite lookup_insert_ne. }
  destruct (g_pc G') eqn:Hpc'; destruct i as [| [|] | waited | | e];
    try done; try apply Hleave; try (simpl; by rewrite lookup_insert_ne).
  - rewrite event_generator_subscribe_spec. simpl.
    rewrite lookup_insert_ne by done. split; [done|]. intros q Hq.
    destruct (bus_listed _ _ _ Hbus g G q HG Hq) as [[Q HQ] _].
    rewrite lookup_insert_ne; [done|]. intros E.
    pose proof (is_fresh (dom (queue_objs st))) as Hf.
    apply not_elem_of_dom in Hf. rewrite E in Hf. congruence.
  - assert (Hwait :
      streams (if Qle_bool keepalive_timeout waited
               then (set_streams <[g' := set_g_pc (GenYielded q) G']> st,
                     Yield keepalive_chunk)
               else (st, Suspended)).1 !! g = Some G /\
      forall q0, gen_queue (g_pc G) = Some q0 ->
        queue_objs (if Qle_bool keepalive_timeout waited
                    then (set_streams <[g' := set_g_pc (GenYielded q) G']> st,
                          Yield keepalive_chunk)
                    else (st, Suspended)).1 !! q0 = queue_objs st !! q0).
    { destruct (Qle_bool _ _); [|done]. simpl. by rewrite lookup_insert_ne. }
    destruct (queue_objs st !! q) as [Q'|] eqn:HQ'; simpl; [|done].
    destruct (items Q') as [|data rest]; simpl; [done|].
    rewrite lookup_insert_ne by done.
    split; [done|]. intros q0 Hq0. rewrite lookup_alter_ne; [done|].
    intros <-. apply Hne.
    apply (bus_own_queue _ _ _ Hbus g' g G' G q); [done | done | | done].
    by rewrite Hpc'.
Qed.

(** A step of a generator with nothing in its queue leaves it so, and
    yields nothing but the keepalive comment, at the end of a wait of
    [keepalive_timeout] seconds or more. *)
Lemma gen_step_silent (g : nat) (i : GenInput) (room : string) (st : State) :
  silent g room st ->
  silent g room (gen_step g i st).1 /\
  forall chunk, (gen_step g i st).2 = Yield chunk ->
    chunk = keepalive_chunk /\
    exists waited, i = WaitOver waited /\ (15 <= waited)%Q.
Proof.
  intros (G & HG & Hr & Hq). unfold gen_step. rewrite HG.
  assert (Hleave : forall q pending out,
            silent g room (gen_leave g G q pending out st).1 /\
            forall chunk, (gen_leave g G q pending out st).2 = Yield chunk ->
                          out = Yield chunk).
  { intros q pending out.
    destruct (gen_leave_frame g G q pending out st) as [Eq [e Es]].
    split.
    - eexists. rewrite Es, lookup_insert_eq. by split_and!.
    - unfold gen_leave. by destruct (event_generator_finally _ _ _). }
  assert (Hre : forall pc, gen_queue pc = gen_queue (g_pc G) ->
            silent g room (set_streams <[g := set_g_pc pc G]> st)).
  { intros pc E. eexists. simpl. rewrite lookup_insert_eq.
    split_and!; [done | done |]. simpl. by rewrite E. }
  assert (Hst : silent g room st) by (by exists G).
  destruct (g_pc G) eqn:Hpc; destruct i as [| [|] | waited | | e];
    try (split; [done | done]);
    try (split; [by apply Hre | done]);
    try (match goal with
         | |- context [gen_leave g G ?q ?pending ?out st] =>
             destruct (Hleave q pending out) as [? Hout]; split; [done|];
             intros chunk Hc; by specialize (Hout _ Hc)
         end).
  - rewrite event_generator_subscribe_spec. simpl. split; [|done].
    unfold silent. simpl. eexists. rewrite lookup_insert_eq. split_and!; [done | done |].
    simpl. intros q [= <-]. rewrite lookup_insert_eq. by eexists.
  - destruct (Hq q eq_refl) as (Q & HQ & HI). rewrite HQ. simpl. rewrite HI.
    destruct (Qle_bool keepalive_timeout waited) eqn:E; simpl; [|done].
    split.
    + unfold silent. simpl. eexists. rewrite lookup_insert_eq.
      split_and!; [done | done |]. simpl. intros q' [= <-]. eauto.
    + intros chunk [= <-]. split; [done|]. exists waited.
      split; [done|]. by apply keepalive_timeout_reached.
Qed.

Lemma step_silent (i : Input) (st : State) (g : nat) (room : string) :
  bus_inv st -> silent g room st ->
  (forall m, (step i st).2 = OutPublished m -> roomId m ≠ room) ->
  silent g room (step i st).1 /\
  forall chunk, (step i st).2 = OutGen g (Yield chunk) ->
    chunk = keepalive_chunk /\
    exists waited, i = GenIn g (WaitOver waited) /\ (15 <= waited)%Q.
Proof.
  intros Hbus Hs Hpub.
  destruct i as [body|r|t i|t ev|k turn|k raised|g' i]; simpl in *.
  - pose proof (attach_transcriber_same_bus body st) as Hsame.
    destruct (attach_transcriber body st). simpl in *.
    split; [by apply (silent_same_bus _ _ st)|done].
  - split; [|done]. destruct Hs as (G & HG & Hr & Hq).
    exists G. simpl. rewrite lookup_insert_ne; [done|].
    intros <-. pose proof (is_fresh (dom (streams st))) as Hf.
    apply not_elem_of_dom in Hf. congruence.
  - split; [|done].
    apply (silent_same_bus _ _ st); [apply room_task_step_same_bus | done].
  - split; [|done].
    apply (silent_same_bus _ _ st); [apply room_event_step_same_bus | done].
  - revert Hpub. unfold track_task_step.
    destruct (track_tasks st !! k) as [K|]; [|done].
    destruct (tt_pc K); try done.
    rewrite (handle_audio_track_body_spec _ _ _ _ Hbus).
    destruct (textless_final (turn_event turn)); [done|].
    destruct (nonempty_final (turn_event turn)); [|done].
    destruct (transcript_of _ _ _) as [m|] eqn:Etr; [|done]. simpl.
    intros Hpub. specialize (Hpub m eq_refl). split; [|done].
    assert (Hm : roomId m = tt_room_id K).
    { unfold transcript_of in Etr. destruct (alternatives _); [done|].
      by injection Etr as <-. }
    destruct (broadcast_transcript_spec (tt_room_id K) m st Hbus)
      as (objs & -> & Hlk & _). simpl.
    destruct Hs as (G & HG & Hr & Hq). exists G. split_and!; [done | done |].
    simpl. intros q Hgq. rewrite Hlk. rewrite decide_False; [by apply Hq|].
    intros Hin.
    destruct (transcript_queues st !! tt_room_id K) as [l|] eqn:Hl;
      [|by apply elem_of_nil in Hin].
    destruct (bus_owner _ _ _ Hbus _ _ _ Hl Hin) as (g1 & G1 & HG1 & Hr1 & Hq1).
    assert (g1 = g) as -> by by apply (bus_own_queue _ _ _ Hbus g1 g G1 G q).
    simplify_eq. congruence.
  - split; [|done]. pose proof (track_task_end_frame k raised st) as [Hsame _].
    by apply (silent_same_bus _ _ st).
  - destruct (decide (g' = g)) as [->|Hne].
    + destruct (gen_step_silent g i room st Hs) as [Hs' Hc].
      destruct (gen_step g i st) as [st' o]. simpl in *.
      split; [done|]. intros chunk [= ->].
      destruct (Hc chunk eq_refl) as (-> & waited & -> & Hw). eauto.
    + destruct Hs as (G & HG & Hr & Hq).
      destruct (gen_step_other g g' i st G Hbus Hne HG) as [HG' Hq'].
      destruct (gen_step g' i st) as [st' o]. simpl in *.
      split; [|by intros chunk [= ? _]].
      exists G. split_and!; [done | done |]. intros q Hgq.
      rewrite Hq' by done. by apply Hq.
Qed.

Lemma run_silent (inputs : list Input) (st : State) (g : nat) (room : string) :
  bus_inv st -> silent g room st ->
  (forall m, OutPublished m ∈ (run inputs st).2 -> roomId m ≠ room) ->
  bus_inv (run inputs st).1 /\ silent g room (run inputs st).1 /\
  forall i chunk, (i, OutGen g (Yield chunk)) ∈ zip inputs (run inputs st).2 ->
    chunk = keepalive_chunk /\
    exists waited, i = GenIn g (WaitOver waited) /\ (15 <= waited)%Q.
Proof.
  revert st. induction inputs as [|i rest IH]; intros st Hbus Hs Hpub.
  - simpl. split_and!; [done | done |]. intros i chunk Hin.
    by apply elem_of_nil in Hin.
  - revert Hpub. rewrite run_cons. cbn [fst snd zip zip_with]. intros Hpub.
    destruct (step_silent i st g room Hbus Hs) as [Hs' Hc].
    { intros m Hm. apply Hpub. rewrite Hm. apply list_elem_of_here. }
    destruct (IH (step i st).1) as (Hb2 & Hs2 & Hz);
      [by apply step_bus_inv | done | |].
    { intros m Hm. apply Hpub. by apply list_elem_of_further. }
    split_and!; [done | done |]. intros i0 chunk.
    rewrite elem_of_cons. intros [[= -> E]|Hin]; [by apply Hc | by apply Hz].
Qed.

Lemma gen_step_created g room st :
  at_pc g room GenCreated st ->
  (gen_step g Next st).2 = Suspended /\
  exists q, at_pc g room (GenAwaitDisconnected q) (gen_step g Next st).1.
Proof.
  intros (G & HG & Hr & Hpc & _). unfold gen_step. rewrite HG, Hpc.
  rewrite event_generator_subscribe_spec. simpl. split; [done|].
  eexists. unfold at_pc. simpl. eexists. rewrite lookup_insert_eq.
  split_and!; [done | done | done |]. intros q [= <-].
  rewrite lookup_insert_eq. by eexists.
Qed.

Lemma gen_step_yielded g room q st :
  at_pc g room (GenYielded q) st ->
  (gen_step g Next st).2 = Suspended /\
  at_pc g room (GenAwaitDisconnected q) (gen_step g Next st).1.
Proof.
  intros (G & HG & Hr & Hpc & Hq). unfold gen_step. rewrite HG, Hpc. simpl.
  split; [done|]. unfold at_pc. simpl. eexists. rewrite lookup_insert_eq.
  by split_and!.
Qed.

Lemma gen_step_connected g room q st :
  at_pc g room (GenAwaitDisconnected q) st ->
  (gen_step g (IsDisconnected false) st).2 = Suspended /\
  at_pc g room (GenAwaitItem q) (gen_step g (IsDisconnected false) st).1.
Proof.
  intros (G & HG & Hr & Hpc & Hq). unfold gen_step. rewrite HG, Hpc. simpl.
  split; [done|]. unfold at_pc. simpl. eexists. rewrite lookup_insert_eq.
  by split_and!.
Qed.

Lemma gen_step_timeout g room q waited st :
  at_pc g room (GenAwaitItem q) st -> (15 <= waited)%Q ->
  (gen_step g (WaitOver waited) st).2 = Yield keepalive_chunk /\
  at_pc g room (GenYielded q) (gen_step g (WaitOver waited) st).1.
Proof.
  intros (G & HG & Hr & Hpc & Hq) Hw. unfold gen_step. rewrite HG, Hpc.
  destruct (Hq q eq_refl) as (Q & HQ & HI). rewrite HQ. simpl. rewrite HI.
  rewrite (proj2 (keepalive_timeout_reached waited) Hw).
  simpl. split; [done|]. unfold at_pc. simpl. eexists.
  rewrite lookup_insert_eq. split_and!; [done | done | done |].
  intros q' [= <-]. eauto.
Qed.

(** Before the timeout a generator with nothing in its queue stays where
    it is. *)
Lemma gen_step_early g room waited st :
  silent g room st -> (waited < 15)%Q ->
  gen_step g (WaitOver waited) st = (st, Suspended).
Proof.
  intros (G & HG & Hr & Hq) Hw. unfold gen_step. rewrite HG.
  destruct (g_pc G) eqn:Hpc; try done.
  destruct (Hq q eq_refl) as (Q & HQ & HI). rewrite HQ. simpl. rewrite HI.
  by rewrite (proj2 (keepalive_timeout_early waited) Hw).
Qed.

Lemma step_GenIn g i st :
  step (GenIn g i) st = ((gen_step g i st).1, OutGen g (gen_step g i st).2).
Proof. simpl. by destruct (gen_step g i st). Qed.

Lemma pull_ready (g : nat) (room : string) (waited : Q) (st : State) :
  ready g room st -> (15 <= waited)%Q ->
  (run (pull g waited) st).2 =
    [OutGen g Suspended; OutGen g Suspended; OutGen g (Yield keepalive_chunk)] /\
  ready g room (run (pull g waited) st).1.
Proof.
  intros Hready Hw.
  assert (exists q, (gen_step g Next st).2 = Suspended /\
            at_pc g room (GenAwaitDisconnected q) (gen_step g Next st).1)
    as (q & Ho1 & H1).
  { destruct Hready as [Hc | [q Hy]].
    - destruct (gen_step_created g room st Hc) as [? [q ?]]. eauto.
    - destruct (gen_step_yielded g room q st Hy). eauto. }
  destruct (gen_step_connected g room q _ H1) as [Ho2 H2].
  destruct (gen_step_timeout g room q waited _ H2 Hw) as [Ho3 H3].
  unfold pull. rewrite !run_cons, !step_GenIn. simpl.
  rewrite Ho1, Ho2, Ho3. split; [done|]. right. eauto.
Qed.

Lemma run_app (l1 l2 : list Input) (st : State) :
  run (l1 ++ l2) st =
    ((run l2 (run l1 st).1).1, (run l1 st).2 ++ (run l2 (run l1 st).1).2).
Proof.
  revert st. induction l1 as [|i l1 IH]; intros st.
  - simpl. by destruct (run l2 st).
  - rewrite <- app_comm_cons, !run_cons. simpl. by rewrite IH.
Qed.

Lemma pulls_ready (waits : list Q) (g : nat) (room : string) (st : State) :
  ready g room st -> Forall (fun waited => (15 <= waited)%Q) waits ->
  (run (concat (pull g <$> waits)) st).2 =
    concat (replicate (length waits)
              [OutGen g Suspended; OutGen g Suspended;
               OutGen g (Yield keepalive_chunk)]).
Proof.
  revert st. induction waits as [|waited waits IH]; intros st Hready Hall;
    [done|].
  apply Forall_cons in Hall as [Hw Hall].
  destruct (pull_ready g room waited st Hready Hw) as [Hout Hready'].
  change (concat (pull g <$> waited :: waits))
    with (pull g waited ++ concat (pull g <$> waits)).
  rewrite run_app. cbn -[run pull concat replicate fmap].
  rewrite Hout, (IH _ Hready' Hall). done.
Qed.

(** C10.  Opening a stream looks nowhere near the registry: for every
    room, with or without a room task, the generator is made, and its first
    turn allocates a new empty queue and appends it to the list of the
    room, creating the list when the room had none.  From then on, whatever
    the rest of the process does, as long as nothing is published for that
    room: every chunk the generator yields is the keepalive comment, and
    each of them ends a wait on the queue that lasted 15 seconds or more;
    a wait looked at before 15 seconds yields nothing and goes on; and a
    client that stays connected gets exactly one keepalive for each wait
    of 15 seconds. *)
Theorem transcript_stream_keepalives (room : string) (st : State) :
  reachable st ->
  let g := fresh (dom (streams st)) in
  let q := fresh (dom (queue_objs st)) in
  let st1 := set_streams <[g := {| g_roomId := room; g_pc := GenCreated |}]> st in
  streams st !! g = None /\ queue_objs st !! q = None /\
  transcript_stream room st = (st1, g) /\
  gen_step g Next st1 =
    (set_streams <[g := {| g_roomId := room; g_pc := GenAwaitDisconnected q |}]>
       (set_transcript_queues
          (fun tq => <[room := default [] (tq !! room) ++ [q]]> tq)
          (set_queue_objs <[q := Queue_new]> st1)),
     Suspended) /\
  (forall inputs,
     (forall m, OutPublished m ∈ (run inputs st1).2 ->
                roomId m ≠ room) ->
     (forall i chunk,
        (i, OutGen g (Yield chunk)) ∈ zip inputs (run inputs st1).2 ->
        chunk = keepalive_chunk /\
        exists waited, i = GenIn g (WaitOver waited) /\ (15 <= waited)%Q) /\
     (forall waited, (waited < 15)%Q ->
        gen_step g (WaitOver waited) (run inputs st1).1
          = ((run inputs st1).1, Suspended))) /\
  (forall waits,
     Forall (fun waited => (15 <= waited)%Q) waits ->
     (run (concat (pull g <$> waits)) st1).2 =
       concat (replicate (length waits)
                 [OutGen g Suspended; OutGen g Suspended;
                  OutGen g (Yield keepalive_chunk)])).
Proof.
  intros Hreach g q st1.
  assert (Hg : streams st !! g = None).
  { apply not_elem_of_dom. apply is_fresh. }
  assert (Hq : queue_objs st !! q = None).
  { apply not_elem_of_dom. apply is_fresh. }
  assert (HG : streams st1 !! g = Some {| g_roomId := room; g_pc := GenCreated |}).
  { unfold st1. simpl. by rewrite lookup_insert_eq. }
  assert (Hbus : bus_inv st1).
  { destruct (reachable_inv st Hreach) as [Hbus _].
    apply (step_bus_inv (GetTranscriptStream room) st Hbus). }
  split_and!; [done | done | done | | |].
  - unfold gen_step. rewrite HG. cbn [g_pc g_roomId].
    rewrite event_generator_subscribe_spec. simpl.
    reflexivity.
  - intros inputs Hpub.
    destruct (run_silent inputs st1 g room Hbus) as (_ & Hs & Hz); [|done|].
    { eexists. split_and!; [done | done | done]. }
    split; [done|]. intros waited Hw. by apply (gen_step_early g room).
  - intros waits. apply (pulls_ready waits g room). left.
    eexists. split_and!; [done | done | done | done].
Qed.

(** Leaving is the [finally] block, whichever way the generator leaves. *)
Lemma gen_step_leaves (g : nat) (G : Generator) (q : nat) (i : GenInput)
    (st : State) :
  streams st !! g = Some G -> gen_queue (g_pc G) = Some q ->
  leaves (g_pc G) i = true ->
  gen_step g i st = gen_leave g G q (thrown i) (left_with i) st.
Proof.
  intros HG Hq Hi. unfold gen_step. rewrite HG.
  destruct (g_pc G); destruct i as [| [|] | waited | | e]; simpl in *;
    try done; by simplify_eq.
Qed.

(** A generator that is over takes no step: [__anext__] raises
    [StopAsyncIteration], [aclose] returns, and nothing changes. *)
Lemma gen_step_closed (g : nat) (G : Generator) (raised : option exn)
    (i : GenInput) (st : State) :
  streams st !! g = Some G -> g_pc G = GenClosed raised ->
  gen_step g i st =
    (st, match i with
         | Next => StopAsyncIteration
         | Close => Closed
         | _ => Suspended
         end).
Proof.
  intros HG Hpc. unfold gen_step. rewrite HG, Hpc. by destruct i as [| [|] | | |].
Qed.

(** C5.  There is no [unsubscribe] to call: a channel is unsubscribed by
    the [finally] block of its generator, which runs when the generator
    leaves its loop, once.  In every state the process can be in, however
    the generator leaves, that removes its queue from the list of its
    room, where it was listed once, and deletes the entry of the room when
    the list is then empty; it raises nothing of its own.  Closing the
    generator a second time, or any later request to it, is a no-op: the
    state stays as it is, nothing is removed again and no error comes
    out. *)
Theorem event_generator_unsubscribes_once (st : State) (g : nat)
    (G : Generator) (q : nat) (i : GenInput) :
  reachable st -> streams st !! g = Some G -> gen_queue (g_pc G) = Some q ->
  leaves (g_pc G) i = true ->
  exists l1 l2,
    transcript_queues st !! g_roomId G = Some (l1 ++ q :: l2) /\
    (q ∉ l1 ++ l2) /\
    transcript_queues (gen_step g i st).1 =
      (if decide (l1 ++ l2 = [])
       then delete (g_roomId G) (transcript_queues st)
       else <[g_roomId G := l1 ++ l2]> (transcript_queues st)) /\
    (gen_step g i st).2 = left_with i /\
    gen_step g Close (gen_step g i st).1 = ((gen_step g i st).1, Closed) /\
    (forall i', (gen_step g i' (gen_step g i st).1).1 = (gen_step g i st).1 /\
                forall e, (gen_step g i' (gen_step g i st).1).2 ≠ GenRaised e).
Proof.
  intros Hreach HG Hq Hi. destruct (reachable_inv st Hreach) as [Hbus _].
  rewrite (gen_step_leaves g G q i st HG Hq Hi).
  destruct (event_generator_finally_spec g G q (thrown i) st Hbus HG Hq)
    as (l1 & l2 & Hroom & Hfin & Hok).
  exists l1, l2. unfold gen_leave. rewrite Hfin. cbn [fst snd].
  set (st' := set_streams _ _).
  assert (HG' : streams st' !! g = Some (set_g_pc (GenClosed (thrown i)) G)).
  { unfold st'. simpl. by rewrite lookup_insert_eq. }
  split_and!; [done | | by unfold st'; simpl; case_decide | done | |].
  - destruct (bus_lists _ _ _ Hbus _ _ Hroom) as [_ Hnd].
    apply NoDup_app in Hnd as (_ & Hdisj & Hnd2).
    apply NoDup_cons in Hnd2 as [Hl2 _].
    rewrite elem_of_app. intros [Hin|Hin]; [|done].
    apply (Hdisj q Hin). apply list_elem_of_here.
  - by rewrite (gen_step_closed g _ (thrown i) Close st' HG' eq_refl).
  - intros i'. rewrite (gen_step_closed g _ (thrown i) i' st' HG' eq_refl).
    split; [done|]. intros e. by destruct i' as [| [|] | | |].
Qed.

End with_json.

(** *** The claims on sample runs *)

Lemma reachable_run (J : Json) (inputs : list Input) :
  @reachable J (@run J inputs init).1.
Proof. by exists inputs. Qed.

(** C8.  The timestamp of a published message is meant to be the
    wall-clock time in ISO 8601 format.  [handle_audio_track] does that;
    [TranscriberAgent.transcribe_track] puts the reading of the event
    loop's clock there instead, a number that no [isoformat] produces. *)
Theorem transcribe_track_timestamp_is_loop_time :
  (exists message st',
     @TranscriberAgent.transcribe_track_body table_json "r1" ann (FFin 12345 0)
       (final "hello") one_viewer = Published message st' None /\
     timestamp message = PFloat (FFin 12345 0) /\
     forall now, timestamp message ≠ PStr (isoformat now)) /\
  (exists message st',
     @handle_audio_track_body table_json ann "r1" noon (final "hello")
       one_viewer = Published message st' None /\
     timestamp message = PStr "2024-05-17T12:00:09").
Proof.
  split.
  - eexists _, _. split_and!; [vm_compute; reflexivity | reflexivity | done].
  - eexists _, _. split; [vm_compute; reflexivity | reflexivity].
Qed.

Lemma event_generator_unsubscribes_once_witness :
  transcript_queues
    (@gen_step table_json 0 (IsDisconnected true) one_viewer).1 !! "r1" = None /\
  @gen_step table_json 0 Close
    (@gen_step table_json 0 (IsDisconnected true) one_viewer).1
  = ((@gen_step table_json 0 (IsDisconnected true) one_viewer).1, Closed).
Proof.
  destruct (@event_generator_unsubscribes_once table_json one_viewer 0 _ 0
              (IsDisconnected true) (reachable_run table_json _)
              eq_refl eq_refl eq_refl)
    as (l1 & l2 & Hl & _ & Htq & _ & Hclose & _).
  split; [|exact Hclose].
  assert (l1 = [] /\ l2 = []) as [-> ->].
  { vm_compute in Hl. destruct l1 as [|x [|y l1]]; simpl in Hl; [|discriminate..].
    by injection Hl as <-. }
  rewrite Htq. apply lookup_delete_eq.
Defined.

Lemma resolve_name_priority_witness :
  @resolve_name table_json bob = PStr "Bob".
Proof.
  exact (proj2 (@resolve_name_priority table_json bob) JSONDecodeError eq_refl).
Defined.


Lemma attach_transcriber_roomId_required_witness :
  attach_transcriber ∅ attached = (attached, HTTPException 400 "roomId required").
Proof. apply attach_transcriber_roomId_required. reflexivity. Defined.

Lemma broadcast_transcript_delivers_witness :
  (broadcast_transcript "r1" hello two_viewers).2 = None.
Proof.
  destruct (@broadcast_transcript_delivers table_json "r1" hello two_viewers
              (reachable_run table_json _)) as (objs & E & _).
  rewrite E. reflexivity.
Defined.

(** C3, as the claim has it, fails: a final event without alternatives
    ends the loop, and the final transcript [again] that the stream yields
    after it, whose text is not empty, is never published. *)
Lemma handle_audio_track_drain_stops_at_textless_final :
  nonempty_final (final "again") = true /\
  (@handle_audio_track_drain table_json ann "r1"
     [heard ann (final "hello") noon; heard ann no_text noon;
      heard ann (final "again") noon] one_viewer).1.2 = [hello] /\
  (@handle_audio_track_drain table_json ann "r1"
     [heard ann (final "hello") noon; heard ann no_text noon;
      heard ann (final "again") noon] one_viewer).2 = DrainRaised IndexError.
Proof. vm_compute. done. Qed.

Lemma handle_audio_track_drain_publishes_witness :
  (@handle_audio_track_drain table_json ann "r1" sample_events one_viewer).1.2
    = [hello] /\
  (@handle_audio_track_drain table_json ann "r1" sample_events one_viewer).2
    = StreamEnded /\
  (items <$> queue_objs
     (@handle_audio_track_drain table_json ann "r1" sample_events
        one_viewer).1.1 !! 0) = Some [hello].
Proof.
  destruct (@handle_audio_track_drain_publishes table_json ann "r1"
              sample_events one_viewer (reachable_run table_json _))
    as (E & Hq & _).
  rewrite Hq, E. vm_compute. done.
Defined.

Lemma room_task_exit_paths_witness :
  exists T',
    room_tasks (@step table_json (RoomTaskIn 0 (Thrown CancelledError))
                  failed).1 !! 0 = Some T' /\
    rt_pc T' = Finished (Some CancelledError) /\
    running_agents (@step table_json (RoomTaskIn 0 (Thrown CancelledError))
                      failed).1 !! "r1" = Some 0.
Proof.
  eexists. split; [vm_compute; reflexivity|]. split; [reflexivity|].
  destruct (@room_task_exit_paths table_json failed
              (RoomTaskIn 0 (Thrown CancelledError)) 0 _ _
              (reachable_run table_json _) eq_refl eq_refl eq_refl eq_refl)
    as (_ & _ & [H|[H|H]]).
  - destruct H as (pending & Hi & _). discriminate Hi.
  - destruct H as (pending & e & _ & _ & _ & _ & Hkept). exact Hkept.
  - destruct H as (e & _ & Hpc & _). discriminate Hpc.
Defined.

Lemma attach_transcriber_stale_entry_witness :
  attach_transcriber r1_body
    (@run table_json
       [PostAttachTranscriber r1_body; RoomTaskIn 0 DisconnectReturned;
        RoomTaskIn 0 Run] stale_entry).1
  = ((@run table_json
        [PostAttachTranscriber r1_body; RoomTaskIn 0 DisconnectReturned;
         RoomTaskIn 0 Run] stale_entry).1,
     JSONResponse "already_running").
Proof.
  exact (proj2 (proj2
    (@attach_transcriber_stale_entry table_json stale_entry 0 _ r1_body
       [PostAttachTranscriber r1_body; RoomTaskIn 0 DisconnectReturned;
        RoomTaskIn 0 Run]
       (reachable_run table_json _) eq_refl eq_refl eq_refl eq_refl
       ltac:(discriminate)))).
Defined.

Lemma keep_alive_without_departures_witness :
  exists T',
    room_tasks (@run table_json
                  (RoomTaskIn 0 (ConnectReturned ∅ None) :: quiet_inputs)
                  attached).1 !! 0 = Some T' /\
    rt_pc T' = KeepAlive /\
    (SpawnDisconnect ∉ calls (rt_room T')) /\
    (CallDisconnect ∉ calls (rt_room T')).
Proof.
  refine (proj2 (@keep_alive_without_departures table_json attached 0
                   connecting quiet_inputs (reachable_run table_json _)
                   _ eq_refl _)).
  - vm_compute. reflexivity.
  - unfold quiet_inputs. repeat constructor.
Defined.

Lemma transcript_stream_keepalives_witness :
  (@run table_json (concat (pull 0 <$> [15; 20 # 1]%Q))
     (@transcript_stream "nobody" init).1).2
  = [OutGen 0 Suspended; OutGen 0 Suspended; OutGen 0 (Yield keepalive_chunk);
     OutGen 0 Suspended; OutGen 0 Suspended; OutGen 0 (Yield keepalive_chunk)] /\
  @gen_step table_json 0 (WaitOver (29 # 2))
    (@run table_json [GenIn 0 Next; GenIn 0 (IsDisconnected false)]
       (@transcript_stream "nobody" init).1).1
  = ((@run table_json [GenIn 0 Next; GenIn 0 (IsDisconnected false)]
        (@transcript_stream "nobody" init).1).1, Suspended).
Proof.
  pose proof (@transcript_stream_keepalives table_json "nobody" init
                (reachable_run table_json [])) as H.
  simpl in H. destruct H as (_ & _ & _ & _ & Hsilent & Hpulls).
  split.
  - apply (Hpulls [15; 20 # 1]%Q). repeat constructor; by vm_compute.
  - apply (Hsilent [GenIn 0 Next; GenIn 0 (IsDisconnected false)]).
    + intros m Hin. vm_compute in Hin.
      repeat (apply elem_of_cons in Hin as [Hin|Hin]; [discriminate|]).
      by apply elem_of_nil in Hin.
    + by vm_compute.
Defined.

(** The three ways out of a room task, run: a failed connection, a
    cancellation during the sleep, and the room becoming empty. *)
Example room_task_exit_on_error :
  let st := (@run table_json
               [PostAttachTranscriber r1_body; RoomTaskIn 0 Run;
                RoomTaskIn 0 (Thrown ConnectError);
                RoomTaskIn 0 DisconnectReturned] init).1 in
  running_agents st = ∅ /\
  (rt_pc <$> room_tasks st !! 0) = Some (Finished None) /\
  (calls ∘ rt_room <$> room_tasks st !! 0) = Some [CallConnect; CallDisconnect].
Proof. vm_compute. done. Qed.

Example room_task_exit_on_cancel :
  let st := (@run table_json
               [PostAttachTranscriber r1_body; RoomTaskIn 0 Run;
                RoomTaskIn 0 (ConnectReturned ∅ None);
                RoomTaskIn 0 (Thrown CancelledError);
                RoomTaskIn 0 DisconnectReturned] init).1 in
  running_agents st = ∅ /\
  (rt_pc <$> room_tasks st !! 0) = Some (Finished (Some CancelledError)).
Proof. vm_compute. done. Qed.

Example room_task_exit_on_empty_room :
  let st := (@run table_json
               [PostAttachTranscriber r1_body; RoomTaskIn 0 Run;
                RoomTaskIn 0 (ConnectReturned {[ "u1" := ann ]} None);
                RoomEventIn 0 (ParticipantDisconnected "u1");
                RoomEventIn 0 (ConnectionStateChanged CONN_DISCONNECTED);
                RoomTaskIn 0 SleepReturned;
                RoomTaskIn 0 DisconnectReturned] init).1 in
  running_agents st = ∅ /\
  (rt_pc <$> room_tasks st !! 0) = Some (Finished None) /\
  (calls ∘ rt_room <$> room_tasks st !! 0)
    = Some [CallConnect; SpawnDisconnect; CallDisconnect].
Proof. vm_compute. done. Qed.

(** The end-to-end run of the specification: one track with the final
    events [hello] and the empty text; a viewer subscribed before gets
    [hello] and nothing else, a viewer subscribed after gets nothing. *)
Example end_to_end :
  (@run table_json
     [PostAttachTranscriber r1_body; RoomTaskIn 0 Run;
      RoomTaskIn 0 (ConnectReturned ∅ None);
      RoomEventIn 0 (ParticipantConnected ann);
      RoomEventIn 0 (TrackSubscribed {| sid := "TR_1"; kind := KIND_AUDIO |} ann);
      GetTranscriptStream "r1"; GenIn 0 Next; GenIn 0 (IsDisconnected false);
      SttEventIn 0 (heard ann (final "hello") noon);
      SttEventIn 0 (heard ann (final "") noon);
      GetTranscriptStream "r1"; GenIn 1 Next; GenIn 1 (IsDisconnected false);
      GenIn 0 (WaitOver 3); GenIn 1 (WaitOver 15);
      GenIn 0 Next; GenIn 0 (IsDisconnected false); GenIn 0 (WaitOver 15)]
     init).2
  = [OutResponse (JSONResponse "started"); OutNone; OutNone; OutNone; OutNone;
     OutStream 0; OutGen 0 Suspended; OutGen 0 Suspended;
     OutPublished hello; OutNone;
     OutStream 1; OutGen 1 Suspended; OutGen 1 Suspended;
     OutGen 0 (Yield (@data_chunk table_json hello));
     OutGen 1 (Yield keepalive_chunk);
     OutGen 0 Suspended; OutGen 0 Suspended; OutGen 0 (Yield keepalive_chunk)].
Proof. vm_compute. reflexivity. Qed.

(** ** Further properties of the module *)

Section with_json.
Context `{!Json}.

(** *** The attach endpoint *)

Local Ltac attach_cases :=
  split_and!; try done;
  try (split; [try done; by eauto|]);
  try (split; [try done|]);
  try (intros (? & ? & ? & ?); simplify_eq; simpl in *; try done);
  try (intros ? [= <-]; split; [done | intros ? ?; by simplify_eq]);
  try (exfalso;
       match goal with
       | H : is_Some _ |- _ => destruct H as [? ?]; congruence
       end);
  try congruence; try (intros; congruence);
  try (exfalso;
       match goal with
       | H : str_truthy ?x = false, H' : ?x ≠ "" |- _ =>
           by apply str_truthy_false in H
       end).

(** X1.  What [attach_transcriber] answers, for every body and state:
    [started] exactly for a non-empty string that is not registered, the
    client error 400 exactly for a [roomId] that is missing or falsy
    (empty string, zero, [false], [null], empty list or object), a
    [TypeError] only for a value that is not a string; and the state
    changes only with the answer [started]. *)
Theorem attach_transcriber_outcomes (body : gmap string pyval) (st : State) :
  ((attach_transcriber body st).2 = JSONResponse "started" <->
     exists room, body !! "roomId" = Some (PStr room) /\ room ≠ "" /\
                  running_agents st !! room = None) /\
  ((attach_transcriber body st).2 = JSONResponse "already_running" <->
     exists room, body !! "roomId" = Some (PStr room) /\ room ≠ "" /\
                  is_Some (running_agents st !! room)) /\
  ((attach_transcriber body st).2 = HTTPException 400 "roomId required" <->
     truthy (default PNone (body !! "roomId")) = false) /\
  (forall e, (attach_transcriber body st).2 = ServerError e ->
     e = TypeError /\ forall s, body !! "roomId" ≠ Some (PStr s)) /\
  ((attach_transcriber body st).2 ≠ JSONResponse "started" ->
     (attach_transcriber body st).1 = st).
Proof.
  unfold attach_transcriber.
  destruct (body !! "roomId") as [v|] eqn:Hbody; simpl.
  { destruct (truthy v) eqn:Htr; simpl.
    - destruct v as [| | | | room | |]; simpl.
      5: { apply str_truthy_spec in Htr. case_decide as Hreg; simpl.
           - attach_cases.
           - assert (running_agents st !! room = None) as Hnone.
             { destruct (running_agents st !! room) eqn:E; [exfalso; eauto|done]. }
             attach_cases. }
      all: attach_cases.
    - attach_cases. }
  attach_cases.
Qed.

(** X2.  Attaching twice in a row is attaching once: for a non-empty
    string, in any state, the second call answers [already_running] and
    leaves the state as the first call left it. *)
Theorem attach_transcriber_idempotent (room : string)
    (body : gmap string pyval) (st : State) :
  body !! "roomId" = Some (PStr room) -> room ≠ "" ->
  attach_transcriber body (attach_transcriber body st).1 =
    ((attach_transcriber body st).1, JSONResponse "already_running").
Proof.
  intros Hbody Hne. apply str_truthy_spec in Hne.
  assert (Hreg : is_Some (running_agents (attach_transcriber body st).1 !! room)).
  { unfold attach_transcriber. rewrite Hbody. simpl. rewrite Hne. simpl.
    case_decide; [done|]. simpl. rewrite lookup_insert_eq. eauto. }
  unfold attach_transcriber at 1. rewrite Hbody. simpl. rewrite Hne. simpl.
  by rewrite decide_True.
Qed.

(** X3.  A room task that waits in [finally] for [room.disconnect()] still
    holds the entry of its room: an attach for the room answers
    [already_running] and starts nothing.  Once the disconnect has
    returned, the same attach answers [started] and registers a new task,
    beside the record of the old one. *)
Theorem attach_transcriber_around_exit (st : State) (t : nat) (T : RoomTask)
    (pending : option exn) (body : gmap string pyval) :
  reachable st -> room_tasks st !! t = Some T ->
  rt_pc T = AwaitDisconnect pending ->
  body !! "roomId" = Some (PStr (rt_room_id T)) -> rt_room_id T ≠ "" ->
  attach_transcriber body st = (st, JSONResponse "already_running") /\
  let st1 := room_task_step t DisconnectReturned st in
  exists t',
    t' ≠ t /\ room_tasks st1 !! t' = None /\
    attach_transcriber body st1 =
      (set_running_agents <[rt_room_id T := t']>
         (set_room_tasks
            <[t' := {| rt_room_id := rt_room_id T; rt_pc := Scheduled;
                       rt_room := Room_new |}]> st1),
       JSONResponse "started").
Proof.
  intros Hreach HT Hpc Hbody Hne.
  destruct (reachable_inv st Hreach) as [_ Hreg].
  assert (Hl : live T = true) by (unfold live; by rewrite Hpc).
  pose proof (reg_live _ _ Hreg t T HT Hl) as Hentry.
  apply str_truthy_spec in Hne. split.
  - unfold attach_transcriber. rewrite Hbody. simpl. rewrite Hne. simpl.
    rewrite decide_True; [done | eauto].
  - intros st1.
    assert (Etask : is_Some (room_tasks st1 !! t)).
    { unfold st1, room_task_step. rewrite HT, Hpc.
      unfold room_task_cleanup. simpl. rewrite decide_True by eauto.
      simpl. rewrite lookup_insert_eq. eauto. }
    assert (Egone : running_agents st1 !! rt_room_id T = None).
    { unfold st1, room_task_step. rewrite HT, Hpc.
      unfold room_task_cleanup. simpl. rewrite decide_True by eauto.
      simpl. apply lookup_delete_eq. }
    exists (fresh (dom (room_tasks st1))).
    assert (Hfresh : room_tasks st1 !! fresh (dom (room_tasks st1)) = None).
    { apply not_elem_of_dom. apply is_fresh. }
    split_and!; [|done|].
    + intros E. rewrite E in Hfresh. destruct Etask. congruence.
    + unfold attach_transcriber. rewrite Hbody. simpl. rewrite Hne. simpl.
      rewrite Egone. rewrite decide_False; [done | by intros [? ?]].
Qed.

(** *** The bus *)

Lemma list_remove_app_last (q : nat) (l : list nat) :
  q ∉ l -> list_remove q (l ++ [q]) = Return l.
Proof.
  induction l as [|x l IH]; intros Hin; simpl.
  - by rewrite decide_True.
  - apply not_elem_of_cons in Hin as [Hne Hin].
    rewrite decide_False by done. by rewrite IH.
Qed.

(** X4.  Subscribing and then leaving is a round trip on the dictionary:
    in every state the process can be in, the [finally] block run on the
    queue that lines 277-280 have just registered returns and puts
    [transcript_queues] back as it was, the entry of a room that had no
    viewer included.  Only the queue object stays behind. *)
Theorem event_generator_subscribe_finally (room : string) (st : State) :
  reachable st ->
  exists st2,
    event_generator_finally room (event_generator_subscribe room st).2
      (event_generator_subscribe room st).1 = Return st2 /\
    transcript_queues st2 = transcript_queues st /\
    queue_objs st2 =
      <[(event_generator_subscribe room st).2 := Queue_new]> (queue_objs st) /\
    running_agents st2 = running_agents st /\ streams st2 = streams st.
Proof.
  intros Hreach. destruct (reachable_inv st Hreach) as [Hbus _].
  destruct (bus_ok_fresh _ _ _ Hbus) as (_ & Hnotin & _).
  rewrite event_generator_subscribe_spec. simpl.
  set (q := fresh (dom (queue_objs st))) in *.
  unfold event_generator_finally. simpl. rewrite lookup_insert_eq.
  destruct (transcript_queues st !! room) as [l|] eqn:Hroom; simpl.
  - rewrite list_remove_app_last by eauto. simpl.
    destruct (bus_lists _ _ _ Hbus room l Hroom) as [Hnil _].
    destruct l as [|x l]; [done|]. eexists. split; [done|]. simpl.
    split_and!; try done. rewrite insert_insert_eq. by apply insert_id.
  - rewrite decide_True by done. simpl. eexists. split; [done|]. simpl.
    split_and!; try done. rewrite delete_insert_eq. by apply delete_id.
Qed.

(** X5.  The invariant of the bus: in every state the process can be in,
    a room that has an entry in [transcript_queues] has at least one
    queue, no queue twice, and its queues are in no other room's list;
    each of them is an unbounded queue. *)
Theorem transcript_queues_pruned (st : State) (room : string) (l : list nat) :
  reachable st -> transcript_queues st !! room = Some l ->
  l ≠ [] /\ NoDup l /\
  forall q, q ∈ l ->
    (exists Q, queue_objs st !! q = Some Q /\ maxsize Q = 0%Z) /\
    forall room' l', transcript_queues st !! room' = Some l' -> q ∈ l' ->
                     room' = room.
Proof.
  intros Hreach Hroom. destruct (reachable_inv st Hreach) as [Hbus _].
  destruct (bus_lists _ _ _ Hbus room l Hroom) as [Hnil Hnd].
  split_and!; [done | done |]. intros q Hin.
  destruct (bus_owner _ _ _ Hbus room l q Hroom Hin) as (g & G & HG & Hr & Hq).
  destruct (bus_listed _ _ _ Hbus g G q HG Hq) as [[Q HQ] _].
  split; [exists Q; split; [done | by apply (bus_unbounded _ _ _ Hbus q)]|].
  intros room' l' Hroom' Hin'.
  destruct (bus_owner _ _ _ Hbus room' l' q Hroom' Hin')
    as (g' & G' & HG' & Hr' & Hq').
  assert (g' = g) as -> by by apply (bus_own_queue _ _ _ Hbus g' g G' G q).
  congruence.
Qed.

(** *** Leaving a stream *)

(** X6.  In every state the process can be in, however a generator whose
    body has started leaves its loop (the client is found disconnected,
    [aclose] at a [yield], an exception or a cancellation thrown in at an
    [await]), the [finally] block raises nothing: the generator ends with
    the exception thrown in, if there is one, and with none of its own;
    afterwards its queue is in no list of the bus, while the lists of the
    other rooms and all queue objects are untouched.  While the generator
    is suspended at an [await] it cannot be closed: [aclose] is refused
    with [RuntimeError], the [finally] block does not run and the queue
    stays listed.  No step of any generator ends with an exception other
    than the one thrown in or that refusal. *)
Theorem event_generator_exit (st : State) (g : nat) (G : Generator) (q : nat)
    (i : GenInput) :
  reachable st -> streams st !! g = Some G -> gen_queue (g_pc G) = Some q ->
  (leaves (g_pc G) i = true ->
     (gen_step g i st).2 = left_with i /\
     streams (gen_step g i st).1 !! g
       = Some (set_g_pc (GenClosed (thrown i)) G) /\
     (forall room l, transcript_queues (gen_step g i st).1 !! room = Some l ->
                     q ∉ l) /\
     (forall room, room ≠ g_roomId G ->
        transcript_queues (gen_step g i st).1 !! room
          = transcript_queues st !! room) /\
     queue_objs (gen_step g i st).1 = queue_objs st) /\
  (g_pc G ≠ GenYielded q ->
     gen_step g Close st = (st, GenRaised RuntimeError)) /\
  (forall g' i' e, (gen_step g' i' st).2 = GenRaised e ->
     i' = GenThrown e \/ e = RuntimeError).
Proof.
  intros Hreach HG Hq. destruct (reachable_inv st Hreach) as [Hbus _].
  split_and!.
  - intros Hi. rewrite (gen_step_leaves g G q i st HG Hq Hi).
    destruct (event_generator_finally_spec g G q (thrown i) st Hbus HG Hq)
      as (l1 & l2 & Hroom & Hfin & Hok).
    unfold gen_leave. rewrite Hfin. simpl.
    split_and!; [done | by rewrite lookup_insert_eq | | | by case_decide].
    + intros room l Hl Hin.
      assert (Hl' : (if decide (l1 ++ l2 = [])
                     then delete (g_roomId G) (transcript_queues st)
                     else <[g_roomId G := l1 ++ l2]> (transcript_queues st))
                    !! room = Some l) by (by case_decide).
      destruct (bus_owner _ _ _ Hok room l q Hl' Hin)
        as (g' & G' & HG' & _ & Hq').
      destruct (decide (g' = g)) as [-> | Hg].
      * rewrite lookup_insert_eq in HG'. by simplify_eq.
      * rewrite lookup_insert_ne in HG' by done. apply Hg.
        by apply (bus_own_queue _ _ _ Hbus g' g G' G q).
    + intros room Hne. case_decide; simpl.
      * by rewrite lookup_delete_ne.
      * by rewrite lookup_insert_ne.
  - intros Hpc. unfold gen_step. rewrite HG.
    destruct (g_pc G); simpl in Hq; by simplify_eq.
  - intros g' i' e. unfold gen_step.
    destruct (streams st !! g') as [G'|] eqn:HG'; [|done].
    assert (Hleave : forall q' pending out,
              gen_queue (g_pc G') = Some q' ->
              (gen_leave g' G' q' pending out st).2 = out).
    { intros q' pending out Hq'.
      by destruct (gen_leave_bus_inv g' G' q' pending out st Hbus HG' Hq'). }
    destruct (g_pc G') eqn:Hpc'; destruct i' as [| [|] | waited | | e'];
      try done; rewrite ?Hleave by done;
      try (intros [= <-]; by auto).
    destruct (items <$> queue_objs st !! q0) as [[|]|]; try done;
      by destruct (Qle_bool _ _).
Qed.

(** X7.  Viewers do not disturb each other: in every state the process
    can be in, no step of another generator (subscribing, waiting,
    yielding, leaving) changes where a generator is suspended or what its
    queue holds, and its queue stays listed for its room. *)
Theorem event_generator_isolated (st : State) (g g' : nat) (G : Generator)
    (q : nat) (i : GenInput) :
  reachable st -> g' ≠ g -> streams st !! g = Some G ->
  gen_queue (g_pc G) = Some q ->
  streams (gen_step g' i st).1 !! g = Some G /\
  queue_objs (gen_step g' i st).1 !! q = queue_objs st !! q /\
  exists l, transcript_queues (gen_step g' i st).1 !! g_roomId G = Some l /\
            q ∈ l.
Proof.
  intros Hreach Hne HG Hq. destruct (reachable_inv st Hreach) as [Hbus _].
  destruct (gen_step_other g g' i st G Hbus Hne HG) as [HG' Hq'].
  split_and!; [done | by apply Hq' |].
  pose proof (gen_step_bus_inv g' i st Hbus) as Hbus'.
  by destruct (bus_listed _ _ _ Hbus' g G q HG' Hq).
Qed.

(** *** Delivery in order *)

Lemma broadcast_all_items (ms : list msg) (st : State) (g : nat)
    (G : Generator) (q : nat) (Q : Queue) :
  bus_inv st -> streams st !! g = Some G -> gen_queue (g_pc G) = Some q ->
  queue_objs st !! q = Some Q ->
  bus_inv (broadcast_all (g_roomId G) ms st) /\
  streams (broadcast_all (g_roomId G) ms st) = streams st /\
  transcript_queues (broadcast_all (g_roomId G) ms st) = transcript_queues st /\
  queue_objs (broadcast_all (g_roomId G) ms st) !! q
    = Some {| maxsize := maxsize Q; items := items Q ++ ms |}.
Proof.
  revert st Q. induction ms as [|m ms IH]; intros st Q Hbus HG Hq HQ.
  - simpl. rewrite app_nil_r. split_and!; try done. by destruct Q.
  - simpl. fold (broadcast_all (g_roomId G) ms).
    pose proof (broadcast_transcript_bus_inv (g_roomId G) m st Hbus) as Hbus'.
    destruct (broadcast_transcript_spec (g_roomId G) m st Hbus)
      as (objs & E & Hlk & _).
    destruct (bus_listed _ _ _ Hbus g G q HG Hq) as [_ (l & Hroom & Hin)].
    rewrite E in *. simpl in *.
    destruct (IH (set_queue_objs (fun _ => objs) st)
                 {| maxsize := maxsize Q; items := items Q ++ [m] |})
      as (Hb & Hs & Ht & Ho); try done.
    { simpl. rewrite Hlk, Hroom. simpl. rewrite decide_True by done.
      by rewrite HQ. }
    split_and!; try done. rewrite Ho. simpl. by rewrite <- app_assoc.
Qed.

Lemma gen_step_yielded_items g room q ms st :
  at_pc_items g room (GenYielded q) q ms st ->
  (gen_step g Next st).2 = Suspended /\
  at_pc_items g room (GenAwaitDisconnected q) q ms (gen_step g Next st).1.
Proof.
  intros (G & Q & HG & Hr & Hpc & _ & HQ & HI).
  unfold gen_step. rewrite HG, Hpc. simpl. split; [done|].
  unfold at_pc_items. simpl. eexists _, Q. rewrite lookup_insert_eq.
  by split_and!.
Qed.

Lemma gen_step_connected_items g room q ms st :
  at_pc_items g room (GenAwaitDisconnected q) q ms st ->
  (gen_step g (IsDisconnected false) st).2 = Suspended /\
  at_pc_items g room (GenAwaitItem q) q ms
    (gen_step g (IsDisconnected false) st).1.
Proof.
  intros (G & Q & HG & Hr & Hpc & _ & HQ & HI).
  unfold gen_step. rewrite HG, Hpc. simpl. split; [done|].
  unfold at_pc_items. simpl. eexists _, Q. rewrite lookup_insert_eq.
  by split_and!.
Qed.

Lemma gen_step_item g room q m ms waited st :
  at_pc_items g room (GenAwaitItem q) q (m :: ms) st ->
  (gen_step g (WaitOver waited) st).2 = Yield (data_chunk m) /\
  at_pc_items g room (GenYielded q) q ms (gen_step g (WaitOver waited) st).1.
Proof.
  intros (G & Q & HG & Hr & Hpc & _ & HQ & HI).
  unfold gen_step. rewrite HG, Hpc, HQ. simpl. rewrite HI. simpl.
  split; [done|]. unfold at_pc_items. simpl. eexists _, _.
  rewrite lookup_insert_eq, lookup_alter_eq, HQ. simpl. by split_and!.
Qed.

Lemma run_pull (g : nat) (waited : Q) (st : State) :
  run (pull g waited) st =
    ((gen_step g (WaitOver waited)
        (gen_step g (IsDisconnected false) (gen_step g Next st).1).1).1,
     [OutGen g (gen_step g Next st).2;
      OutGen g (gen_step g (IsDisconnected false) (gen_step g Next st).1).2;
      OutGen g (gen_step g (WaitOver waited)
                  (gen_step g (IsDisconnected false)
                     (gen_step g Next st).1).1).2]).
Proof. unfold pull. by rewrite !run_cons, !step_GenIn. Qed.

Lemma pulls_items (ms : list msg) (waits : list Q) (g : nat) (room : string)
    (q : nat) (st : State) :
  length waits = length ms ->
  at_pc_items g room (GenYielded q) q ms st ->
  (run (concat (pull g <$> waits)) st).2 = turns_of g (data_chunk <$> ms) /\
  at_pc_items g room (GenYielded q) q [] (run (concat (pull g <$> waits)) st).1.
Proof.
  revert waits st. induction ms as [|m ms IH]; intros [|waited waits] st Hlen Hat;
    try done.
  destruct (gen_step_yielded_items g room q _ st Hat) as [Ho1 H1].
  destruct (gen_step_connected_items g room q _ _ H1) as [Ho2 H2].
  destruct (gen_step_item g room q m ms waited _ H2) as [Ho3 H3].
  destruct (IH waits _ ltac:(by injection Hlen) H3) as [IHo IHs].
  change (concat (pull g <$> waited :: waits))
    with (pull g waited ++ concat (pull g <$> waits)).
  rewrite run_app, run_pull. cbn [fst snd].
  rewrite Ho1, Ho2, Ho3, IHo. done.
Qed.

(** X8.  Messages reach a viewer in the order they were published: in
    every state the process can be in, for a generator between two turns
    of its loop, the messages broadcast to its room are appended to its
    queue behind those already there, and as many turns as the queue has
    messages yield one data chunk each, oldest message first, and none
    twice, however long each wait was looked at. *)
Theorem transcript_stream_fifo (waits : list Q) (st : State) (g : nat)
    (G : Generator) (q : nat) (Q : Queue) (ms : list msg) :
  reachable st -> streams st !! g = Some G -> g_pc G = GenYielded q ->
  queue_objs st !! q = Some Q ->
  length waits = length (items Q ++ ms) ->
  let st' := broadcast_all (g_roomId G) ms st in
  (items <$> queue_objs st' !! q) = Some (items Q ++ ms) /\
  (run (concat (pull g <$> waits)) st').2
    = turns_of g (data_chunk <$> (items Q ++ ms)) /\
  (items <$> queue_objs (run (concat (pull g <$> waits)) st').1 !! q)
    = Some [].
Proof.
  intros Hreach HG Hpc HQ Hlen st'. destruct (reachable_inv st Hreach) as [Hbus _].
  assert (Hq : gen_queue (g_pc G) = Some q) by by rewrite Hpc.
  destruct (broadcast_all_items ms st g G q Q Hbus HG Hq HQ)
    as (_ & Hs & _ & Ho).
  fold st' in Hs, Ho.
  assert (Hat : at_pc_items g (g_roomId G) (GenYielded q) q (items Q ++ ms) st').
  { eexists G, _. rewrite Hs. by split_and!. }
  destruct (pulls_items _ waits g _ q st' Hlen Hat)
    as [Hout (G' & Q' & _ & _ & _ & _ & HQ' & HI')].
  split_and!; [by rewrite Ho | done | by rewrite HQ', <- HI'].
Qed.

(** *** What a viewer can receive *)

Lemma mail_inv_same_bus (st st' : State) :
  same_bus st st' -> mail_inv st -> mail_inv st'.
Proof. intros (_ & E2 & E3). unfold mail_inv. by rewrite E2, E3. Qed.

Lemma transcript_of_fields (participant : RemoteParticipant) (room_id : string)
    (turn : Turn) (m : msg) :
  nonempty_final (turn_event turn) = true ->
  transcript_of participant room_id turn = Some m ->
  roomId m = room_id /\ msg_text m ≠ "" /\
  participantIdentity m = identity participant /\
  timestamp m = PStr (isoformat (turn_now turn)).
Proof.
  unfold nonempty_final, transcript_of. simpl.
  destruct (alternatives (turn_event turn)) as [|alt ?];
    [by rewrite andb_false_r|].
  intros Hnf [= <-]. simpl. apply andb_prop in Hnf as [_ Hnf].
  by apply str_truthy_spec in Hnf.
Qed.

(** What a step of a generator does to its own queue: nothing is ever
    added. *)
Lemma gen_step_own (g : nat) (i : GenInput) (st : State) (G : Generator) :
  streams st !! g = Some G ->
  exists G', streams (gen_step g i st).1 !! g = Some G' /\
    g_roomId G' = g_roomId G /\
    forall q Q' m, gen_queue (g_pc G') = Some q ->
      queue_objs (gen_step g i st).1 !! q = Some Q' -> m ∈ items Q' ->
      gen_queue (g_pc G) = Some q /\
      exists Q, queue_objs st !! q = Some Q /\ m ∈ items Q.
Proof.
  intros HG. unfold gen_step. rewrite HG.
  assert (Hsame : exists G', streams st !! g = Some G' /\
            g_roomId G' = g_roomId G /\
            forall q Q' m, gen_queue (g_pc G') = Some q ->
              queue_objs st !! q = Some Q' -> m ∈ items Q' ->
              gen_queue (g_pc G) = Some q /\
              exists Q, queue_objs st !! q = Some Q /\ m ∈ items Q)
    by (exists G; split_and!; eauto).
  assert (Hleave : forall q pending out, exists G',
            streams (gen_leave g G q pending out st).1 !! g = Some G' /\
            g_roomId G' = g_roomId G /\
            forall q0 Q' m, gen_queue (g_pc G') = Some q0 ->
              queue_objs (gen_leave g G q pending out st).1 !! q0 = Some Q' ->
              m ∈ items Q' ->
              gen_queue (g_pc G) = Some q0 /\
              exists Q, queue_objs st !! q0 = Some Q /\ m ∈ items Q).
  { intros q pending out.
    destruct (gen_leave_frame g G q pending out st) as [Eq [e Es]].
    eexists. rewrite Es, lookup_insert_eq. by split_and!. }
  assert (Hre : forall pc, gen_queue pc = gen_queue (g_pc G) -> exists G',
            streams (set_streams <[g := set_g_pc pc G]> st) !! g = Some G' /\
            g_roomId G' = g_roomId G /\
            forall q0 Q' m, gen_queue (g_pc G') = Some q0 ->
              queue_objs st !! q0 = Some Q' -> m ∈ items Q' ->
              gen_queue (g_pc G) = Some q0 /\
              exists Q, queue_objs st !! q0 = Some Q /\ m ∈ items Q).
  { intros pc E. eexists. simpl. rewrite lookup_insert_eq.
    split_and!; [done | done |]. simpl. rewrite E. eauto. }
  assert (Hwait : forall q waited, gen_queue (g_pc G) = Some q -> exists G',
            streams (if Qle_bool keepalive_timeout waited
                     then (set_streams <[g := set_g_pc (GenYielded q) G]> st,
                           Yield keepalive_chunk)
                     else (st, Suspended)).1 !! g = Some G' /\
            g_roomId G' = g_roomId G /\
            forall q0 Q' m, gen_queue (g_pc G') = Some q0 ->
              queue_objs (if Qle_bool keepalive_timeout waited
                          then (set_streams <[g := set_g_pc (GenYielded q) G]> st,
                                Yield keepalive_chunk)
                          else (st, Suspended)).1 !! q0 = Some Q' ->
              m ∈ items Q' ->
              gen_queue (g_pc G) = Some q0 /\
              exists Q, queue_objs st !! q0 = Some Q /\ m ∈ items Q).
  { intros q waited Hq. destruct (Qle_bool _ _); [|done]. by apply Hre. }
  destruct (g_pc G) eqn:Hpc; destruct i as [| [|] | waited | | e];
    try done; try apply Hleave; try (by apply Hre).
  - rewrite event_generator_subscribe_spec. simpl. eexists.
    rewrite lookup_insert_eq. split_and!; [done | done |]. simpl.
    intros q Q' m [= <-]. rewrite lookup_insert_eq. intros [= <-] Hm.
    by apply elem_of_nil in Hm.
  - destruct (queue_objs st !! q) as [Q|] eqn:HQ; simpl; [|by apply Hwait].
    destruct (items Q) as [|data rest] eqn:HI; simpl; [by apply Hwait|].
    eexists. rewrite lookup_insert_eq. split_and!; [done | done |]. simpl.
    intros q0 Q' m [= <-]. rewrite lookup_alter_eq, HQ. simpl.
    intros [= <-] Hm. simpl in Hm. split; [done|]. exists Q.
    split; [done|]. rewrite HI. by apply list_elem_of_further.
Qed.

Lemma gen_step_mail_inv (g : nat) (i : GenInput) (st : State) :
  bus_inv st -> mail_inv st -> mail_inv (gen_step g i st).1.
Proof.
  intros Hbus Hmail g0 G0 q Q m HG0 Hq HQ Hm.
  destruct (decide (g = g0)) as [<- | Hne].
  - destruct (streams st !! g) as [G|] eqn:HG.
    + destruct (gen_step_own g i st G HG) as (G' & HG' & Hr & Hown).
      assert (G0 = G') as -> by congruence.
      destruct (Hown q Q m Hq HQ Hm) as (Hq0 & Q1 & HQ1 & Hm1).
      rewrite Hr. by apply (Hmail g G q Q1 m).
    + revert HG0. unfold gen_step. rewrite HG. simpl. congruence.
  - destruct (streams st !! g0) as [G|] eqn:HG.
    + destruct (gen_step_other g0 g i st G Hbus Hne HG) as [HG' Hq'].
      assert (G0 = G) as -> by congruence.
      rewrite Hq' in HQ by done. by apply (Hmail g0 G q Q m).
    + exfalso. revert HG0. unfold gen_step.
      destruct (streams st !! g) as [G|] eqn:HG1; [|simpl; congruence].
      assert (Hleave : forall q' pending out,
                streams (gen_leave g G q' pending out st).1 !! g0 = None).
      { intros q' pending out.
        destruct (gen_leave_frame g G q' pending out st) as [_ [e ->]].
        by rewrite lookup_insert_ne. }
      destruct (g_pc G); destruct i as [| [|] | waited | | e];
        try (rewrite Hleave; congruence);
        try (simpl; rewrite ?lookup_insert_ne by done; congruence).
      * rewrite event_generator_subscribe_spec. simpl.
        rewrite lookup_insert_ne by done. congruence.
      * destruct (items <$> queue_objs st !! q0) as [[|]|]; simpl;
          try destruct (Qle_bool _ _); simpl;
          rewrite ?lookup_insert_ne by done; congruence.
Qed.

Lemma track_task_step_mail_inv (k : nat) (turn : Turn) (st : State) :
  bus_inv st -> mail_inv st -> mail_inv (track_task_step k turn st).1.
Proof.
  intros Hbus Hmail. unfold track_task_step.
  destruct (track_tasks st !! k) as [K|]; [|done].
  destruct (tt_pc K); try done.
  rewrite (handle_audio_track_body_spec _ _ _ _ Hbus).
  destruct (textless_final (turn_event turn)); [done|].
  destruct (nonempty_final (turn_event turn)) eqn:Hnf; [|done].
  destruct (transcript_of _ _ _) as [m|] eqn:Etr; [|done]. simpl.
  destruct (transcript_of_fields _ _ _ _ Hnf Etr) as (Hroom & Htext & _).
  destruct (broadcast_transcript_spec (tt_room_id K) m st Hbus)
    as (objs & -> & Hlk & _). simpl.
  intros g G q Q m0 HG Hq. simpl in HG. simpl. rewrite Hlk.
  destruct (queue_objs st !! q) as [Q0|] eqn:HQ0;
    [|by case_decide].
  case_decide as Hin; simpl.
  - intros [= <-]. simpl. rewrite elem_of_app, list_elem_of_singleton.
    intros [Hm | ->]; [by apply (Hmail g G q Q0 m0)|].
    split; [|done]. rewrite Hroom.
    destruct (transcript_queues st !! tt_room_id K) as [l|] eqn:Hl;
      [|by apply elem_of_nil in Hin].
    destruct (bus_owner _ _ _ Hbus _ _ _ Hl Hin) as (g1 & G1 & HG1 & Hr1 & Hq1).
    assert (g1 = g) as -> by by apply (bus_own_queue _ _ _ Hbus g1 g G1 G q).
    congruence.
  - intros [= <-]. by apply (Hmail g G q Q0 m0).
Qed.

Lemma step_mail_inv (i : Input) (st : State) :
  bus_inv st -> mail_inv st -> mail_inv (step i st).1.
Proof.
  intros Hbus Hmail.
  destruct i as [body|room|t i|t ev|k turn|k raised|g i]; simpl.
  - pose proof (attach_transcriber_same_bus body st) as Hsame.
    destruct (attach_transcriber body st). by apply (mail_inv_same_bus st).
  - intros g G q Q m. simpl. rewrite lookup_insert. case_decide.
    + by intros [= <-].
    + by apply Hmail.
  - by apply (mail_inv_same_bus st); [apply room_task_step_same_bus|].
  - by apply (mail_inv_same_bus st); [apply room_event_step_same_bus|].
  - by apply track_task_step_mail_inv.
  - pose proof (track_task_end_frame k raised st) as [Hsame _].
    by apply (mail_inv_same_bus st).
  - pose proof (gen_step_mail_inv g i st Hbus Hmail).
    by destruct (gen_step g i st).
Qed.

Lemma reachable_mail_inv (st : State) : reachable st -> mail_inv st.
Proof.
  intros [inputs <-].
  assert (Hgen : forall st0, bus_inv st0 -> mail_inv st0 ->
            mail_inv (run inputs st0).1).
  { induction inputs as [|i rest IH]; intros st0 Hb Hm; [done|].
    rewrite run_cons. simpl. apply IH.
    - by apply step_bus_inv.
    - by apply step_mail_inv. }
  apply Hgen; [apply bus_ok_init|].
  intros g G q Q m. simpl. by rewrite lookup_empty.
Qed.

(** X9.  A viewer only ever gets its own room: in every state the process
    can be in, whatever a generator yields is either the keepalive comment
    or the data chunk of a message whose [roomId] is the room the stream
    was opened for and whose text is not empty. *)
Theorem transcript_stream_own_room (st : State) (g : nat) (G : Generator)
    (i : GenInput) (chunk : string) :
  reachable st -> streams st !! g = Some G ->
  (gen_step g i st).2 = Yield chunk ->
  chunk = keepalive_chunk \/
  exists m, chunk = data_chunk m /\ roomId m = g_roomId G /\ msg_text m ≠ "".
Proof.
  intros Hreach HG. pose proof (reachable_mail_inv st Hreach) as Hmail.
  unfold gen_step. rewrite HG.
  assert (Hwait : forall q waited,
            (if Qle_bool keepalive_timeout waited
             then (set_streams <[g := set_g_pc (GenYielded q) G]> st,
                   Yield keepalive_chunk)
             else (st, Suspended)).2 = Yield chunk ->
            chunk = keepalive_chunk).
  { intros q waited. destruct (Qle_bool _ _); [|done]. by intros [= <-]. }
  destruct (g_pc G) eqn:Hpc; destruct i as [| [|] | waited | | e]; try done;
    try (unfold gen_leave; by destruct (event_generator_finally _ _ _)).
  destruct (queue_objs st !! q) as [Q|] eqn:HQ; simpl;
    [|intros Hy; left; by apply (Hwait q waited)].
    destruct (items Q) as [|data rest] eqn:HI; simpl;
      [intros Hy; left; by apply (Hwait q waited)|]. intros [= <-].
    right. exists data. split; [done|].
    apply (Hmail g G q Q data HG); [by rewrite Hpc | done |].
    rewrite HI. apply list_elem_of_here.
Qed.

(** *** One track among the others *)

(** X10.  A turn of the loop of one track task changes nothing but the
    queues and that task: the two dictionaries, the room tasks, the
    generators and the other track tasks are as before.  A final event
    without alternatives ends the task with [IndexError], with no other
    effect, and from then on the task publishes nothing, whatever its
    stream still yields. *)
Theorem track_task_step_isolated (k : nat) (turn : Turn) (st : State) :
  let st' := (track_task_step k turn st).1 in
  (transcript_queues st' = transcript_queues st /\
   running_agents st' = running_agents st /\
   room_tasks st' = room_tasks st /\ streams st' = streams st /\
   forall k', k' ≠ k -> track_tasks st' !! k' = track_tasks st !! k') /\
  (forall K, track_tasks st !! k = Some K -> tt_pc K = Draining ->
     textless_final (turn_event turn) = true ->
     track_task_step k turn st =
       (set_track_tasks <[k := set_tt_pc (TrackDone (Some IndexError)) K]> st,
        OutNone) /\
     forall turn', track_task_step k turn' st' = (st', OutNone)).
Proof.
  split.
  - unfold track_task_step.
    destruct (track_tasks st !! k) as [K|]; [|done].
    destruct (tt_pc K); try done. unfold handle_audio_track_body.
    case_decide; [|done].
    destruct (alternatives (turn_event turn)) as [|alt ?].
    { simpl. split_and!; try done. intros k' Hk. by rewrite lookup_insert_ne. }
    destruct (str_truthy (text alt)); [|done].
    unfold broadcast_transcript.
    destruct (transcript_queues st !! tt_room_id K); [|done].
    destruct (put_all _ _ _) as [objs [w|]]; simpl; [|done].
    split_and!; try done. intros k' Hk. by rewrite lookup_insert_ne.
  - intros K HK Hpc Htl.
    assert (E : track_task_step k turn st =
              (set_track_tasks
                 <[k := set_tt_pc (TrackDone (Some IndexError)) K]> st, OutNone)).
    { unfold track_task_step. rewrite HK, Hpc. unfold handle_audio_track_body.
      unfold textless_final in Htl. apply andb_prop in Htl as [Hty Hal].
      apply bool_decide_eq_true in Hty. rewrite decide_True by done.
      by destruct (alternatives (turn_event turn)). }
    split; [done|]. intros turn'. simpl. rewrite E. simpl.
    unfold track_task_step. simpl. by rewrite lookup_insert_eq.
Qed.

(** X11.  The two transcription loops agree on everything but the clock:
    on the same event and state, [TranscriberAgent.transcribe_track] and
    [handle_audio_track] both skip, both raise the same exception, or
    both publish, and then to the same room with the same identity, name
    and text; only the timestamps differ, a loop time against an ISO
    string. *)
Theorem transcribe_track_body_agrees (room_id : string)
    (participant : RemoteParticipant) (loop_time : pyfloat) (now : datetime)
    (event : SpeechEvent) (st : State) :
  match TranscriberAgent.transcribe_track_body room_id participant loop_time
          event st,
        handle_audio_track_body participant room_id now event st with
  | Skip, Skip => True
  | Failed e, Failed e' => e = e'
  | Published m _ w, Published m' _ w' =>
      roomId m = roomId m' /\
      participantIdentity m = participantIdentity m' /\
      participantName m = participantName m' /\
      msg_text m = msg_text m' /\
      timestamp m = PFloat loop_time /\ timestamp m' = PStr (isoformat now) /\
      (bus_inv st -> w = None /\ w' = None)
  | _, _ => False
  end.
Proof.
  unfold TranscriberAgent.transcribe_track_body, handle_audio_track_body.
  case_decide; [|done]. destruct (alternatives event) as [|alt ?]; [done|].
  destruct (str_truthy (text alt)); simpl; [|done].
  match goal with
  | |- context [broadcast_transcript room_id ?m st] =>
      pose proof (broadcast_transcript_spec room_id m st) as H1;
      destruct (broadcast_transcript room_id m st) as [st1 w1]
  end.
  match goal with
  | |- context [broadcast_transcript room_id ?m st] =>
      pose proof (broadcast_transcript_spec room_id m st) as H2;
      destruct (broadcast_transcript room_id m st) as [st2 w2]
  end.
  simpl. split_and!; try done. intros Hbus.
  destruct (H1 Hbus) as (? & [= _ ->] & _).
  destruct (H2 Hbus) as (? & [= _ ->] & _). done.
Qed.

(** *** The room task and its tracks *)

Lemma elem_of_existing_audio_tracks (ps : gmap string RemoteParticipant)
    (tr : Track) (p : RemoteParticipant) :
  (tr, p) ∈ existing_audio_tracks ps <->
  exists idn pub, ps !! idn = Some p /\ pub ∈ track_publications p /\
                  track pub = Some tr /\ kind tr = KIND_AUDIO.
Proof.
  unfold existing_audio_tracks. rewrite list_elem_of_bind. split.
  - intros (p' & Hin & Hp'). apply list_elem_of_bind in Hin as (pub & Hin & Hpub).
    apply list_elem_of_fmap in Hp' as ([idn p''] & -> & Hps).
    apply elem_of_map_to_list in Hps. simpl in *.
    destruct (track pub) as [tr'|] eqn:Htr; [|by apply elem_of_nil in Hin].
    case_decide as Hk; [|by apply elem_of_nil in Hin].
    apply list_elem_of_singleton in Hin as [= -> ->]. eauto 10.
  - intros (idn & pub & Hps & Hpub & Htr & Hk). exists p. split.
    + apply list_elem_of_bind. exists pub. split; [|done].
      rewrite Htr, decide_True by done. apply list_elem_of_here.
    + apply list_elem_of_fmap. exists (idn, p). split; [done|].
      by apply elem_of_map_to_list.
Qed.

Lemma spawn_tracks_spec (room_id : string)
    (l : list (Track * RemoteParticipant)) (st : State) :
  let st' := foldl (fun st tp => spawn_track room_id tp st) st l in
  (forall k K, track_tasks st !! k = Some K -> track_tasks st' !! k = Some K) /\
  size (track_tasks st') = size (track_tasks st) + length l /\
  (forall k K, track_tasks st' !! k = Some K -> track_tasks st !! k = None ->
     tt_pc K = Draining /\ tt_room_id K = room_id /\
     (tt_track K, tt_participant K) ∈ l) /\
  (forall tp, tp ∈ l -> exists k,
     track_tasks st !! k = None /\
     track_tasks st' !! k =
       Some {| tt_room_id := room_id; tt_participant := tp.2;
               tt_track := tp.1; tt_pc := Draining |}).
Proof.
  revert st. induction l as [|tp l IH]; intros st; cbn [foldl].
  - simpl. split_and!; [done | lia | congruence |].
    intros tp Hin. by apply elem_of_nil in Hin.
  - set (k0 := fresh (dom (track_tasks st))).
    set (K0 := {| tt_room_id := room_id; tt_participant := tp.2;
                  tt_track := tp.1; tt_pc := Draining |}).
    assert (Hk0 : track_tasks st !! k0 = None).
    { apply not_elem_of_dom. apply is_fresh. }
    assert (Est : track_tasks (spawn_track room_id tp st)
                  = <[k0 := K0]> (track_tasks st)) by reflexivity.
    destruct (IH (spawn_track room_id tp st)) as (Hold & Hsize & Hnew & Hall).
    rewrite Est in Hold, Hsize, Hnew, Hall.
    split_and!.
    + intros k K HK. apply Hold. rewrite lookup_insert_ne; [done|]. congruence.
    + rewrite Hsize, map_size_insert_None by done. simpl. lia.
    + intros k K HK Hnone. destruct (decide (k = k0)) as [-> | Hne].
      * specialize (Hold k0 _ (lookup_insert_eq _ _ _)).
        assert (K = K0) as -> by congruence.
        simpl. split_and!; [done | done |]. destruct tp. apply list_elem_of_here.
      * destruct (Hnew k K HK) as (? & ? & ?); [by rewrite lookup_insert_ne|].
        split_and!; [done | done |]. by apply list_elem_of_further.
    + intros tp' [-> | Hin]%elem_of_cons.
      * exists k0. split; [done|]. apply Hold. by rewrite lookup_insert_eq.
      * destruct (Hall tp' Hin) as (k & Hnone & Hk). exists k. split; [|done].
        revert Hnone. rewrite lookup_insert. by case_decide.
Qed.

(** X13.  When [room.connect] has returned and the STT plugin is built,
    the room task registers both handlers and starts exactly one
    transcription task for every publication of a remote participant
    that has a track of kind audio, for this room and in state
    [Draining]; a publication without a track, or with a track of another
    kind, starts none, and the track tasks that ran before are left as
    they are. *)
Theorem room_task_connected_spawns (st : State) (t : nat) (T : RoomTask)
    (ps : gmap string RemoteParticipant) :
  room_tasks st !! t = Some T -> rt_pc T = AwaitConnect ->
  let st' := room_task_step t (ConnectReturned ps None) st in
  (exists T', room_tasks st' !! t = Some T' /\ rt_pc T' = KeepAlive /\
     on_track_subscribed (rt_room T') = true /\
     on_participant_disconnected (rt_room T') = true /\
     remote_participants (rt_room T') = ps /\
     calls (rt_room T') = calls (rt_room T)) /\
  (forall k K, track_tasks st !! k = Some K -> track_tasks st' !! k = Some K) /\
  size (track_tasks st')
    = size (track_tasks st) + length (existing_audio_tracks ps) /\
  (forall k K, track_tasks st' !! k = Some K -> track_tasks st !! k = None ->
     tt_pc K = Draining /\ tt_room_id K = rt_room_id T /\
     kind (tt_track K) = KIND_AUDIO /\
     exists idn pub, ps !! idn = Some (tt_participant K) /\
       pub ∈ track_publications (tt_participant K) /\
       track pub = Some (tt_track K)) /\
  (forall idn p pub tr,
     ps !! idn = Some p -> pub ∈ track_publications p ->
     track pub = Some tr -> kind tr = KIND_AUDIO ->
     exists k, track_tasks st !! k = None /\
       track_tasks st' !! k =
         Some {| tt_room_id := rt_room_id T; tt_participant := p;
                 tt_track := tr; tt_pc := Draining |}).
Proof.
  intros HT Hpc st'.
  destruct (spawn_tracks_spec (rt_room_id T) (existing_audio_tracks ps) st)
    as (Hold & Hsize & Hnew & Hall).
  assert (E : track_tasks st' = track_tasks
                (foldl (fun st tp => spawn_track (rt_room_id T) tp st) st
                   (existing_audio_tracks ps))).
  { unfold st', room_task_step. by rewrite HT, Hpc. }
  rewrite E. split_and!; [| done | done | |].
  - unfold st', room_task_step. rewrite HT, Hpc. simpl.
    unfold keep_alive. simpl. eexists. rewrite lookup_insert_eq. done.
  - intros k K HK Hnone. destruct (Hnew k K HK Hnone) as (? & ? & Hin).
    apply elem_of_existing_audio_tracks in Hin as (idn & pub & ? & ? & ? & ?).
    split_and!; eauto.
  - intros idn p pub tr Hps Hpub Htr Hk.
    apply (Hall (tr, p)). apply elem_of_existing_audio_tracks.
    by exists idn, pub.
Qed.

Lemma room_task_leave_loop (st : State) (t : nat) (T : RoomTask) :
  room_tasks st !! t = Some T -> rt_pc T = KeepAlive ->
  connection_state (rt_room T) ≠ CONN_CONNECTED ->
  let st' := room_task_step t DisconnectReturned
               (room_task_step t SleepReturned st) in
  running_agents st' !! rt_room_id T = None /\
  track_tasks st' = track_tasks st /\
  exists T', room_tasks st' !! t = Some T' /\ rt_pc T' = Finished None /\
    calls (rt_room T') = calls (rt_room T) ++ [CallDisconnect].
Proof.
  intros HT Hpc Hconn.
  assert (E : room_task_step t SleepReturned st
              = set_room_tasks <[t := enter_finally None T]> st).
  { unfold room_task_step. rewrite HT, Hpc. unfold keep_alive.
    by rewrite decide_False. }
  simpl. rewrite E. unfold room_task_step. simpl.
  rewrite lookup_insert_eq. simpl. unfold room_task_cleanup. simpl.
  case_decide as Hreg; simpl; rewrite insert_insert_eq, lookup_insert_eq.
  - split_and!; [apply lookup_delete_eq | done | by eexists].
  - split_and!; [| done | by eexists].
    destruct (running_agents st !! rt_room_id T) eqn:Er; [exfalso; eauto|done].
Qed.

(** X14.  The keep-alive loop ends on any connection state other than
    connected, a reconnection in progress included: once the SDK has
    reported such a state, the next wake-up takes the task to [finally],
    and when [room.disconnect()] has returned the task is over without an
    exception and the entry of its room is gone.  The transcription tasks
    of the room are not touched by this. *)
Theorem room_task_leaves_on_state_change (st : State) (t : nat) (T : RoomTask)
    (s : ConnectionState) :
  room_tasks st !! t = Some T -> rt_pc T = KeepAlive -> s ≠ CONN_CONNECTED ->
  let st' := room_task_step t DisconnectReturned
               (room_task_step t SleepReturned
                  (room_event_step t (ConnectionStateChanged s) st)) in
  running_agents st' !! rt_room_id T = None /\
  track_tasks st' = track_tasks st /\
  exists T', room_tasks st' !! t = Some T' /\ rt_pc T' = Finished None /\
    calls (rt_room T') = calls (rt_room T) ++ [CallDisconnect].
Proof.
  intros HT Hpc Hs.
  assert (E : room_event_step t (ConnectionStateChanged s) st
              = set_room_tasks
                  <[t := set_rt_room (set_connection_state s) T]> st).
  { unfold room_event_step. by rewrite HT. }
  rewrite E.
  destruct (room_task_leave_loop
              (set_room_tasks
                 <[t := set_rt_room (set_connection_state s) T]> st)
              t (set_rt_room (set_connection_state s) T))
    as (Hgone & Htracks & T' & HT' & Hpc' & Hcalls);
    [by simpl; rewrite lookup_insert_eq | done | done |].
  split_and!; [done | done | by exists T'].
Qed.

(** X15.  The empty-room drain from end to end.  With the handlers
    registered, a participant leaving while others remain changes nothing
    but the participant table.  When the last one leaves, the handler
    asks the room to disconnect; once the SDK has reported the
    disconnection, the next wake-up ends the loop, [finally] asks for the
    disconnection a second time, and the task ends without an exception,
    its entry deleted. *)
Theorem room_task_empty_room_drain (st : State) (t : nat) (T : RoomTask)
    (idn : string) :
  room_tasks st !! t = Some T -> rt_pc T = KeepAlive ->
  on_participant_disconnected (rt_room T) = true ->
  let st1 := room_event_step t (ParticipantDisconnected idn) st in
  (delete idn (remote_participants (rt_room T)) ≠ ∅ ->
     exists T1, room_tasks st1 !! t = Some T1 /\ rt_pc T1 = KeepAlive /\
       calls (rt_room T1) = calls (rt_room T) /\
       remote_participants (rt_room T1)
         = delete idn (remote_participants (rt_room T))) /\
  (delete idn (remote_participants (rt_room T)) = ∅ ->
     calls_of t st1 = Some (calls (rt_room T) ++ [SpawnDisconnect]) /\
     let st4 := room_task_step t DisconnectReturned
                  (room_task_step t SleepReturned
                     (room_event_step t
                        (ConnectionStateChanged CONN_DISCONNECTED) st1)) in
     running_agents st4 !! rt_room_id T = None /\
     exists T4, room_tasks st4 !! t = Some T4 /\ rt_pc T4 = Finished None /\
       calls (rt_room T4)
         = calls (rt_room T) ++ [SpawnDisconnect; CallDisconnect]).
Proof.
  intros HT Hpc Hon st1. split.
  - intros Hrest. unfold st1, room_event_step. rewrite HT. simpl. rewrite Hon.
    rewrite decide_False by by rewrite map_size_empty_iff.
    eexists. simpl. rewrite lookup_insert_eq. done.
  - intros Hempty.
    assert (E : st1 = set_room_tasks
                  <[t := set_rt_room (add_call SpawnDisconnect)
                           (set_rt_room (set_remote_participants (delete idn)) T)]>
                  st).
    { unfold st1, room_event_step. rewrite HT. simpl. rewrite Hon.
      by rewrite decide_True by by rewrite map_size_empty_iff. }
    split.
    { rewrite E. unfold calls_of. simpl. by rewrite lookup_insert_eq. }
    intros st4. unfold st4. rewrite E.
    match goal with
    | |- context [room_event_step t (ConnectionStateChanged ?s) ?st0] =>
        assert (E2 : room_event_step t (ConnectionStateChanged s) st0
                  = set_room_tasks
                      <[t := set_rt_room (set_connection_state s)
                               (set_rt_room (add_call SpawnDisconnect)
                                  (set_rt_room
                                     (set_remote_participants (delete idn)) T))]>
                      st0)
    end.
    { unfold room_event_step. simpl. by rewrite lookup_insert_eq. }
    rewrite E2.
    match goal with
    | |- context [room_task_step t SleepReturned ?st0] =>
        destruct (room_task_leave_loop st0 t
                    (set_rt_room (set_connection_state CONN_DISCONNECTED)
                       (set_rt_room (add_call SpawnDisconnect)
                          (set_rt_room
                             (set_remote_participants (delete idn)) T))))
          as (Hgone & _ & T4 & HT4 & Hpc4 & Hcalls)
    end; [by simpl; rewrite lookup_insert_eq | done | done |].
    split; [done|]. exists T4. split_and!; [done | done |].
    rewrite Hcalls. simpl. by rewrite <- app_assoc.
Qed.

(** X16.  If building the STT plugin fails once the room is connected,
    the task goes straight to [finally]: no handler is registered on the
    room and no transcription task is started, whatever tracks the room
    has; when [room.disconnect()] has returned the entry of the room is
    gone, and the exception is passed on only if [except Exception] did
    not catch it. *)
Theorem room_task_stt_plugin_fails (st : State) (t : nat) (T : RoomTask)
    (ps : gmap string RemoteParticipant) (e : exn) :
  room_tasks st !! t = Some T -> rt_pc T = AwaitConnect ->
  let st1 := room_task_step t (ConnectReturned ps (Some e)) st in
  let st2 := room_task_step t DisconnectReturned st1 in
  track_tasks st1 = track_tasks st /\ track_tasks st2 = track_tasks st /\
  (exists T1, room_tasks st1 !! t = Some T1 /\
     on_track_subscribed (rt_room T1) = on_track_subscribed (rt_room T) /\
     on_participant_disconnected (rt_room T1)
       = on_participant_disconnected (rt_room T) /\
     calls (rt_room T1) = calls (rt_room T) ++ [CallDisconnect]) /\
  running_agents st2 !! rt_room_id T = None /\
  exists T2, room_tasks st2 !! t = Some T2 /\
    rt_pc T2 = Finished (if is_Exception e then None else Some e).
Proof.
  intros HT Hpc.
  assert (E : room_task_step t (ConnectReturned ps (Some e)) st
              = set_room_tasks
                  <[t := room_task_raise e
                           (set_rt_room
                              (fun r => set_connection_state CONN_CONNECTED
                                 (set_remote_participants (fun _ => ps) r)) T)]>
                  st).
  { unfold room_task_step. by rewrite HT, Hpc. }
  simpl. rewrite E. unfold room_task_step. simpl.
  rewrite lookup_insert_eq. simpl. unfold room_task_cleanup. simpl.
  case_decide as Hreg; simpl; rewrite insert_insert_eq, lookup_insert_eq.
  - split_and!; [done | done | by eexists | apply lookup_delete_eq | by eexists].
  - split_and!; [done | done | by eexists | | by eexists].
    destruct (running_agents st !! rt_room_id T) eqn:Er; [exfalso; eauto|done].
Qed.

(** *** Which tracks are transcribed *)

(** A room task keeps its room, and its handlers once they are
    registered, through every step of the process. *)
Lemma step_room_task_persists (i : Input) (st : State) (t : nat) (T : RoomTask) :
  room_tasks st !! t = Some T ->
  exists T', room_tasks (step i st).1 !! t = Some T' /\
    rt_room_id T' = rt_room_id T /\
    (on_track_subscribed (rt_room T) = true ->
     on_track_subscribed (rt_room T') = true).
Proof.
  intros HT.
  assert (Hsame : forall st', room_tasks st' = room_tasks st ->
            exists T', room_tasks st' !! t = Some T' /\
              rt_room_id T' = rt_room_id T /\
              (on_track_subscribed (rt_room T) = true ->
               on_track_subscribed (rt_room T') = true)).
  { intros st' E. exists T. by rewrite E. }
  destruct i as [body|room|t0 i|t0 ev|k turn|k raised|g i]; simpl.
  - unfold attach_transcriber. destruct (negb _); [by apply Hsame|].
    destruct (default PNone _); try by apply Hsame.
    case_decide; [by apply Hsame|]. simpl. exists T.
    rewrite lookup_insert_ne; [done|]. intros <-.
    pose proof (is_fresh (dom (room_tasks st))) as Hf.
    apply not_elem_of_dom in Hf. congruence.
  - by apply Hsame.
  - destruct (decide (t0 = t)) as [-> | Hne];
      [|exists T; by rewrite room_task_step_other].
    unfold room_task_step. rewrite HT.
    assert (Hka : forall T0, rt_room_id (keep_alive T0) = rt_room_id T0 /\
              on_track_subscribed (rt_room (keep_alive T0))
                = on_track_subscribed (rt_room T0)).
    { intros T0. unfold keep_alive. by case_decide. }
    destruct (rt_pc T), i; simpl; try (by apply Hsame);
      try (eexists; rewrite lookup_insert_eq; split; [done|];
           rewrite ?(proj1 (Hka _)), ?(proj2 (Hka _)); done).
    + destruct stt_raises; simpl.
      * eexists. rewrite lookup_insert_eq. done.
      * eexists. rewrite lookup_insert_eq. split; [done|].
        rewrite (proj1 (Hka _)), (proj2 (Hka _)). done.
    + unfold room_task_cleanup. case_decide; simpl; eexists;
        rewrite lookup_insert_eq; done.
  - destruct (decide (t0 = t)) as [-> | Hne];
      [|exists T; by rewrite room_event_step_other].
    unfold room_event_step. rewrite HT.
    destruct ev as [p|tr p|idn|s]; simpl;
      try (eexists; rewrite lookup_insert_eq; done).
    + destruct (on_track_subscribed _); [case_decide|]; by apply Hsame.
    + eexists. rewrite lookup_insert_eq. split; [done|].
      destruct (on_participant_disconnected _); [case_decide|]; done.
  - apply Hsame. by destruct (track_task_step_same_registry k turn st).
  - apply Hsame. by destruct (track_task_end_frame k raised st) as [_ [_ ?]].
  - pose proof (gen_step_same_registry g i st) as [_ E].
    destruct (gen_step g i st). by apply Hsame.
Qed.

Lemma gen_step_track_tasks (g : nat) (i : GenInput) (st : State) :
  track_tasks (gen_step g i st).1 = track_tasks st.
Proof.
  unfold gen_step. destruct (streams st !! g) as [G|]; [|done].
  assert (Hleave : forall q pending out,
            track_tasks (gen_leave g G q pending out st).1 = track_tasks st).
  { intros q pending out. unfold gen_leave, event_generator_finally.
    destruct (transcript_queues st !! g_roomId G) as [l|]; [|done].
    destruct (list_remove q l) as [[|]|]; done. }
  destruct (g_pc G); destruct i as [| [|] | waited | | e]; try done.
  - unfold event_generator_subscribe. simpl. by case_decide.
  - destruct (items <$> queue_objs st !! q) as [[|]|]; try done;
      by destruct (Qle_bool _ _).
Qed.

(** Where the track tasks of a state come from: from the state before,
    with the same track and room, or from a room whose handlers are
    registered, for an audio track. *)
Lemma step_track_tasks (i : Input) (st : State) (k : nat) (K' : TrackTask) :
  track_tasks (step i st).1 !! k = Some K' ->
  (exists K, track_tasks st !! k = Some K /\ tt_track K' = tt_track K /\
             tt_room_id K' = tt_room_id K) \/
  (kind (tt_track K') = KIND_AUDIO /\
   exists t T', room_tasks (step i st).1 !! t = Some T' /\
                rt_room_id T' = tt_room_id K' /\
                on_track_subscribed (rt_room T') = true).
Proof.
  assert (Hsame : forall st', track_tasks st' = track_tasks st ->
            track_tasks st' !! k = Some K' ->
            exists K, track_tasks st !! k = Some K /\
              tt_track K' = tt_track K /\ tt_room_id K' = tt_room_id K).
  { intros st' -> HK. by exists K'. }
  destruct i as [body|room|t0 i|t0 ev|k0 turn|k0 raised|g i]; simpl.
  - unfold attach_transcriber. intros HK. left. revert HK.
    destruct (negb _); [by apply (Hsame _ eq_refl)|].
    destruct (default PNone _); try by apply (Hsame _ eq_refl).
    case_decide; by apply (Hsame _ eq_refl).
  - intros HK. left. by apply (Hsame _ eq_refl).
  - unfold room_task_step. destruct (room_tasks st !! t0) as [T|] eqn:HT;
      [|intros HK; left; by apply (Hsame _ eq_refl)].
    destruct (rt_pc T) eqn:Hpc, i;
      try (intros HK; left; by apply (Hsame _ eq_refl)).
    + destruct stt_raises; [intros HK; left; by apply (Hsame _ eq_refl)|].
      simpl. intros HK.
      destruct (spawn_tracks_spec (rt_room_id T)
                  (existing_audio_tracks participants) st)
        as (_ & _ & Hnew & _).
      destruct (track_tasks st !! k) as [K|] eqn:HKold.
      * left. exists K.
        destruct (spawn_tracks_spec (rt_room_id T)
                    (existing_audio_tracks participants) st)
          as (Hold & _). rewrite (Hold k K HKold) in HK. by simplify_eq.
      * right. destruct (Hnew k K' HK HKold) as (_ & Hr & Hin).
        apply elem_of_existing_audio_tracks in Hin as (_ & _ & _ & _ & _ & Hk).
        split; [done|]. exists t0. eexists. rewrite lookup_insert_eq.
        split; [done|]. unfold keep_alive. by case_decide.
    + unfold room_task_cleanup. intros HK. left.
      apply (Hsame _ eq_refl). revert HK. by case_decide.
  - unfold room_event_step. destruct (room_tasks st !! t0) as [T|] eqn:HT;
      [|intros HK; left; by apply (Hsame _ eq_refl)].
    destruct ev as [p|tr p|idn|s];
      try (intros HK; left; by apply (Hsame _ eq_refl)).
    destruct (on_track_subscribed (rt_room T)) eqn:Hon;
      [|intros HK; left; by apply (Hsame _ eq_refl)].
    case_decide as Hk; [|intros HK; left; by apply (Hsame _ eq_refl)].
    unfold spawn_track. simpl. rewrite lookup_insert. case_decide.
    + intros [= <-]. right. simpl. split; [done|]. by exists t0, T.
    + intros HK. left. by exists K'.
  - intros HK. left. revert HK. unfold track_task_step.
    destruct (track_tasks st !! k0) as [K0|] eqn:HK0;
      [|by apply (Hsame _ eq_refl)].
    destruct (tt_pc K0); try by apply (Hsame _ eq_refl).
    unfold handle_audio_track_body.
    case_decide; [|by apply (Hsame _ eq_refl)].
    destruct (alternatives (turn_event turn)) as [|alt ?].
    { simpl. rewrite lookup_insert. case_decide; [|by apply (Hsame _ eq_refl)].
      intros [= <-]. subst. by exists K0. }
    destruct (str_truthy (text alt)); [|by apply (Hsame _ eq_refl)].
    unfold broadcast_transcript.
    destruct (transcript_queues st !! tt_room_id K0);
      [|by apply (Hsame _ eq_refl)].
    destruct (put_all _ _ _) as [objs [w|]]; simpl;
      [|by apply (Hsame _ eq_refl)].
    rewrite lookup_insert. case_decide; [|by apply (Hsame _ eq_refl)].
    intros [= <-]. subst. by exists K0.
  - intros HK. left. revert HK. unfold track_task_end.
    destruct (track_tasks st !! k0) as [K0|] eqn:HK0;
      [|by apply (Hsame _ eq_refl)].
    destruct (tt_pc K0); try by apply (Hsame _ eq_refl).
    simpl. rewrite lookup_insert. case_decide; [|by apply (Hsame _ eq_refl)].
    intros [= <-]. subst. by exists K0.
  - pose proof (gen_step_track_tasks g i st) as E.
    destruct (gen_step g i st). intros HK. left. by apply (Hsame _ E).
Qed.

Lemma step_tracks_inv (i : Input) (st : State) :
  tracks_inv st -> tracks_inv (step i st).1.
Proof.
  intros Hinv k K' HK.
  destruct (step_track_tasks i st k K' HK)
    as [(K & HKold & Etr & Eroom) | Hnew]; [|done].
  destruct (Hinv k K HKold) as (Hk & t & T & HT & Hr & Hon).
  destruct (step_room_task_persists i st t T HT) as (T' & HT' & Hr' & Hon').
  split; [by rewrite Etr|]. exists t, T'. split_and!; [done | congruence | auto].
Qed.

(** X17.  In every state the process can be in, every transcription task,
    whether started for a track found at connection or by the
    [track_subscribed] handler, works on a track of kind audio, for the
    room of a room task that has registered its handlers: no video track
    is ever transcribed, and nothing is transcribed for a room before its
    agent is connected. *)
Theorem track_tasks_audio_only (st : State) (k : nat) (K : TrackTask) :
  reachable st -> track_tasks st !! k = Some K ->
  kind (tt_track K) = KIND_AUDIO /\
  exists t T, room_tasks st !! t = Some T /\
              rt_room_id T = tt_room_id K /\
              on_track_subscribed (rt_room T) = true.
Proof.
  intros [inputs <-].
  assert (Hgen : forall st0, tracks_inv st0 -> tracks_inv (run inputs st0).1).
  { induction inputs as [|i rest IH]; intros st0 Hinv; [done|].
    rewrite run_cons. simpl. apply IH. by apply step_tracks_inv. }
  apply Hgen. intros k0 K0. simpl. by rewrite lookup_empty.
Qed.

End with_json.

(** *** The further properties on sample runs *)

Lemma attach_transcriber_idempotent_witness :
  attach_transcriber r1_body (attach_transcriber r1_body init).1 =
    ((attach_transcriber r1_body init).1, JSONResponse "already_running").
Proof.
  apply (attach_transcriber_idempotent "r1"); [reflexivity | discriminate].
Defined.

Lemma attach_transcriber_around_exit_witness :
  attach_transcriber r1_body failed = (failed, JSONResponse "already_running") /\
  (attach_transcriber r1_body (room_task_step 0 DisconnectReturned failed)).2
    = JSONResponse "started".
Proof.
  pose proof (@attach_transcriber_around_exit table_json failed 0 _ None r1_body
                (reachable_run table_json _) eq_refl eq_refl eq_refl
                ltac:(discriminate)) as [Hbefore Hafter].
  cbv zeta in Hafter. destruct Hafter as (t' & _ & _ & E).
  split; [exact Hbefore|]. rewrite E. reflexivity.
Defined.

Lemma event_generator_subscribe_finally_witness :
  exists st2,
    event_generator_finally "r1" (event_generator_subscribe "r1" one_viewer).2
      (event_generator_subscribe "r1" one_viewer).1 = Return st2 /\
    transcript_queues st2 = transcript_queues one_viewer.
Proof.
  destruct (@event_generator_subscribe_finally table_json "r1" one_viewer
              (reachable_run table_json _)) as (st2 & E & Htq & _).
  by exists st2.
Defined.

Lemma transcript_queues_pruned_witness :
  NoDup [0; 1] /\
  forall q, q ∈ [0; 1] ->
    exists Q, queue_objs two_viewers !! q = Some Q /\ maxsize Q = 0%Z.
Proof.
  destruct (@transcript_queues_pruned table_json two_viewers "r1" [0; 1]
              (reachable_run table_json _) eq_refl) as (_ & Hnodup & Hq).
  split; [exact Hnodup|]. intros q Hin. exact (proj1 (Hq q Hin)).
Defined.

Lemma event_generator_exit_witness :
  (@gen_step table_json 0 (GenThrown CancelledError) one_viewer).2
    = GenRaised CancelledError /\
  (forall room l,
     transcript_queues (@gen_step table_json 0 (GenThrown CancelledError)
                          one_viewer).1 !! room = Some l -> 0 ∉ l) /\
  @gen_step table_json 0 Close one_viewer = (one_viewer, GenRaised RuntimeError).
Proof.
  destruct (@event_generator_exit table_json one_viewer 0 _ 0
              (GenThrown CancelledError) (reachable_run table_json _)
              eq_refl eq_refl)
    as (Hleave & Hclose & _).
  destruct (Hleave eq_refl) as (Hout & _ & Hgone & _).
  split_and!; [exact Hout | exact Hgone | apply Hclose; discriminate].
Defined.

Lemma event_generator_isolated_witness :
  exists l,
    transcript_queues (@gen_step table_json 1 Close two_viewers).1 !! "r1"
      = Some l /\ 0 ∈ l.
Proof.
  destruct (@event_generator_isolated table_json two_viewers 0 1 _ 0 Close
              (reachable_run table_json _) ltac:(discriminate) eq_refl eq_refl)
    as (_ & _ & Hlisted).
  exact Hlisted.
Defined.

Lemma transcript_stream_fifo_witness :
  (@run table_json (concat (pull 0 <$> [3; 15]%Q))
     (broadcast_all "r1" [hello; goodbye] between_turns)).2
  = turns_of 0 (@data_chunk table_json <$> [hello; goodbye]).
Proof.
  pose proof (@transcript_stream_fifo table_json [3; 15]%Q between_turns 0 _ 0 _
                [hello; goodbye] (reachable_run table_json _)
                eq_refl eq_refl eq_refl eq_refl) as H.
  cbv zeta in H. destruct H as (_ & Hturns & _). exact Hturns.
Defined.

Lemma transcript_stream_own_room_witness :
  @data_chunk table_json hello = keepalive_chunk \/
  exists m, @data_chunk table_json hello = @data_chunk table_json m /\
            roomId m = "r1" /\ msg_text m ≠ "".
Proof.
  pose proof (@transcript_stream_own_room table_json published 0 _
                (WaitOver 3) (@data_chunk table_json hello)
                (reachable_run table_json _) eq_refl eq_refl) as H.
  exact H.
Defined.

Lemma track_task_step_isolated_witness :
  (@track_task_step table_json 0 (heard ann no_text noon) published).2
    = OutNone /\
  (tt_pc <$> track_tasks
     (@track_task_step table_json 0 (heard ann no_text noon) published).1 !! 0)
    = Some (TrackDone (Some IndexError)).
Proof.
  pose proof (@track_task_step_isolated table_json 0 (heard ann no_text noon)
                published) as H.
  cbv zeta in H. destruct H as [_ H].
  destruct (H _ eq_refl eq_refl eq_refl) as [E _].
  rewrite E. split; [reflexivity|]. vm_compute. reflexivity.
Defined.

Lemma room_task_connected_spawns_witness :
  size (track_tasks
          (room_task_step 0 (ConnectReturned {[ "u4" := carol ]} None) attached))
  = 1.
Proof.
  pose proof (room_task_connected_spawns attached 0 _ {[ "u4" := carol ]}
                eq_refl eq_refl) as H.
  cbv zeta in H. destruct H as (_ & _ & Hsize & _).
  rewrite Hsize. vm_compute. reflexivity.
Defined.

Lemma room_task_thrown_then_cleanup_witness :
  exists T',
    room_tasks (room_task_step 0 DisconnectReturned
                  (room_task_step 0 (Thrown CancelledError) attached)) !! 0
      = Some T' /\
    rt_pc T' = Finished (Some CancelledError).
Proof.
  pose proof (room_task_thrown_then_cleanup attached 0 _ CancelledError
                eq_refl (or_introl eq_refl)) as H.
  cbv zeta in H. destruct H as (_ & T' & HT' & Hpc & _).
  by exists T'.
Defined.

Lemma room_task_empty_room_drain_witness :
  calls_of 0 (room_event_step 0 (ParticipantDisconnected "u1") in_room)
    = Some [CallConnect; SpawnDisconnect] /\
  running_agents
    (room_task_step 0 DisconnectReturned
       (room_task_step 0 SleepReturned
          (room_event_step 0 (ConnectionStateChanged CONN_DISCONNECTED)
             (room_event_step 0 (ParticipantDisconnected "u1") in_room))))
    !! "r1" = None.
Proof.
  pose proof (room_task_empty_room_drain in_room 0 _ "u1"
                eq_refl eq_refl eq_refl) as H.
  cbv zeta in H. destruct H as [_ H].
  destruct H as (Hcalls & Hgone & _); [vm_compute; reflexivity|].
  split; [exact Hcalls | exact Hgone].
Defined.

Lemma room_task_leaves_on_state_change_witness :
  running_agents
    (room_task_step 0 DisconnectReturned
       (room_task_step 0 SleepReturned
          (room_event_step 0 (ConnectionStateChanged CONN_RECONNECTING) in_room)))
    !! "r1" = None.
Proof.
  pose proof (room_task_leaves_on_state_change in_room 0 _ CONN_RECONNECTING
                eq_refl eq_refl ltac:(discriminate)) as H.
  cbv zeta in H. exact (proj1 H).
Defined.

Lemma room_task_stt_plugin_fails_witness :
  track_tasks (room_task_step 0 (ConnectReturned {[ "u4" := carol ]}
                                   (Some ValueError)) attached)
    = track_tasks attached /\
  running_agents
    (room_task_step 0 DisconnectReturned
       (room_task_step 0 (ConnectReturned {[ "u4" := carol ]} (Some ValueError))
          attached)) !! "r1" = None.
Proof.
  pose proof (room_task_stt_plugin_fails attached 0 _ {[ "u4" := carol ]}
                ValueError eq_refl eq_refl) as H.
  cbv zeta in H. destruct H as (Hnone & _ & _ & Hgone & _).
  split; [exact Hnone | exact Hgone].
Defined.

Lemma track_tasks_audio_only_witness :
  exists K, track_tasks published !! 0 = Some K /\
            kind (tt_track K) = KIND_AUDIO.
Proof.
  eexists. split; [vm_compute; reflexivity|].
  exact (proj1 (@track_tasks_audio_only table_json published 0 _
                  (reachable_run table_json _) eq_refl)).
Defined.
